(** * CCPS Safety Beacon harvester: a shallow embedding and its properties

    The development follows the Python sources of the repository:
    - [tools/apply_ccps_keyword_map.py]  (chunked, load_all_articles, main)
    - [tools/prep_ccps_supabase_csv.py]  (clean_text, month_name,
                                          derive_title)
    - [backend/collecter_past.py]        (discovery, PDF link extraction,
                                          download, text extraction, titles,
                                          state file, main)
    - [tools/collecter_past.py]          (the second harvester variant:
                                          discovery, the month-by-month
                                          pass, file names, the loop)
    - [tools/fetch_ccps_keyword_map.py]  (the pages of a keyword, the
                                          issue-to-keywords map)

    Python [str] values are modelled as [string], that is as sequences of
    code points below 256; Python [int] as [Z]; [dict] as [gmap]; [set] as
    [gset]; exceptions as explicit result types. *)

From Stdlib Require Import ZArith List String Ascii Bool Lia.
From stdpp Require Import base option list gmap sets strings sorting.

Local Open Scope Z_scope.

(** ** Python built-ins used by the scripts *)

Module Py.

(** [range(start, stop, step)]; [None] is the [ValueError] for a zero step. *)
Definition range (start stop step : Z) : option (list Z) :=
  if step =? 0 then None
  else
    let count :=
      if 0 <? step
      then (if start <? stop then (stop - start - 1) / step + 1 else 0)
      else (if stop <? start then (start - stop - 1) / (- step) + 1 else 0) in
    Some ((fun k : nat => start + Z.of_nat k * step) <$> seq 0 (Z.to_nat count)).

(** Index normalisation of a slice bound: negative bounds count from the
    end, and every bound is clamped to [0, len]. *)
Definition slice_bound (len k : Z) : Z :=
  if k <? 0 then Z.max (k + len) 0 else Z.min k len.

(** [lst[i:j]] *)
Definition slice {A} (lst : list A) (i j : Z) : list A :=
  let len := Z.of_nat (length lst) in
  let a := slice_bound len i in
  let b := slice_bound len j in
  take (Z.to_nat (b - a)) (drop (Z.to_nat a) lst).

End Py.

(** ** Python strings *)

Module PyStr.

Definition code (c : ascii) : N := N_of_ascii c.

Definition in_range (lo hi : N) (c : ascii) : bool :=
  ((lo <=? code c) && (code c <=? hi))%N.

(** [str.lower] on one code point below 256: A-Z and the Latin-1 capitals
    (U+00C0..U+00DE except the multiplication sign U+00D7) move up by 32. *)
Definition lower_char (c : ascii) : ascii :=
  if in_range 65 90 c || (in_range 192 222 c && negb (code c =? 215)%N)
  then ascii_of_N (code c + 32) else c.

Fixpoint lower (s : string) : string :=
  match s with
  | EmptyString => EmptyString
  | String c s' => String (lower_char c) (lower s')
  end.

(** [s.startswith(p)] *)
Fixpoint startswith (s p : string) {struct p} : bool :=
  match p, s with
  | EmptyString, _ => true
  | String a p', String b s' => Ascii.eqb a b && startswith s' p'
  | String _ _, EmptyString => false
  end.

(** [needle in s] *)
Fixpoint contains (needle s : string) : bool :=
  startswith s needle ||
  match s with
  | EmptyString => false
  | String _ s' => contains needle s'
  end.

(** [s.endswith(suffix)] *)
Fixpoint endswith (s suffix : string) : bool :=
  String.eqb s suffix ||
  match s with
  | EmptyString => false
  | String _ s' => endswith s' suffix
  end.

(** [str.isspace] for one code point below 256. *)
Definition isspace (c : ascii) : bool :=
  in_range 9 13 c || in_range 28 32 c || (code c =? 133)%N || (code c =? 160)%N.

(** [s.rstrip(chars)] with the character set given as a predicate. *)
Fixpoint rstrip_by (p : ascii -> bool) (s : string) : string :=
  match s with
  | EmptyString => EmptyString
  | String c s' =>
      match rstrip_by p s' with
      | EmptyString => if p c then EmptyString else String c EmptyString
      | r => String c r
      end
  end.

Fixpoint lstrip_by (p : ascii -> bool) (s : string) : string :=
  match s with
  | EmptyString => EmptyString
  | String c s' => if p c then lstrip_by p s' else s
  end.

(** [s.strip()] *)
Definition strip (s : string) : string := rstrip_by isspace (lstrip_by isspace s).

(** [s.rstrip("/")] *)
Definition rstrip_slash (s : string) : string :=
  rstrip_by (fun c => Ascii.eqb c "/") s.

(** Left-to-right replacement of non-overlapping matches, the scan that
    [str.replace] and [re.sub] perform.  [m rest] says whether a match
    starts at the head of [rest] and how many characters it spans (always
    at least one for the patterns of this repository); [skip] counts the
    characters of the current match still to be dropped. *)
Fixpoint scan_sub (m : string -> option nat) (new : string) (skip : nat)
         (s : string) : string :=
  match s with
  | EmptyString => EmptyString
  | String c s' =>
      match skip with
      | S k => scan_sub m new k s'
      | O =>
          match m s with
          | Some n => new +:+ scan_sub m new (Nat.pred n) s'
          | None => String c (scan_sub m new 0 s')
          end
      end
  end.

(** Matcher of a literal [old]. *)
Definition lit (old : string) (rest : string) : option nat :=
  if startswith rest old then Some (String.length old) else None.

(** Matcher of a literal under [re.IGNORECASE]. *)
Definition lit_nocase (old : string) (rest : string) : option nat :=
  if startswith (lower rest) (lower old)
  then Some (String.length old) else None.

(** Matcher of a one-character class. *)
Definition char_class (p : ascii -> bool) (rest : string) : option nat :=
  match rest with
  | String c _ => if p c then Some 1%nat else None
  | EmptyString => None
  end.

(** [s.replace(old, new)] for a non-empty [old]. *)
Definition replace (old new s : string) : string := scan_sub (lit old) new 0 s.

Fixpoint count_char (c : ascii) (s : string) : nat :=
  match s with
  | EmptyString => O
  | String d s' => (if Ascii.eqb c d then 1 else 0) + count_char c s'
  end.

Fixpoint mem_char (c : ascii) (s : string) : bool :=
  match s with
  | EmptyString => false
  | String d s' => Ascii.eqb c d || mem_char c s'
  end.

End PyStr.

(** ** tools/prep_ccps_supabase_csv.py: [clean_text] *)

Module CleanText.
Import PyStr.

Definition NUL : ascii := "000"%char.
Definition TAB : ascii := "009"%char.
Definition LF : ascii := "010"%char.
Definition CR : ascii := "013"%char.

Definition s_LF : string := String LF EmptyString.
Definition s_CR : string := String CR EmptyString.
Definition s_CRLF : string := String CR (String LF EmptyString).
Definition s_NUL : string := String NUL EmptyString.

(** [CONTROL_RE = re.compile(r"[\x00-\x08\x0b\x0c\x0e-\x1f]")] *)
Definition is_control (c : ascii) : bool :=
  in_range 0 8 c || (code c =? 11)%N || (code c =? 12)%N || in_range 14 31 c.

(** The six characters backslash, u, 0, 0, 0, 0. *)
Definition esc_nul : string := "\u0000".

(** [clean_text(s)] for a [str] argument ([None] is mapped to the empty
    string before anything else). *)
Definition clean_text (s : string) : string :=
  let s := replace s_CR s_LF (replace s_CRLF s_LF s) in
  let s := replace s_NUL EmptyString s in
  let s := scan_sub (lit_nocase esc_nul) EmptyString 0 s in
  scan_sub (char_class is_control) " " 0 s.

Definition clean_text_opt (s : option string) : string :=
  match s with None => EmptyString | Some s => clean_text s end.

(** Line breaks and tabs of a text, in order.  On the input side a
    carriage return followed by a line feed is one break, as is a lone
    carriage return or a lone line feed. *)
Inductive mark := Break | Tab.

Fixpoint marks_in (s : string) : list mark :=
  match s with
  | EmptyString => []
  | String c s' =>
      if Ascii.eqb c CR then
        match s' with
        | String d s'' => if Ascii.eqb d LF then Break :: marks_in s''
                          else Break :: marks_in s'
        | EmptyString => [Break]
        end
      else if Ascii.eqb c LF then Break :: marks_in s'
      else if Ascii.eqb c TAB then Tab :: marks_in s'
      else marks_in s'
  end.

Fixpoint marks_out (s : string) : list mark :=
  match s with
  | EmptyString => []
  | String c s' =>
      if Ascii.eqb c LF then Break :: marks_out s'
      else if Ascii.eqb c TAB then Tab :: marks_out s'
      else marks_out s'
  end.

(** Breaks and tabs after the first pass: every remaining carriage return
    is a break of its own. *)
Fixpoint marks_mid (s : string) : list mark :=
  match s with
  | EmptyString => []
  | String c s' =>
      if Ascii.eqb c CR then Break :: marks_mid s'
      else if Ascii.eqb c LF then Break :: marks_mid s'
      else if Ascii.eqb c TAB then Tab :: marks_mid s'
      else marks_mid s'
  end.

(** Characters that are neither a line feed nor a tab. *)
Definition plain (c : ascii) : bool := negb (Ascii.eqb c LF || Ascii.eqb c TAB).

Fixpoint plain_prefix (k : nat) (s : string) : bool :=
  match k, s with
  | O, _ => true
  | S k', String c s' => plain c && plain_prefix k' s'
  | S _, EmptyString => false
  end.

End CleanText.

(** ** tools/apply_ccps_keyword_map.py: [chunked] *)

Module Chunk.

(** [[lst[i : i + n] for i in range(0, len(lst), n)]] *)
Definition chunked {A} (lst : list A) (n : Z) : option (list (list A)) :=
  match Py.range 0 (Z.of_nat (length lst)) n with
  | None => None
  | Some idx => Some ((fun i => Py.slice lst i (i + n)) <$> idx)
  end.

(** The same chunks written over [nat]: [cnt] windows of width [m]. *)
Definition windows {A} (lst : list A) (m cnt : nat) : list (list A) :=
  (fun k : nat => take m (drop (k * m) lst)) <$> seq 0 cnt.

Definition chunk_count (len m : nat) : nat :=
  match len with O => O | S l => S (l / m) end.

End Chunk.

(** ** Pages and URLs *)

Module Html.

(** An [<a href=...>] element as the scripts read it: the value of its
    [href] attribute and [a.get_text()].  Anchors without [href] are never
    selected ([find_all("a", href=True)], [select("a[href]")]). *)
Record anchor := Anchor { a_href : string; a_text : string }.

(** What the scripts look at in a parsed page: its anchors in document
    order and the text of the first [h1] ([get_text(" ", strip=True)]). *)
Record page := Page { pg_anchors : list anchor; pg_h1 : option string }.

Definition empty_page : page := Page [] None.

End Html.

(** A model of the part of [urllib.parse] the scripts rely on, used to
    evaluate them on concrete pages.  [urljoin] covers references that are
    absolute URLs with a lower-case http(s) scheme, query-only references,
    root-relative paths and plain relative paths without dot segments or
    fragments, against an http(s) base; tabs, carriage returns and line
    feeds are removed first, as [urlsplit] does.  The general results below
    hold for any [urljoin]. *)
Module UrlModel.
Import PyStr.

Definition unsafe (c : ascii) : bool :=
  (code c =? 9)%N || (code c =? 10)%N || (code c =? 13)%N.

Fixpoint drop_unsafe (s : string) : string :=
  match s with
  | EmptyString => EmptyString
  | String c s' => if unsafe c then drop_unsafe s' else String c (drop_unsafe s')
  end.

(** The part of [s] before the first [c]. *)
Fixpoint before (c : ascii) (s : string) : string :=
  match s with
  | EmptyString => EmptyString
  | String d s' => if Ascii.eqb c d then EmptyString else String d (before c s')
  end.

(** The part of [s] from the first [c] on, [None] when there is none. *)
Fixpoint from (c : ascii) (s : string) : option string :=
  match s with
  | EmptyString => None
  | String d s' => if Ascii.eqb c d then Some s else from c s'
  end.

(** [s] up to and including its last [c]; empty when there is none. *)
Fixpoint upto_last (c : ascii) (s : string) : string :=
  match s with
  | EmptyString => EmptyString
  | String d s' =>
      match upto_last c s' with
      | EmptyString => if Ascii.eqb c d then String d EmptyString else EmptyString
      | r => String d r
      end
  end.

Definition has_scheme (s : string) : bool :=
  startswith s "http://" || startswith s "https://".

(** [scheme://netloc] of an http(s) URL. *)
Definition origin (base : string) : string :=
  let scheme := before ":" base in
  let rest := substring (String.length scheme + 3) (String.length base) base in
  scheme +:+ "://" +:+ before "/" rest.

Definition urljoin (base ref : string) : string :=
  let base := before "#" (drop_unsafe base) in
  let ref := drop_unsafe ref in
  match ref with
  | EmptyString => base
  | String c _ =>
      if has_scheme ref then ref
      else if Ascii.eqb c "?" then before "?" base +:+ ref
      else if Ascii.eqb c "/" then origin base +:+ ref
      else
        let path := before "?" base in
        let o := origin base in
        let dir := upto_last "/" (substring (String.length o)
                                            (String.length path) path) in
        o +:+ (match dir with EmptyString => "/" | _ => dir end) +:+ ref
  end.

(** Decimal digits to a number, [None] on any other character or on the
    empty string. *)
Fixpoint digits_go (acc : Z) (s : string) : option Z :=
  match s with
  | EmptyString => Some acc
  | String c s' =>
      if in_range 48 57 c
      then digits_go (10 * acc + Z.of_N (code c - 48)) s'
      else None
  end.

Definition digits (s : string) : option Z :=
  match s with EmptyString => None | _ => digits_go 0 s end.

(** The first value of [key] in a query string [k1=v1&k2=v2...]. *)
Fixpoint query_get_go (key : string) (fuel : nat) (q : string) : option string :=
  match fuel with
  | O => None
  | S fuel' =>
      let item := before "&" q in
      if startswith item (key +:+ "=")
      then Some (substring (String.length key + 1) (String.length item) item)
      else match from "&" q with
           | Some (String _ q') => query_get_go key fuel' q'
           | _ => None
           end
  end.

(** [int(parse_qs(urlparse(url).query)["page"][0])] for a plain decimal
    value; [None] when there is no such parameter or [int] would raise. *)
Definition page_param (url : string) : option Z :=
  match from "?" (before "#" url) with
  | Some (String _ q) =>
      match query_get_go "page" (S (String.length q)) q with
      | Some v => digits v
      | None => None
      end
  | _ => None
  end.

End UrlModel.

(** ** PDF link extraction ([extract_pdf_url_from_english_page]) *)

Module Extract.
Import PyStr Html.

Section WithUrljoin.
Variable urljoin : string -> string -> string.

(** [(a.get_text() or "").strip().lower()] *)
Definition anchor_text (a : anchor) : string := lower (strip (a_text a)).

(** backend/collecter_past.py: ["download" in txt and "click" in txt] *)
Definition click_download (a : anchor) : bool :=
  contains "download" (anchor_text a) && contains "click" (anchor_text a).

(** backend/collecter_past.py:
    [href.lower().endswith(".pdf") or ".pdf" in href.lower()] *)
Definition pdf_href (a : anchor) : bool :=
  endswith (lower (a_href a)) ".pdf" || contains ".pdf" (lower (a_href a)).

Definition resolve (base_url : string) (a : anchor) : string :=
  urljoin (base_url +:+ "/") (a_href a).

(** backend/collecter_past.py, [extract_pdf_url_from_english_page(html,
    base_url)]; the empty string stands for "no PDF link". *)
Definition extract_pdf_url (pg : page) (base_url : string) : string :=
  match List.find click_download (pg_anchors pg) with
  | Some a => resolve base_url a
  | None =>
      let candidates := resolve base_url <$> List.filter pdf_href (pg_anchors pg) in
      match candidates with
      | c :: _ => c
      | [] => EmptyString
      end
  end.

(** tools/collecter_past.py: the text test of that variant. *)
Definition click_download_t (a : anchor) : bool :=
  contains "click here to download" (anchor_text a) ||
  (contains "download" (anchor_text a) && contains "click" (anchor_text a)).

(** tools/collecter_past.py: [href.lower().endswith(".pdf")] *)
Definition pdf_href_t (a : anchor) : bool := endswith (lower (a_href a)) ".pdf".

(** tools/collecter_past.py: ["beacon" in lu and "english" in lu] on the
    lower-cased candidate, which is the joined URL. *)
Definition beacon_english (u : string) : bool :=
  contains "beacon" (lower u) && contains "english" (lower u).

(** tools/collecter_past.py, [extract_pdf_url_from_english_page] applied
    to the page that [fetch_html] returned. *)
Definition extract_pdf_url_t (pg : page) (english_page_url : string)
  : option string :=
  match List.find click_download_t (pg_anchors pg) with
  | Some a => Some (resolve english_page_url a)
  | None =>
      let pdf_candidates :=
        resolve english_page_url <$> List.filter pdf_href_t (pg_anchors pg) in
      match List.find beacon_english pdf_candidates with
      | Some u => Some u
      | None => head pdf_candidates
      end
  end.

End WithUrljoin.

End Extract.

(** ** Results of operations that can raise *)

Inductive result (A : Type) : Type :=
| Ok (a : A)
| Raise (msg : string).
Arguments Ok {A} a.
Arguments Raise {A} msg.

(** ** HTTP downloads ([download_pdf], [download_file]) *)

Module Http.

Definition bytes := list Byte.byte.

(** A response as the scripts use it: the status code and the body, in the
    chunks that [iter_content] yields; [r.content] is their concatenation. *)
Record response := Response { status_code : Z; body_chunks : list bytes }.

Definition content (r : response) : bytes := concat (body_chunks r).

(** [Response.raise_for_status] of the requests library raises for client
    and server error codes. *)
Definition raises_for_status (r : response) : bool :=
  (400 <=? status_code r) && (status_code r <? 600).

Definition http_error : string := "HTTPError".

(** backend/collecter_past.py, [download_pdf]: [got] is the outcome of
    [session.get(pdf_url, timeout=120)]. *)
Definition download_pdf (got : result response) (out_path : string)
           (fs : gmap string bytes) : result (gmap string bytes) :=
  match got with
  | Raise msg => Raise msg
  | Ok r =>
      if raises_for_status r then Raise http_error
      else Ok (<[out_path := content r]> fs)
  end.

(** The [for chunk in r.iter_content(...): if chunk: f.write(chunk)] loop. *)
Fixpoint write_chunks (chunks : list bytes) (written : bytes) : bytes :=
  match chunks with
  | [] => written
  | chunk :: rest =>
      match chunk with
      | [] => write_chunks rest written
      | _ => write_chunks rest (written ++ chunk)
      end
  end.

(** tools/collecter_past.py, [download_file]: the returned flag and the
    files afterwards. *)
Definition download_file (got : result response) (path : string)
           (fs : gmap string bytes) : result (bool * gmap string bytes) :=
  match got with
  | Raise msg => Raise msg
  | Ok r =>
      if negb (status_code r =? 200) then Ok (false, fs)
      else Ok (true, <[path := write_chunks (body_chunks r) []]> fs)
  end.

End Http.

(** ** Archive discovery (backend/collecter_past.py) *)

Module Discover.
Import PyStr Html.

Definition ARCHIVES_ROOT : string :=
  "https://ccps.aiche.org/resources/process-safety-beacon/archives".

Definition MONTHS : gmap string Z :=
  list_to_map
    [("january", 1); ("february", 2); ("march", 3); ("april", 4);
     ("may", 5); ("june", 6); ("july", 7); ("august", 8);
     ("september", 9); ("october", 10); ("november", 11); ("december", 12)].

Definition is_digit (c : ascii) : bool := in_range 48 57 c.
Definition is_az (c : ascii) : bool := in_range 97 122 c.

Fixpoint all_chars (p : ascii -> bool) (s : string) : bool :=
  match s with
  | EmptyString => true
  | String c s' => p c && all_chars p s'
  end.

(** The longest prefix of characters satisfying [p], and the rest. *)
Fixpoint span (p : ascii -> bool) (s : string) : string * string :=
  match s with
  | EmptyString => (EmptyString, EmptyString)
  | String c s' =>
      if p c then let '(a, b) := span p s' in (String c a, b)
      else (EmptyString, s)
  end.

Fixpoint drop_str (n : nat) (s : string) : string :=
  match n, s with
  | O, _ => s
  | S n', String _ s' => drop_str n' s'
  | S _, EmptyString => EmptyString
  end.

Fixpoint take_str (n : nat) (s : string) : string :=
  match n, s with
  | O, _ => EmptyString
  | S n', String c s' => String c (take_str n' s')
  | S _, EmptyString => EmptyString
  end.

(** [$] outside MULTILINE mode: the end of the string, or the position
    before a line feed that ends the string. *)
Definition at_end (s : string) : bool :=
  match s with
  | EmptyString => true
  | String c EmptyString => Ascii.eqb c "010"
  | _ => false
  end.

(** [r"/archives/(\d{4})/([a-z]+)/english/?$"] matched at the head of [s];
    the two groups on success. *)
Definition match_english_here (s : string) : option (string * string) :=
  if startswith s "/archives/" then
    let r := drop_str 10 s in
    let yyyy := take_str 4 r in
    if (String.length yyyy =? 4)%nat && all_chars is_digit yyyy then
      match drop_str 4 r with
      | String "/" r1 =>
          let '(mon, r2) := span is_az r1 in
          match mon with
          | EmptyString => None
          | _ =>
              if startswith r2 "/english" then
                let r3 := drop_str 8 r2 in
                if at_end r3 ||
                   match r3 with String "/" r4 => at_end r4 | _ => false end
                then Some (yyyy, mon) else None
              else None
          end
      | _ => None
      end
    else None
  else None.

(** [re.search] of that pattern: the leftmost position where it matches. *)
Fixpoint search_english (s : string) : option (string * string) :=
  match match_english_here s with
  | Some g => Some g
  | None =>
      match s with
      | EmptyString => None
      | String _ s' => search_english s'
      end
  end.

(** [int] of a string of decimal digits. *)
Fixpoint int_digits (acc : Z) (s : string) : Z :=
  match s with
  | EmptyString => acc
  | String c s' => int_digits (10 * acc + Z.of_N (code c - 48)) s'
  end.

(** [parse_year_month_from_english_url] *)
Definition parse_year_month_from_english_url (url : string) : option (Z * Z) :=
  match search_english url with
  | None => None
  | Some (g1, g2) =>
      let year := int_digits 0 g1 in
      match MONTHS !! lower g2 with
      | None => None
      | Some month => if month =? 0 then None else Some (year, month)
      end
  end.

(** Decimal rendering of a non-negative number ([f"{page}"]). *)
Fixpoint dec_go (fuel : nat) (n : Z) (acc : string) : string :=
  match fuel with
  | O => acc
  | S fuel' =>
      let acc' := String (ascii_of_N (48 + Z.to_N (n mod 10))) acc in
      if n / 10 =? 0 then acc' else dec_go fuel' (n / 10) acc'
  end.

Definition str_of_Z (n : Z) : string :=
  if n <? 0 then "-" +:+ dec_go (S (Z.to_nat (Z.log2 (- n)))) (- n) EmptyString
  else dec_go (S (Z.to_nat (Z.log2 n))) n EmptyString.

(** [(year, month)] keys compared as Python compares tuples. *)
Definition key_le (a b : Z * Z) : bool :=
  (a.1 <? b.1) || ((a.1 =? b.1) && (a.2 <=? b.2)).

Definition sort_key (u : string) : Z * Z :=
  match parse_year_month_from_english_url u with
  | Some ym => ym
  | None => (0, 0)
  end.

(** Order of [sorted(..., key=sort_key, reverse=True)]: larger keys first. *)
Definition newer_first (u v : string) : Prop :=
  key_le (sort_key v) (sort_key u) = true.

#[global] Instance newer_first_dec u v : Decision (newer_first u v).
Proof. unfold newer_first. apply _. Defined.

(** [max(l)] for a non-empty list. *)
Definition max_list (l : list Z) : Z :=
  match l with
  | [] => 0
  | x :: l' => foldl Z.max x l'
  end.

(** What one run of discovery leaves behind: the set [pages] and the
    listing URLs fetched, in order. *)
Record dstate := DState { d_pages : gset string; d_fetched : list string }.

Inductive loop_exit := Exhausted | NoLinks | TooOld.

Section WithWeb.
Variable urljoin : string -> string -> string.
(** [int(parse_qs(urlparse(url).query)["page"][0])], [None] when the
    parameter is absent or [int] raises. *)
Variable page_param : string -> option Z.
(** [fetch(session, url)]: the parsed page, or the exception raised by
    the request or by [raise_for_status]. *)
Variable fetch : string -> result page.

(** [parse_last_page_num] *)
Definition parse_last_page_num (pg : page) : Z :=
  foldl (fun max_page a =>
           match page_param (urljoin ARCHIVES_ROOT (a_href a)) with
           | Some p => Z.max max_page p
           | None => max_page
           end) 0 (pg_anchors pg).

(** [extract_english_links_from_archive_page] *)
Definition extract_english_links_from_archive_page (pg : page) : list string :=
  omap (fun a =>
          let full := urljoin ARCHIVES_ROOT (a_href a) in
          match search_english full with
          | Some _ => Some (rstrip_slash full)
          | None => None
          end) (pg_anchors pg).

(** The [for u in links] loop: the years seen and the pages kept. *)
Fixpoint scan_links (min_year : Z) (links : list string)
         (years_in_page : list Z) (pages : gset string)
  : list Z * gset string :=
  match links with
  | [] => (years_in_page, pages)
  | u :: rest =>
      match parse_year_month_from_english_url u with
      | None => scan_links min_year rest years_in_page pages
      | Some (y, _) =>
          scan_links min_year rest (years_in_page ++ [y])
                     (if min_year <=? y then {[u]} ∪ pages else pages)
      end
  end.

Definition page_url (page : Z) : string :=
  if page =? 0 then ARCHIVES_ROOT
  else ARCHIVES_ROOT +:+ "?page=" +:+ str_of_Z page.

(** The [for page in range(0, last_page + 1)] loop. *)
Fixpoint discover_loop (min_year : Z) (idx : list Z) (st : dstate)
  : result (dstate * loop_exit) :=
  match idx with
  | [] => Ok (st, Exhausted)
  | page :: rest =>
      let url := page_url page in
      match fetch url with
      | Raise msg => Raise msg
      | Ok pg =>
          let st := DState (d_pages st) (d_fetched st ++ [url]) in
          let links := extract_english_links_from_archive_page pg in
          match links with
          | [] => Ok (st, NoLinks)
          | _ =>
              let '(years_in_page, pages) :=
                scan_links min_year links [] (d_pages st) in
              let st := DState pages (d_fetched st) in
              match years_in_page with
              | _ :: _ =>
                  if max_list years_in_page <? min_year
                  then Ok (st, TooOld)
                  else discover_loop min_year rest st
              | [] => discover_loop min_year rest st
              end
          end
      end
  end.

(** [discover_english_pages]: the loop's final state together with the
    sorted list that is returned. *)
Definition discover_run (min_year : Z) (max_pages : option Z)
  : result (dstate * loop_exit) :=
  match fetch ARCHIVES_ROOT with
  | Raise msg => Raise msg
  | Ok first =>
      let last_page := parse_last_page_num first in
      let last_page :=
        match max_pages with
        | Some mp => Z.min last_page (mp - 1)
        | None => last_page
        end in
      match Py.range 0 (last_page + 1) 1 with
      | None => Raise "ValueError"
      | Some idx =>
          discover_loop min_year idx (DState ∅ [ARCHIVES_ROOT])
      end
  end.

Definition sorted_pages (pages : gset string) : list string :=
  merge_sort newer_first (elements pages).

Definition discover_english_pages (min_year : Z) (max_pages : option Z)
  : result (list string) :=
  match discover_run min_year max_pages with
  | Raise msg => Raise msg
  | Ok (st, _) => Ok (sorted_pages (d_pages st))
  end.

End WithWeb.

(** The years of the links of a page that
    [parse_year_month_from_english_url] can parse. *)
Definition years_of (links : list string) : list Z :=
  omap (fun u => fst <$> parse_year_month_from_english_url u) links.



End Discover.

(** ** Concrete pages and servers used in the examples below *)

Module Examples.
Import Html Discover.

Definition archive_path : string := "/resources/process-safety-beacon/archives".

(** A listing whose first page links to a second page and to one issue
    with a month name that is not in [MONTHS]. *)
Definition web_unparsable (url : string) : result page :=
  if String.eqb url ARCHIVES_ROOT then
    Ok (Page [Anchor "?page=1" "next";
              Anchor (archive_path +:+ "/2020/foo/english") "Foo 2020"] None)
  else if String.eqb url (ARCHIVES_ROOT +:+ "?page=1") then
    Ok (Page [Anchor (archive_path +:+ "/2019/may/english/") "May 2019"] None)
  else Raise "404 Client Error".

(** A listing of two pages with issues of 2019, 2021 and 2022. *)
Definition web_two_pages (url : string) : result page :=
  if String.eqb url ARCHIVES_ROOT then
    Ok (Page [Anchor "?page=1" "next";
              Anchor (archive_path +:+ "/2021/june/english/") "June 2021";
              Anchor (archive_path +:+ "/2022/may/english") "May 2022"] None)
  else if String.eqb url (ARCHIVES_ROOT +:+ "?page=1") then
    Ok (Page [Anchor (archive_path +:+ "/2019/may/english/") "May 2019";
              Anchor (archive_path +:+ "/2021/june/english") "June 2021"] None)
  else Raise "404 Client Error".

End Examples.

(** ** PDF text extraction and titles (backend/collecter_past.py) *)

Module PdfText.
Import PyStr Discover.

Definition LF : ascii := "010"%char.
Definition s_LF : string := String LF EmptyString.

Definition is_blank (c : ascii) : bool := Ascii.eqb c " " || Ascii.eqb c "009".

(** [r"[ \t]+\n"]: a run of blanks that reaches a line feed. *)
Definition blanks_then_lf (rest : string) : option nat :=
  let '(run, after) := span is_blank rest in
  match run, after with
  | String _ _, String c _ =>
      if Ascii.eqb c LF then Some (S (String.length run)) else None
  | _, _ => None
  end.

(** [r"\n{3,}"]: a run of three or more line feeds. *)
Definition three_lf (rest : string) : option nat :=
  let '(run, _) := span (Ascii.eqb LF) rest in
  if (3 <=? String.length run)%nat then Some (String.length run) else None.

(** ["\n".join(parts)] *)
Fixpoint join_lf (parts : list string) : string :=
  match parts with
  | [] => EmptyString
  | [p] => p
  | p :: rest => p +:+ s_LF +:+ join_lf rest
  end.

(** [f"PDF text extraction failed: {pdf_path.name} ({e})"] *)
Definition warning (name msg : string) : string :=
  "PDF text extraction failed: " +:+ name +:+ " (" +:+ msg +:+ ")".

(** [extract_pdf_text]: [parsed] is what [PdfReader] and the per-page
    [extract_text()] calls produce, a page giving [None] when it has no
    text, or the exception one of them raises.  The result is the text
    and the warning logged, if any. *)
Definition extract_pdf_text (name : string)
           (parsed : result (list (option string))) : string * option string :=
  match parsed with
  | Ok pages =>
      let parts := (fun p => default EmptyString p) <$> pages in
      let text := strip (join_lf parts) in
      let text := scan_sub blanks_then_lf s_LF 0 text in
      let text := scan_sub three_lf (s_LF +:+ s_LF) 0 text in
      (text, None)
  | Raise e => (EmptyString, Some (warning name e))
  end.

(** [r"\s*-\s*English\s*$"] under IGNORECASE, matched at the head. *)
Definition english_suffix_here (s : string) : bool :=
  match lstrip_by isspace s with
  | String "-" r1 =>
      let r2 := lstrip_by isspace r1 in
      startswith (lower r2) "english" && all_chars isspace (drop_str 7 r2)
  | _ => false
  end.

(** [re.sub(r"\s*-\s*English\s*$", "", title, flags=re.IGNORECASE)] *)
Fixpoint cut_english_suffix (s : string) : string :=
  if english_suffix_here s then EmptyString
  else match s with
       | EmptyString => EmptyString
       | String c s' => String c (cut_english_suffix s')
       end.

(** [extract_title_from_english_page] *)
Definition extract_title_from_english_page (pg : Html.page) : string :=
  let title := default EmptyString (Html.pg_h1 pg) in
  strip (cut_english_suffix title).

(** [f"{n:02d}"] *)
Definition fmt_02d (n : Z) : string :=
  let s := str_of_Z n in
  if (String.length s <? 2)%nat then "0" +:+ s else s.

End PdfText.

(** ** The harvest loop of backend/collecter_past.py *)

Module Harvest.
Import PyStr Html Http Discover PdfText.

(** The row sent to the articles table. *)
Record payload := Payload {
  title : string;
  content : option string;
  source_page_url : string;
  source_pdf_url : string;
  published_year : Z;
  published_month : Z;
  pdf_bucket : string;
  pdf_path : string }.

(** An entry of [logs/skipped.json]. *)
Record skip_entry := Skip {
  sk_url : string; sk_reason : string; sk_error : option string }.

(** Remote operations, each recorded with the issue being processed. *)
Inductive op :=
  | Fetch (url : string)
  | Download (pdf_url : string)
  | Upload (bucket object_path : string)
  | Upsert (table : string) (row : payload).

Record event := Ev { ev_item : string; ev_op : op }.

(** Command-line arguments that the loop reads. *)
Record args := Args {
  arg_table : string; arg_bucket : string;
  arg_force : bool; arg_limit : option Z }.

Record hstate := HState {
  h_processed : gset string;            (* the set [processed] *)
  h_state_file : option (list string);  (* [processed_english_pages] as last saved by this run *)
  h_skipped_log : list skip_entry;      (* entries appended to skipped.json *)
  h_files : gmap string bytes;          (* the downloads directory *)
  h_storage : gmap (string * string) bytes;  (* objects by bucket and path *)
  h_table : gmap string payload;        (* rows by [source_page_url] *)
  h_trace : list event;
  h_warnings : list string;
  h_done : Z;
  h_skipped : Z }.

(** [sorted(processed)] *)
Definition str_le (a b : string) : Prop := String.leb a b = true.

#[global] Instance str_le_dec a b : Decision (str_le a b).
Proof. unfold str_le. apply _. Defined.

Definition sorted_set (s : gset string) : list string :=
  merge_sort str_le (elements s).

(** [load_state] followed by
    [set(state.get("processed_english_pages", []))]; [None] stands for a
    missing or unreadable file or a missing key. *)
Definition load_processed (file : option (list string)) : gset string :=
  list_to_set (default [] file).

Definition DOWNLOAD_DIR : string := "downloads/".

Definition pdf_filename (year month : Z) : string :=
  str_of_Z year +:+ "-" +:+ fmt_02d month +:+ "-Beacon-English.pdf".

Definition object_path_of (year month : Z) : string :=
  "beacon/" +:+ str_of_Z year +:+ "/" +:+ fmt_02d month +:+ "/" +:+
  pdf_filename year month.

Definition fallback_title (year month : Z) : string :=
  "Process Safety Beacon " +:+ str_of_Z year +:+ "-" +:+ fmt_02d month.

Section WithWorld.
Variable urljoin : string -> string -> string.
(** [fetch(session, url)] *)
Variable fetch : string -> result page.
(** [session.get(pdf_url, timeout=120)] *)
Variable http_get : string -> result response.
(** [PdfReader] and [extract_text] on the bytes of a file *)
Variable read_pdf : bytes -> result (list (option string)).
(** the storage upload; [Some msg] when it raises *)
Variable upload_fails : string -> string -> bytes -> option string.
(** the table upsert; [Some msg] when it raises *)
Variable upsert_fails : string -> payload -> option string.

Variable a : args.

Definition add_event (u : string) (o : op) (st : hstate) : hstate :=
  HState (h_processed st) (h_state_file st) (h_skipped_log st) (h_files st)
         (h_storage st) (h_table st) (h_trace st ++ [Ev u o])
         (h_warnings st) (h_done st) (h_skipped st).

(** [skipped += 1; append_skipped(item)] *)
Definition skip (item : skip_entry) (st : hstate) : hstate :=
  HState (h_processed st) (h_state_file st) (h_skipped_log st ++ [item])
         (h_files st) (h_storage st) (h_table st) (h_trace st)
         (h_warnings st) (h_done st) (h_skipped st + 1).

(** [processed.add(u); state[...] = sorted(processed); save_state(state)] *)
Definition mark_processed (u : string) (st : hstate) : hstate :=
  let processed := {[u]} ∪ h_processed st in
  HState processed (Some (sorted_set processed)) (h_skipped_log st)
         (h_files st) (h_storage st) (h_table st) (h_trace st)
         (h_warnings st) (h_done st) (h_skipped st).

Definition set_files (fs : gmap string bytes) (st : hstate) : hstate :=
  HState (h_processed st) (h_state_file st) (h_skipped_log st) fs
         (h_storage st) (h_table st) (h_trace st)
         (h_warnings st) (h_done st) (h_skipped st).

Definition warn (w : option string) (st : hstate) : hstate :=
  HState (h_processed st) (h_state_file st) (h_skipped_log st) (h_files st)
         (h_storage st) (h_table st) (h_trace st)
         (h_warnings st ++ match w with Some m => [m] | None => [] end)
         (h_done st) (h_skipped st).

Definition store_object (bucket path : string) (data : bytes) (st : hstate)
  : hstate :=
  HState (h_processed st) (h_state_file st) (h_skipped_log st) (h_files st)
         (<[(bucket, path) := data]> (h_storage st)) (h_table st)
         (h_trace st) (h_warnings st) (h_done st) (h_skipped st).

(** [upsert(payload, on_conflict="source_page_url")]: the row with that
    URL is replaced, or inserted when there is none. *)
Definition store_row (row : payload) (st : hstate) : hstate :=
  HState (h_processed st) (h_state_file st) (h_skipped_log st) (h_files st)
         (h_storage st) (<[source_page_url row := row]> (h_table st))
         (h_trace st) (h_warnings st) (h_done st) (h_skipped st).

Definition count_done (st : hstate) : hstate :=
  HState (h_processed st) (h_state_file st) (h_skipped_log st) (h_files st)
         (h_storage st) (h_table st) (h_trace st) (h_warnings st)
         (h_done st + 1) (h_skipped st).

(** How the body of the [try] block ends for one issue. *)
Inductive outcome :=
  | Stored            (* uploaded, upserted and marked as processed *)
  | NoPdfUrl          (* the [if not pdf_url] branch, left by [continue] *)
  | Failed (msg : string).  (* an exception, caught by [except Exception] *)

(** The body of the [try] block for [english_url] with its parsed year
    and month.  When an operation raises, the state reached so far is
    kept and the exception message is returned. *)
Definition try_body (english_url : string) (year month : Z) (st : hstate)
  : hstate * outcome :=
  let st := add_event english_url (Fetch english_url) st in
  match fetch english_url with
  | Raise msg => (st, Failed msg)
  | Ok html =>
      let title :=
        match extract_title_from_english_page html with
        | EmptyString => fallback_title year month
        | t => t
        end in
      let pdf_url := Extract.extract_pdf_url urljoin html english_url in
      match pdf_url with
      | EmptyString =>
          let st := skip (Skip english_url "no_pdf_url" None) st in
          (mark_processed english_url st, NoPdfUrl)
      | _ =>
          let local_pdf := DOWNLOAD_DIR +:+ pdf_filename year month in
          let st := add_event english_url (Download pdf_url) st in
          match download_pdf (http_get pdf_url) local_pdf (h_files st) with
          | Raise msg => (st, Failed msg)
          | Ok fs =>
              let st := set_files fs st in
              let data := default [] (fs !! local_pdf) in
              let '(text, w) :=
                extract_pdf_text (pdf_filename year month) (read_pdf data) in
              let st := warn w st in
              let object_path := object_path_of year month in
              let st := add_event english_url
                                  (Upload (arg_bucket a) object_path) st in
              match upload_fails (arg_bucket a) object_path data with
              | Some msg => (st, Failed msg)
              | None =>
                  let st := store_object (arg_bucket a) object_path data st in
                  let row := Payload title
                               (match text with
                                | EmptyString => None
                                | _ => Some text
                                end)
                               english_url pdf_url year month
                               (arg_bucket a) object_path in
                  let st := add_event english_url
                                      (Upsert (arg_table a) row) st in
                  match upsert_fails (arg_table a) row with
                  | Some msg => (st, Failed msg)
                  | None =>
                      let st := store_row row st in
                      let st := mark_processed english_url st in
                      (count_done st, Stored)
                  end
              end
          end
      end
  end.

(** One iteration of [for english_url in english_pages]; the flag is
    [false] when the loop is left by [break]. *)
Definition step (english_url : string) (st : hstate) : hstate * bool :=
  if negb (arg_force a) && bool_decide (english_url ∈ h_processed st)
  then (st, true)
  else
    match parse_year_month_from_english_url english_url with
    | None => (skip (Skip english_url "bad_ym" None) st, true)
    | Some (year, month) =>
        match try_body english_url year month st with
        | (st', Stored) =>
            match arg_limit a with
            | Some limit => (st', negb (limit <=? h_done st'))
            | None => (st', true)
            end
        | (st', NoPdfUrl) => (st', true)
        | (st', Failed msg) =>
            (skip (Skip english_url "exception" (Some msg)) st', true)
        end
    end.

Fixpoint harvest (english_pages : list string) (st : hstate) : hstate :=
  match english_pages with
  | [] => st
  | u :: rest =>
      match step u st with
      | (st', true) => harvest rest st'
      | (st', false) => st'
      end
  end.

(** The state with which the loop starts: [processed] loaded from the
    state file, the remote store and the local files as they are. *)
Definition initial (file : option (list string))
           (files : gmap string bytes)
           (storage : gmap (string * string) bytes)
           (table : gmap string payload) : hstate :=
  HState (load_processed file) None [] files storage table [] [] 0 0.

(** What one pass through the [try] block can do to the state. *)
Inductive body_result (u : string) (st : hstate) : hstate -> outcome -> Prop :=
| body_stored st' row data :
    h_processed st' = {[u]} ∪ h_processed st ->
    h_state_file st' = Some (sorted_set (h_processed st')) ->
    h_skipped_log st' = h_skipped_log st ->
    h_table st' = <[u := row]> (h_table st) ->
    source_page_url row = u ->
    h_storage st' = <[(pdf_bucket row, pdf_path row) := data]> (h_storage st) ->
    h_done st' = h_done st + 1 ->
    h_skipped st' = h_skipped st ->
    Ev u (Fetch u) ∈ h_trace st' ->
    Ev u (Upload (pdf_bucket row) (pdf_path row)) ∈ h_trace st' ->
    Ev u (Upsert (arg_table a) row) ∈ h_trace st' ->
    body_result u st st' Stored
| body_no_pdf st' :
    h_processed st' = {[u]} ∪ h_processed st ->
    h_state_file st' = Some (sorted_set (h_processed st')) ->
    h_skipped_log st' = h_skipped_log st ++ [Skip u "no_pdf_url" None] ->
    h_table st' = h_table st ->
    h_storage st' = h_storage st ->
    h_done st' = h_done st ->
    h_skipped st' = h_skipped st + 1 ->
    h_trace st' = h_trace st ++ [Ev u (Fetch u)] ->
    body_result u st st' NoPdfUrl
| body_failed st' msg :
    h_processed st' = h_processed st ->
    h_state_file st' = h_state_file st ->
    h_skipped_log st' = h_skipped_log st ->
    h_table st' = h_table st ->
    (forall k, is_Some (h_storage st !! k) -> is_Some (h_storage st' !! k)) ->
    h_done st' = h_done st ->
    h_skipped st' = h_skipped st ->
    Ev u (Fetch u) ∈ h_trace st' ->
    (forall row, Ev u (Upsert (arg_table a) row) ∈ h_trace st' ->
                 upsert_fails (arg_table a) row <> None \/
                 Ev u (Upsert (arg_table a) row) ∈ h_trace st) ->
    body_result u st st' (Failed msg).

(** [main] after argument parsing: discovery, then the loop.  An
    exception raised by discovery is not caught. *)
Definition main (page_param : string -> option Z)
           (min_year : Z) (max_pages : option Z)
           (file : option (list string))
           (files : gmap string bytes)
           (storage : gmap (string * string) bytes)
           (table : gmap string payload) : result hstate :=
  match discover_english_pages urljoin page_param fetch min_year max_pages with
  | Raise msg => Raise msg
  | Ok english_pages =>
      Ok (harvest english_pages (initial file files storage table))
  end.

End WithWorld.





(** The state file holds the current set. *)
Definition persisted (st : hstate) : Prop :=
  h_state_file st = Some (sorted_set (h_processed st)).

End Harvest.

Module HarvestExamples.
Import Html Http Discover Harvest.

Definition issue_url : string := ARCHIVES_ROOT +:+ "/2020/may/english".
Definition pdf_link : string := "https://files.example.org/2020-05-Beacon-English.pdf".

Definition issue_page : page :=
  Page [Anchor "/about" "About";
        Anchor pdf_link " Click here to Download "]
       (Some "Hot Work Hazards - English").

(** The issue page is served and links to its PDF. *)
Definition fetch_issue (url : string) : result page :=
  if String.eqb url issue_url then Ok issue_page else Raise "404 Client Error".



Definition pdf_bytes : bytes := [Byte.x25; Byte.x50; Byte.x44; Byte.x46].

Definition get_ok (url : string) : result response :=
  Ok (Response 200 [pdf_bytes]).

Definition pdf_broken (data : bytes) : result (list (option string)) :=
  Raise "EOF marker not found".

Definition pdf_readable (data : bytes) : result (list (option string)) :=
  Ok [Some "Hot work permits"; None].

Definition upload_ok (bucket path : string) (data : bytes) : option string := None.
Definition upsert_ok (table : string) (row : payload) : option string := None.

Definition args_plain : args := Args "ccps_chaser_articles" "ccps-pdfs" false None.




Definition fresh : hstate := initial None ∅ ∅ ∅.

End HarvestExamples.

(** ** The harvest loop of tools/collecter_past.py *)

Module Backfill.
Import PyStr Html Http Discover.

(** What [session.get] followed by [raise_for_status] gives [fetch_html]. *)
Inductive fetched :=
  | Got (pg : page)
  | HttpError (status : Z)
  | OtherError (msg : string).

(** [fetch_html]: an HTTP error is logged and the empty document returned;
    any other exception propagates. *)
Definition fetch_html (got : fetched) : result page :=
  match got with
  | Got pg => Ok pg
  | HttpError _ => Ok empty_page
  | OtherError msg => Raise msg
  end.

(** [pdf_url.split("/")[-1]] *)
Fixpoint last_segment (s : string) : string :=
  match s with
  | EmptyString => EmptyString
  | String c s' =>
      if mem_char "/" s' then last_segment s'
      else if Ascii.eqb c "/" then s' else s
  end.

Definition is_safe (c : ascii) : bool :=
  in_range 65 90 c || in_range 97 122 c || in_range 48 57 c ||
  Ascii.eqb c "." || Ascii.eqb c "_" || Ascii.eqb c "-".

(** [r"[^A-Za-z0-9._-]+"] *)
Definition unsafe_run (rest : string) : option nat :=
  match span (fun c => negb (is_safe c)) rest with
  | (String _ _ as run, _) => Some (String.length run)
  | _ => None
  end.

(** [safe_filename_from_pdf_url] *)
Definition safe_filename_from_pdf_url (pdf_url : string) : string :=
  scan_sub unsafe_run "_" 0 (last_segment pdf_url).

(** The JSON sidecar written by [write_json]. *)
Record sidecar := Sidecar {
  meta_english_page_url : string; meta_pdf_url : string; sc_content : string }.

Record skip_entry := Skip {
  sk_page : string; sk_pdf_url : option string; sk_reason : string }.

Inductive op :=
  | FetchPage (url : string)
  | Download (pdf_url : string)
  | WriteJson (path : string) (sc : sidecar).

Record event := Ev { ev_page : string; ev_op : op }.

Record bstate := BState {
  b_processed : gset string;            (* the set [processed] of PDF URLs *)
  b_state_file : option (list string);  (* [processed_pdf_urls] as last saved by this run *)
  b_skipped_pages : list skip_entry;
  b_files : gmap string bytes;
  b_json : gmap string sidecar;
  b_trace : list event }.

Definition DOWNLOAD_DIR : string := "downloads/".

(** tools/collecter_past.py, [extract_pdf_text]: no exception is caught
    here. *)
Definition extract_pdf_text (parsed : result (list (option string)))
  : result string :=
  match parsed with
  | Ok pages => Ok (PdfText.join_lf ((fun p => default EmptyString p) <$> pages))
  | Raise e => Raise e
  end.

Section WithWorld.
Variable urljoin : string -> string -> string.
Variable get_page : string -> fetched.
(** [session.get(url, stream=True, timeout=60)] *)
Variable http_get : string -> result response.
Variable read_pdf : bytes -> result (list (option string)).

Definition add_event (ep : string) (o : op) (st : bstate) : bstate :=
  BState (b_processed st) (b_state_file st) (b_skipped_pages st)
         (b_files st) (b_json st) (b_trace st ++ [Ev ep o]).

Definition skip (item : skip_entry) (st : bstate) : bstate :=
  BState (b_processed st) (b_state_file st) (b_skipped_pages st ++ [item])
         (b_files st) (b_json st) (b_trace st).

Definition set_files (fs : gmap string bytes) (st : bstate) : bstate :=
  BState (b_processed st) (b_state_file st) (b_skipped_pages st)
         fs (b_json st) (b_trace st).

Definition write_json (path : string) (sc : sidecar) (st : bstate) : bstate :=
  BState (b_processed st) (b_state_file st) (b_skipped_pages st)
         (b_files st) (<[path := sc]> (b_json st)) (b_trace st).

Definition mark_processed (pdf_url : string) (st : bstate) : bstate :=
  let processed := {[pdf_url]} ∪ b_processed st in
  BState processed (Some (Harvest.sorted_set processed))
         (b_skipped_pages st) (b_files st) (b_json st) (b_trace st).

(** One iteration of [for idx, ep in enumerate(english_pages, start=1)];
    [Some msg] is an exception that nothing catches. *)
Definition step (ep : string) (st : bstate) : bstate * option string :=
  let st := add_event ep (FetchPage ep) st in
  match fetch_html (get_page ep) with
  | Raise _ =>
      (skip (Skip ep None "page_fetch_or_parse_failed") st, None)
  | Ok pg =>
      match Extract.extract_pdf_url_t urljoin pg ep with
      | None | Some EmptyString =>
          (skip (Skip ep None "no_pdf_link") st, None)
      | Some pdf_url =>
          if bool_decide (pdf_url ∈ b_processed st) then (st, None)
          else
            let pdf_name := safe_filename_from_pdf_url pdf_url in
            let pdf_path := DOWNLOAD_DIR +:+ pdf_name in
            let json_path :=
              DOWNLOAD_DIR +:+ replace ".pdf" ".json" pdf_name in
            let st := add_event ep (Download pdf_url) st in
            match download_file (http_get pdf_url) pdf_path (b_files st) with
            | Raise msg => (st, Some msg)
            | Ok (false, _) =>
                (skip (Skip ep (Some pdf_url) "pdf_not_found") st, None)
            | Ok (true, fs) =>
                let st := set_files fs st in
                match extract_pdf_text
                        (read_pdf (default [] (fs !! pdf_path))) with
                | Raise _ =>
                    (skip (Skip ep (Some pdf_url) "pdf_extract_failed") st,
                     None)
                | Ok text =>
                    let sc := Sidecar ep pdf_url text in
                    let st := add_event ep (WriteJson json_path sc) st in
                    let st := write_json json_path sc st in
                    (mark_processed pdf_url st, None)
                end
            end
      end
  end.

Fixpoint backfill (english_pages : list string) (st : bstate)
  : bstate * option string :=
  match english_pages with
  | [] => (st, None)
  | ep :: rest =>
      match step ep st with
      | (st', None) => backfill rest st'
      | (st', Some msg) => (st', Some msg)
      end
  end.

Definition initial (file : option (list string))
           (files : gmap string bytes) (json : gmap string sidecar)
  : bstate :=
  BState (Harvest.load_processed file) None [] files json [].

End WithWorld.

(** The state file holds the current set. *)
Definition persisted (st : bstate) : Prop :=
  b_state_file st = Some (Harvest.sorted_set (b_processed st)).

(** The run downloaded [pdf_url] and wrote its sidecar. *)
Definition written (st : bstate) (pdf_url : string) : Prop :=
  exists ep path text,
    Ev ep (Download pdf_url) ∈ b_trace st /\
    Ev ep (WriteJson path (Sidecar ep pdf_url text)) ∈ b_trace st.

End Backfill.

Module BackfillExamples.
Import Html Http Backfill.

Definition get_issue (url : string) : fetched :=
  if String.eqb url HarvestExamples.issue_url then Got HarvestExamples.issue_page
  else HttpError 404.

Definition fresh : bstate := initial None ∅ ∅.

End BackfillExamples.

(** ** The keyword-mapping pass (tools/apply_ccps_keyword_map.py) *)

Module KeywordMap.
Import PyStr.

(** Rows as the REST interface returns them. *)
Record article_row := ArticleRow {
  ar_id : Z; ar_source_page_url : option string }.
Record keyword_row := KeywordRow { kw_name : string; kw_id : Z }.

(** A row of the join table: [{"article_id": ..., "keyword_id": ...}]. *)
Record join_row := JoinRow { article_id : Z; keyword_id : Z }.

(** A [rest_post] to [ccps_article_keywords]. *)
Record join_post := JoinPost {
  jp_on_conflict : string; jp_payload : list join_row }.

(** What the pass prints before it returns. *)
Inductive report :=
  | DryRun                       (* "[DRY] skip DB writes" *)
  | NoJoinRows                   (* "[WARN] no join rows to insert" *)
  | Merged (joins missing_articles : Z).  (* "[OK] inserted/merged joins=... missing_articles=..." *)

Record run := Run { r_posts : list join_post; r_result : result report }.

Definition KEYWORD_BATCH : Z := 100.
Definition JOIN_BATCH : Z := 1000.
Definition ARTICLE_LIMIT : Z := 1000.
Definition JOIN_CONFLICT : string := "article_id,keyword_id".

(** Python truthiness of an [int] that may be missing:
    [if not article_id], [if not kid]. *)
Definition truthy (v : option Z) : option Z :=
  match v with
  | Some i => if i =? 0 then None else Some i
  | None => None
  end.

(** The inner loop [for k in issue2keywords.get(isu, [])]. *)
Fixpoint rows_for (name2id : gmap string Z) (article_id : Z)
         (keywords : list string) : list join_row :=
  match keywords with
  | [] => []
  | k :: rest =>
      match truthy (name2id !! k) with
      | None => rows_for name2id article_id rest
      | Some kid => JoinRow article_id kid :: rows_for name2id article_id rest
      end
  end.

(** The loop [for isu in issues] that fills [join_rows] and counts
    [missing_articles]. *)
Fixpoint build_join_rows (issue2keywords : gmap string (list string))
         (url2id name2id : gmap string Z) (issues : list string)
         (join_rows : list join_row) (missing_articles : Z)
  : list join_row * Z :=
  match issues with
  | [] => (join_rows, missing_articles)
  | isu :: rest =>
      let isu_norm := rstrip_slash isu in
      match truthy (url2id !! isu_norm) with
      | None =>
          build_join_rows issue2keywords url2id name2id rest
                          join_rows (missing_articles + 1)
      | Some article_id =>
          build_join_rows issue2keywords url2id name2id rest
            (join_rows ++
             rows_for name2id article_id (default [] (issue2keywords !! isu)))
            missing_articles
      end
  end.

(** [for r in rows: u = (r.get("source_page_url") or "").rstrip("/");
    if u: out[u] = int(r["id"])] *)
Definition add_articles (rows : list article_row) (out : gmap string Z)
  : gmap string Z :=
  foldl (fun out r =>
           match rstrip_slash (default EmptyString (ar_source_page_url r)) with
           | EmptyString => out
           | u => <[u := ar_id r]> out
           end) out rows.

Definition add_keywords (rows : list keyword_row) (name2id : gmap string Z)
  : gmap string Z :=
  foldl (fun m r => <[kw_name r := kw_id r]> m) name2id rows.

Section WithServer.
(** [rest_post] of the keyword names; [Some msg] when it raises. *)
Variable post_keywords : list string -> option string.
(** [rest_get] on [ccps_keywords] with [name=in.(batch)]. *)
Variable get_keywords : list string -> result (list keyword_row).
(** [rest_get] on [ccps_chaser_articles] with [limit] and [offset]. *)
Variable get_articles : Z -> Z -> result (list article_row).
(** [rest_post] of one batch of join rows; [Some msg] when it raises. *)
Variable post_joins : join_post -> option string.

(** The [while True] loop of [load_all_articles]; [None] when [fuel]
    requests were not enough to reach an empty page. *)
Fixpoint load_all_articles (fuel : nat) (offset : Z) (out : gmap string Z)
  : option (result (gmap string Z)) :=
  match fuel with
  | O => None
  | S fuel' =>
      match get_articles ARTICLE_LIMIT offset with
      | Raise msg => Some (Raise msg)
      | Ok [] => Some (Ok out)
      | Ok rows =>
          load_all_articles fuel' (offset + ARTICLE_LIMIT)
                            (add_articles rows out)
      end
  end.

(** The loop [for batch in chunked(keyword_names, 100)]. *)
Fixpoint load_name2id (batches : list (list string))
         (name2id : gmap string Z) : result (gmap string Z) :=
  match batches with
  | [] => Ok name2id
  | batch :: rest =>
      match get_keywords batch with
      | Raise msg => Raise msg
      | Ok rows => load_name2id rest (add_keywords rows name2id)
      end
  end.

(** The loop [for batch in chunked(join_rows, 1000)]: the posts made,
    and the exception that stopped them if any. *)
Fixpoint post_batches (batches : list (list join_row))
  : list join_post * option string :=
  match batches with
  | [] => ([], None)
  | batch :: rest =>
      let p := JoinPost JOIN_CONFLICT batch in
      match post_joins p with
      | Some msg => ([p], Some msg)
      | None => let '(ps, e) := post_batches rest in (p :: ps, e)
      end
  end.

Definition issues_of (issue2keywords : gmap string (list string))
           (limit_issues : Z) : list string :=
  let issues := Harvest.sorted_set (dom issue2keywords) in
  if 0 <? limit_issues then Py.slice issues 0 limit_issues else issues.

Definition keyword_names_of (issue2keywords : gmap string (list string))
           (issues : list string) : list string :=
  Harvest.sorted_set
    (list_to_set (issues ≫= fun isu => default [] (issue2keywords !! isu))).

(** [main] once the map file has been read; [None] when [fuel] requests
    did not finish the article listing. *)
Definition main (fuel : nat) (issue2keywords : gmap string (list string))
           (dry_run : bool) (limit_issues : Z) : option run :=
  if bool_decide (issue2keywords = ∅)
  then Some (Run [] (Raise "No issue2keywords"))
  else
    let issues := issues_of issue2keywords limit_issues in
    let keyword_names := keyword_names_of issue2keywords issues in
    if dry_run then Some (Run [] (Ok DryRun))
    else
      match post_keywords keyword_names with
      | Some msg => Some (Run [] (Raise msg))
      | None =>
          match Chunk.chunked keyword_names KEYWORD_BATCH with
          | None => Some (Run [] (Raise "ValueError"))
          | Some batches =>
              match load_name2id batches ∅ with
              | Raise msg => Some (Run [] (Raise msg))
              | Ok name2id =>
                  match load_all_articles fuel 0 ∅ with
                  | None => None
                  | Some (Raise msg) => Some (Run [] (Raise msg))
                  | Some (Ok url2id) =>
                      let '(join_rows, missing_articles) :=
                        build_join_rows issue2keywords url2id name2id
                                        issues [] 0 in
                      match join_rows with
                      | [] => Some (Run [] (Ok NoJoinRows))
                      | _ =>
                          match Chunk.chunked join_rows JOIN_BATCH with
                          | None => Some (Run [] (Raise "ValueError"))
                          | Some jb =>
                              let '(posts, e) := post_batches jb in
                              Some (Run posts
                                (match e with
                                 | Some msg => Raise msg
                                 | None =>
                                     Ok (Merged
                                           (Z.of_nat (length join_rows))
                                           missing_articles)
                                 end))
                          end
                      end
                  end
              end
          end
      end.

(** The pairs the pass is meant to link, in the words of its
    description: every keyword of every issue, where the issue resolves
    to an article id and the keyword to a keyword id. *)
Definition resolvable_pairs (issue2keywords : gmap string (list string))
           (url2id name2id : gmap string Z) (issues : list string)
  : list join_row :=
  issues ≫= fun isu =>
    match url2id !! rstrip_slash isu with
    | None => []
    | Some article_id =>
        default [] (issue2keywords !! isu) ≫= fun k =>
          match name2id !! k with
          | None => []
          | Some kid => [JoinRow article_id kid]
          end
    end.

Definition unresolved (url2id : gmap string Z) (isu : string) : bool :=
  bool_decide (url2id !! rstrip_slash isu = None).

End WithServer.

(** A server that answers the article listing from a table: the rows from
    [offset] on, at most [limit] of them. *)
Definition table_page (rows : list article_row) (limit offset : Z)
  : result (list article_row) :=
  Ok (Py.slice rows offset (offset + limit)).

(** A server that answers a keyword query from a table: the rows whose
    name is in the batch. *)
Definition keyword_page (rows : list keyword_row) (batch : list string)
  : result (list keyword_row) :=
  Ok (List.filter (fun r => bool_decide (kw_name r ∈ batch)) rows).

Definition accept_keywords (names : list string) : option string := None.
Definition accept_joins (p : join_post) : option string := None.

(** Ids as a database hands them out: never zero. *)
Definition ids_nonzero (m : gmap string Z) : Prop :=
  forall k i, m !! k = Some i -> i <> 0.

End KeywordMap.

Module KeywordExamples.
Import KeywordMap.

Definition issue_a : string := "https://ccps.aiche.org/resources/process-safety-beacon/archives/2020/may/english/".
Definition issue_b : string := "https://ccps.aiche.org/resources/process-safety-beacon/archives/2021/june/english".

Definition map_ab : gmap string (list string) :=
  {[ issue_a := ["hot work"; "permits"]; issue_b := ["permits"; "unknown"] ]}.

Definition keywords_db : list keyword_row :=
  [KeywordRow "hot work" 7; KeywordRow "permits" 9].

(** Only the first issue has been harvested. *)
Definition articles_db : list article_row :=
  [ArticleRow 41 (Some "https://ccps.aiche.org/resources/process-safety-beacon/archives/2020/may/english");
   ArticleRow 42 None].

End KeywordExamples.

(** ** Decimal digits *)

Module Decimal.

(** The character of the digit [r], for [r] from 0 to 9. *)
Definition digit_char (r : Z) : ascii := ascii_of_N (48 + Z.to_N r).

End Decimal.

(** ** Indexing a Python list *)

Module PySeq.

(** [lst[i]]: a negative index counts from the end; [None] stands for the
    [IndexError]. *)
Definition index {A} (lst : list A) (i : Z) : option A :=
  let len := Z.of_nat (length lst) in
  if i <? 0 then (if i + len <? 0 then None else lst !! Z.to_nat (i + len))
  else lst !! Z.to_nat i.

End PySeq.

(** ** tools/prep_ccps_supabase_csv.py: [month_name] and [derive_title] *)

Module Prep.
Import PyStr Discover PdfText.

Definition MONTHS : list string :=
  ["January"; "February"; "March"; "April"; "May"; "June";
   "July"; "August"; "September"; "October"; "November"; "December"].

(** [MONTHS[mm - 1] if 1 <= mm <= 12 else f"{mm:02d}"]; inside the guard
    the index is always in range. *)
Definition month_name (mm : Z) : string :=
  if (1 <=? mm) && (mm <=? 12)
  then default EmptyString (PySeq.index MONTHS (mm - 1))
  else fmt_02d mm.

(** [re.match(r"(?P<y>\d{4})-(?P<m>\d{2})", stem)]: the two groups. *)
Definition match_year_month (stem : string) : option (string * string) :=
  let y := take_str 4 stem in
  if (String.length y =? 4)%nat && all_chars is_digit y then
    match drop_str 4 stem with
    | String "-" r =>
        let m := take_str 2 r in
        if (String.length m =? 2)%nat && all_chars is_digit m
        then Some (y, m) else None
    | _ => None
    end
  else None.

(** [derive_title(path, obj)] with [stem = path.stem]; [title] is
    [obj["title"]] when [obj] is a dict that holds a [str] under that key,
    and [None] otherwise. *)
Definition derive_title (stem : string) (title : option string) : string :=
  match strip (default EmptyString title) with
  | String _ _ as t => t
  | EmptyString =>
      match match_year_month stem with
      | Some (y, m) =>
          "Process Safety Beacon (English) - " +:+
          month_name (int_digits 0 m) +:+ " " +:+
          str_of_Z (int_digits 0 y) +:+ " [" +:+ stem +:+ "]"
      | None => stem
      end
  end.

End Prep.

(** ** tools/collecter_past.py: the month-by-month pass *)

Module PastArticles.
Import PyStr Html Http Discover Backfill.

Definition ARCHIVES_ROOT : string :=
  "https://ccps.aiche.org/resources/process-safety-beacon/archives/".

Definition month_names : list string :=
  ["january"; "february"; "march"; "april"; "may"; "june";
   "july"; "august"; "september"; "october"; "november"; "december"].

(** [month_to_name]: [month_names[month - 1]], with the [IndexError] of an
    index out of range as [None]. *)
Definition month_to_name (month : Z) : option string :=
  PySeq.index month_names (month - 1).

(** [f"{ARCHIVES_ROOT}{year}/{month_name}/english"] *)
Definition article_url (year : Z) (month_name : string) : string :=
  ARCHIVES_ROOT +:+ str_of_Z year +:+ "/" +:+ month_name +:+ "/english".

(** The [while] loop of [process_past_articles] around the body that is
    run for each month; [None] when [fuel] iterations were not enough,
    [Some msg] in the result when the body raised. *)
Fixpoint month_loop {St} (body : Z -> Z -> St -> St * option string)
         (fuel : nat) (current_year current_month end_year end_month : Z)
         (st : St) : option (St * option string) :=
  match fuel with
  | O => None
  | S fuel' =>
      if (current_year <? end_year) ||
         ((current_year =? end_year) && (current_month <=? end_month))
      then
        match body current_year current_month st with
        | (st', Some msg) => Some (st', Some msg)
        | (st', None) =>
            if current_month =? 12
            then month_loop body fuel' (current_year + 1) 1
                            end_year end_month st'
            else month_loop body fuel' current_year (current_month + 1)
                            end_year end_month st'
        end
      else Some (st, None)
  end.

Section WithWorld.
Variable urljoin : string -> string -> string.
Variable get_page : string -> fetched.
Variable http_get : string -> result response.
Variable read_pdf : bytes -> result (list (option string)).

(** [process_article] (the second definition of the file, which replaces
    the first): no exception is caught here. *)
Definition process_article (year month : Z) (st : bstate)
  : bstate * option string :=
  match month_to_name month with
  | None => (st, Some "IndexError")
  | Some month_name =>
      let url := article_url year month_name in
      let st := add_event url (FetchPage url) st in
      match fetch_html (get_page url) with
      | Raise msg => (st, Some msg)
      | Ok pg =>
          match Extract.extract_pdf_url_t urljoin pg url with
          | None | Some EmptyString => (st, None)
          | Some pdf_url =>
              let pdf_name := safe_filename_from_pdf_url pdf_url in
              let pdf_path := DOWNLOAD_DIR +:+ pdf_name in
              let json_path :=
                DOWNLOAD_DIR +:+ replace ".pdf" ".json" pdf_name in
              let st := add_event url (Download pdf_url) st in
              match download_file (http_get pdf_url) pdf_path (b_files st) with
              | Raise msg => (st, Some msg)
              | Ok (false, _) => (st, None)
              | Ok (true, fs) =>
                  let st := set_files fs st in
                  match extract_pdf_text
                          (read_pdf (default [] (fs !! pdf_path))) with
                  | Raise msg => (st, Some msg)
                  | Ok text =>
                      let sc := Sidecar url pdf_url text in
                      let st := add_event url (WriteJson json_path sc) st in
                      (write_json json_path sc st, None)
                  end
              end
          end
      end
  end.

(** [process_past_articles(start_year, start_month, end_year, end_month)] *)
Definition process_past_articles (fuel : nat)
           (start_year start_month end_year end_month : Z) (st : bstate)
  : option (bstate * option string) :=
  month_loop process_article fuel start_year start_month end_year end_month st.

End WithWorld.

(** The months from [(sy, sm)] to [(ey, em)] in calendar order. *)
Definition month_range (sy sm ey em : Z) : list (Z * Z) :=
  (fun k : nat =>
     let i := 12 * sy + (sm - 1) + Z.of_nat k in (i / 12, i mod 12 + 1))
    <$> seq 0 (Z.to_nat (12 * (ey - sy) + em - sm + 1)).

(** A body run for each month of a list in turn, up to the first one that
    raises. *)
Fixpoint run_months {St} (body : Z -> Z -> St -> St * option string)
         (months : list (Z * Z)) (st : St) : St * option string :=
  match months with
  | [] => (st, None)
  | (y, m) :: rest =>
      match body y m st with
      | (st', None) => run_months body rest st'
      | (st', Some msg) => (st', Some msg)
      end
  end.

End PastArticles.

(** ** The issue and year patterns of tools/collecter_past.py and
    tools/fetch_ccps_keyword_map.py *)

Module IssuePattern.
Import PyStr Discover.

Definition ARCHIVES_PATH : string :=
  "/resources/process-safety-beacon/archives/".

(** The end of both patterns, [/?$]. *)
Definition slash_end (s : string) : bool :=
  at_end s || match s with String "/" s' => at_end s' | _ => false end.

Definition not_slash (c : ascii) : bool := negb (Ascii.eqb c "/").

(** [r"/resources/process-safety-beacon/archives/\d{4}/[^/]+/english/?$"]
    matched at the head of [s]. *)
Definition match_issue_here (s : string) : bool :=
  if startswith s ARCHIVES_PATH then
    let r := drop_str (String.length ARCHIVES_PATH) s in
    let yyyy := take_str 4 r in
    if (String.length yyyy =? 4)%nat && all_chars is_digit yyyy then
      match drop_str 4 r with
      | String "/" r1 =>
          let '(seg, r2) := span not_slash r1 in
          match seg with
          | EmptyString => false
          | _ => startswith r2 "/english" && slash_end (drop_str 8 r2)
          end
      | _ => false
      end
    else false
  else false.

(** [r"/resources/process-safety-beacon/archives/\d{4}/?$"] matched at the
    head of [s]. *)
Definition match_year_here (s : string) : bool :=
  if startswith s ARCHIVES_PATH then
    let r := drop_str (String.length ARCHIVES_PATH) s in
    let yyyy := take_str 4 r in
    (String.length yyyy =? 4)%nat && all_chars is_digit yyyy &&
    slash_end (drop_str 4 r)
  else false.

(** [re.search(...)] as a truth value: the pattern matches somewhere. *)
Fixpoint search (here : string -> bool) (s : string) : bool :=
  here s ||
  match s with
  | EmptyString => false
  | String _ s' => search here s'
  end.

Definition search_issue : string -> bool := search match_issue_here.
Definition search_year : string -> bool := search match_year_here.

End IssuePattern.

(** ** Discovery in tools/collecter_past.py *)

Module ToolsDiscover.
Import PyStr Html Backfill IssuePattern.

Section WithWeb.
Variable urljoin : string -> string -> string.
Variable get_page : string -> fetched.

(** The links of a page, joined to [base], that a pattern accepts, each
    without its trailing slashes. *)
Definition links_of (base : string) (accepts : string -> bool) (pg : page)
  : gset string :=
  list_to_set
    (omap (fun a =>
             let full := urljoin base (a_href a) in
             if accepts full then Some (rstrip_slash full) else None)
          (pg_anchors pg)).

(** The loop [for yp in sorted(year_pages)]: a year page whose fetch
    raises is passed over. *)
Definition year_loop (year_pages : list string) (pages : gset string)
  : gset string :=
  foldl (fun pages yp =>
           match fetch_html (get_page yp) with
           | Raise _ => pages
           | Ok ypg => pages ∪ links_of (yp +:+ "/") search_issue ypg
           end) pages year_pages.

(** [discover_english_pages] *)
Definition discover_english_pages : result (list string) :=
  match fetch_html (get_page PastArticles.ARCHIVES_ROOT) with
  | Raise msg => Raise msg
  | Ok pg =>
      let pages := links_of PastArticles.ARCHIVES_ROOT search_issue pg in
      let year_pages := links_of PastArticles.ARCHIVES_ROOT search_year pg in
      Ok (Harvest.sorted_set
            (year_loop (Harvest.sorted_set year_pages) pages))
  end.

End WithWeb.

End ToolsDiscover.

(** ** tools/fetch_ccps_keyword_map.py *)

Module KeywordFetch.
Import PyStr Discover IssuePattern.

Definition ARCHIVES_URL : string :=
  "https://ccps.aiche.org/resources/process-safety-beacon/archives".
Definition ENGLISH_LANGUAGE_ID : string := "9306".

(** An anchor with [href] as this script reads it: the attribute and
    [a.get_text(" ", strip=True)]. *)
Record link := Link { l_href : string; l_text : string }.

(** A parsed page: its links in document order, and whether
    [select_one('a[rel="next"]')] and [select_one(".pager__item--next a")]
    find an element. *)
Record kpage := KPage {
  kp_links : list link; kp_rel_next : bool; kp_pager_next : bool }.

(** [dict[k] = v] on the items of a dict, in insertion order. *)
Fixpoint dict_set {V} (k : string) (v : V) (d : list (string * V))
  : list (string * V) :=
  match d with
  | [] => [(k, v)]
  | (k', v') :: rest =>
      if String.eqb k k' then (k, v) :: rest else (k', v') :: dict_set k v rest
  end.

(** [keyword_map.get(kid, f"keyword_{kid}")] *)
Definition keyword_name (keyword_map : gmap string string) (kid : string)
  : string :=
  default ("keyword_" +:+ kid) (keyword_map !! kid).

(** [issue2keywords[isu].add(kname)] on a [defaultdict(set)] *)
Definition add_keyword (kname : string) (acc : gmap string (gset string))
           (isu : string) : gmap string (gset string) :=
  <[isu := default ∅ (acc !! isu) ∪ {[kname]}]> acc.

(** The two nested loops of [invert_to_issue_keywords]. *)
Definition invert_sets (keyword_map : gmap string string)
           (kid2issues : list (string * gset string))
  : gmap string (gset string) :=
  foldl (fun acc item =>
           foldl (add_keyword (keyword_name keyword_map item.1)) acc
                 (elements item.2))
        ∅ kid2issues.

(** [invert_to_issue_keywords]; [kid2issues] is given by its items. *)
Definition invert_to_issue_keywords (keyword_map : gmap string string)
           (kid2issues : list (string * gset string))
  : gmap string (list string) :=
  Harvest.sorted_set <$> invert_sets keyword_map kid2issues.

Section WithWeb.
Variable urljoin : string -> string -> string.
(** [fetch(url, session)] *)
Variable fetch : string -> result kpage.

(** [href if href.startswith("http") else urljoin(ARCHIVES_URL, href)] *)
Definition full_url (href : string) : string :=
  if startswith href "http" then href else urljoin ARCHIVES_URL href.

(** [extract_issue_english_urls] *)
Definition extract_issue_english_urls (pg : kpage) : gset string :=
  list_to_set
    (omap (fun a =>
             let full := full_url (l_href a) in
             if search_issue full then Some (rstrip_slash full) else None)
          (kp_links pg)).

(** [has_next_page] *)
Definition has_next_page (pg : kpage) : bool :=
  kp_rel_next pg || kp_pager_next pg ||
  existsb (fun a => String.eqb (lower (l_text a)) "next") (kp_links pg).

(** [f"{ARCHIVES_URL}?keywords={kid}&language={ENGLISH_LANGUAGE_ID}&page={page}"] *)
Definition keyword_url (kid : string) (page : Z) : string :=
  ARCHIVES_URL +:+ "?keywords=" +:+ kid +:+ "&language=" +:+
  ENGLISH_LANGUAGE_ID +:+ "&page=" +:+ str_of_Z page.

(** The [while True] loop of [build_keyword_to_issues] for one keyword:
    the issues found (or the exception of a fetch) and the URLs requested,
    in order; [None] when [fuel] iterations were not enough. *)
Fixpoint keyword_pages (fuel : nat) (kid : string) (page : Z)
         (issues : gset string) (requested : list string)
  : option (result (gset string) * list string) :=
  match fuel with
  | O => None
  | S fuel' =>
      let url := keyword_url kid page in
      let requested := requested ++ [url] in
      match fetch url with
      | Raise msg => Some (Raise msg, requested)
      | Ok html =>
          let issues := issues ∪ extract_issue_english_urls html in
          if negb (has_next_page html) then Some (Ok issues, requested)
          else
            let page := page + 1 in
            if 50 <? page then Some (Ok issues, requested)
            else keyword_pages fuel' kid page issues requested
      end
  end.

(** [build_keyword_to_issues]: the items of [kid2issues] and all the URLs
    requested. *)
Fixpoint build_keyword_to_issues (fuel : nat) (keyword_ids : list string)
         (kid2issues : list (string * gset string)) (requested : list string)
  : option (result (list (string * gset string)) * list string) :=
  match keyword_ids with
  | [] => Some (Ok kid2issues, requested)
  | kid :: rest =>
      match keyword_pages fuel kid 0 ∅ [] with
      | None => None
      | Some (Raise msg, urls) => Some (Raise msg, requested ++ urls)
      | Some (Ok issues, urls) =>
          build_keyword_to_issues fuel rest (dict_set kid issues kid2issues)
                                  (requested ++ urls)
      end
  end.

End WithWeb.

End KeywordFetch.

Section ChunkFacts.
Import Chunk.
Context {A : Type}.
Implicit Types (lst : list A) (m cnt k : nat).

Lemma slice_window lst m k :
    (k * m < length lst)%nat ->
    Py.slice lst (Z.of_nat (k * m)) (Z.of_nat (k * m) + Z.of_nat m) =
    take m (drop (k * m) lst).
  Proof.
    intros Hk. unfold Py.slice, Py.slice_bound.
    destruct (Z.ltb_spec (Z.of_nat (k * m)) 0) as [?|_]; [lia|].
    destruct (Z.ltb_spec (Z.of_nat (k * m) + Z.of_nat m) 0) as [?|_]; [lia|].
    rewrite (Z.min_l (Z.of_nat (k * m))) by lia.
    rewrite Nat2Z.id.
    destruct (Z.min_spec (Z.of_nat (k * m) + Z.of_nat m) (Z.of_nat (length lst)))
      as [[Hlt ->]|[Hge ->]].
    - f_equal. lia.
    - rewrite !take_ge; [done| |]; rewrite length_drop; lia.
  Qed.

Lemma chunked_windows lst m :
    (0 < m)%nat ->
    chunked lst (Z.of_nat m) = Some (windows lst m (chunk_count (length lst) m)).
  Proof.
    intros Hm. unfold chunked, Py.range.
    destruct (Z.eqb_spec (Z.of_nat m) 0) as [?|_]; [lia|].
    destruct (Z.ltb_spec 0 (Z.of_nat m)) as [_|?]; [|lia].
    f_equal. unfold windows.
    assert (Hcnt : Z.to_nat
              (if 0 <? Z.of_nat (length lst)
               then (Z.of_nat (length lst) - 0 - 1) / Z.of_nat m + 1 else 0)
            = chunk_count (length lst) m).
    { unfold chunk_count. destruct (length lst) as [|l]; [done|].
      destruct (Z.ltb_spec 0 (Z.of_nat (S l))) as [_|?]; [|lia].
      replace (Z.of_nat (S l) - 0 - 1) with (Z.of_nat l) by lia.
      rewrite <- Nat2Z.inj_div. lia. }
    rewrite Hcnt, <- list_fmap_compose.
    apply list_fmap_ext. intros i k Hkin. simpl.
    apply lookup_seq in Hkin as [Hk Hkin]. simpl in Hk. subst i.
    assert (Hlt : (k * m < length lst)%nat).
    { unfold chunk_count in Hkin. destruct (length lst) as [|l]; [lia|].
      assert (k <= l / m)%nat by lia.
      pose proof (Nat.Div0.mul_div_le l m).
      assert (k * m <= m * (l / m))%nat by nia. lia. }
    rewrite <- Nat2Z.inj_mul, <- slice_window by done.
    do 2 f_equal; lia.
  Qed.

Lemma windows_concat lst m cnt :
    concat (windows lst m cnt) = take (cnt * m) lst.
  Proof.
    unfold windows. induction cnt as [|c IH]; [done|].
    rewrite seq_S, fmap_app, concat_app, IH. simpl.
    rewrite app_nil_r, take_take_drop. f_equal. lia.
  Qed.

Lemma chunk_count_covers len m :
    (0 < m)%nat -> (len <= chunk_count len m * m)%nat.
  Proof.
    intros Hm. unfold chunk_count. destruct len as [|l]; [lia|].
    pose proof (Nat.div_mod_eq l m). pose proof (Nat.mod_upper_bound l m).
    nia.
  Qed.

Lemma chunk_count_tight len m k :
    (0 < m)%nat -> (k < chunk_count len m)%nat -> (k * m < len)%nat.
  Proof.
    intros Hm. unfold chunk_count. destruct len as [|l]; [lia|].
    intros Hk. pose proof (Nat.Div0.mul_div_le l m). nia.
  Qed.

Lemma windows_lookup lst m cnt i c :
    windows lst m cnt !! i = Some c ->
    (i < cnt)%nat /\ c = take m (drop (i * m) lst).
  Proof.
    unfold windows. rewrite list_lookup_fmap.
    destruct (seq 0 cnt !! i) as [k|] eqn:Hk; [|done].
    apply lookup_seq in Hk as [-> ?]. simpl. intros [= <-]. done.
  Qed.

Lemma windows_length lst m cnt : length (windows lst m cnt) = cnt.
  Proof. unfold windows. by rewrite length_fmap, length_seq. Qed.

End ChunkFacts.

(** C9: for a positive chunk size, [chunked] returns chunks whose
    concatenation is the input list, all chunks are non-empty, every chunk
    but the last has exactly [n] elements and the last has at most [n]. *)
Theorem chunked_partition {A} (lst : list A) (n : Z) :
  0 < n ->
  exists cs,
    Chunk.chunked lst n = Some cs /\
    concat cs = lst /\
    Forall (fun c => c <> []) cs /\
    (forall i c, cs !! i = Some c -> (S i < length cs)%nat ->
                 Z.of_nat (length c) = n) /\
    (forall c, last cs = Some c -> Z.of_nat (length c) <= n).
Proof.
  intros Hn.
  set (m := Z.to_nat n). assert (Hm : (0 < m)%nat) by lia.
  replace n with (Z.of_nat m) by lia.
  eexists. split; [by apply chunked_windows|].
  set (cnt := Chunk.chunk_count (length lst) m).
  split; [|split; [|split]].
  - rewrite windows_concat. apply take_ge.
    by apply chunk_count_covers.
  - apply Forall_lookup_2. intros i c Hc.
    apply windows_lookup in Hc as [Hi ->].
    apply (chunk_count_tight _ m) in Hi; [|done].
    intros Hnil. apply (f_equal length) in Hnil.
    rewrite length_take, length_drop in Hnil. simpl in Hnil. lia.
  - intros i c Hc Hlast. rewrite windows_length in Hlast.
    apply windows_lookup in Hc as [_ ->].
    apply (chunk_count_tight _ m) in Hlast; [|done].
    rewrite length_take, length_drop. lia.
  - intros c Hc. rewrite last_lookup in Hc.
    apply windows_lookup in Hc as [_ ->].
    rewrite length_take. lia.
Qed.

Lemma chunked_partition_witness :
  exists cs,
    Chunk.chunked [1; 2; 3; 4; 5; 6; 7]%nat 3 = Some cs /\
    concat cs = [1; 2; 3; 4; 5; 6; 7]%nat /\
    Forall (fun c => c <> []) cs /\
    (forall i c, cs !! i = Some c -> (S i < length cs)%nat ->
                 Z.of_nat (length c) = 3) /\
    (forall c, last cs = Some c -> Z.of_nat (length c) <= 3).
Proof. apply (chunked_partition [1; 2; 3; 4; 5; 6; 7]%nat 3). lia. Defined.

(** ** Facts about strings *)

Section StrFacts.
Import PyStr.
Implicit Types (s t p : string) (c : ascii).

Lemma append_empty_l s : EmptyString +:+ s = s.
  Proof. reflexivity. Qed.

Lemma append_cons c s t : String c s +:+ t = String c (s +:+ t).
  Proof. reflexivity. Qed.

Lemma append_empty_r s : s +:+ EmptyString = s.
  Proof. induction s as [|c s IH]; [done|]. by rewrite append_cons, IH. Qed.

Lemma append_assoc s t p : (s +:+ t) +:+ p = s +:+ (t +:+ p).
  Proof. induction s as [|c s IH]; [done|]. by rewrite !append_cons, IH. Qed.

Lemma mem_char_append c s t :
    mem_char c (s +:+ t) = mem_char c s || mem_char c t.
  Proof.
    induction s as [|d s IH]; [done|].
    rewrite append_cons. simpl. rewrite IH. by rewrite orb_assoc.
  Qed.

Lemma startswith_spec t p :
    startswith t p = true <-> exists b, t = p +:+ b.
  Proof.
    revert t. induction p as [|a p IH]; intros t.
    - split; [intros _; by exists t|done].
    - destruct t as [|c t]; cbn [startswith].
      + split; [done|]. by intros [b Hb].
      + rewrite andb_true_iff, IH, Ascii.eqb_eq. split.
        * intros [-> [b ->]]. by exists b.
        * intros [b Hb]. rewrite append_cons in Hb.
          injection Hb as -> ->. eauto.
  Qed.





End StrFacts.

(** ** Facts about [clean_text] *)

Example clean_text_ex1 :
  CleanText.clean_text
    (String "a" (String CleanText.CR (String CleanText.LF
      (String "b" (String CleanText.CR (String CleanText.NUL
        (String "001" (String CleanText.TAB "c\U0000d")))))))) =
  String "a" (String CleanText.LF (String "b" (String CleanText.LF
    (String " " (String CleanText.TAB "cd"))))).
Proof. vm_compute. reflexivity. Qed.

Section CleanTextFacts.
Import PyStr CleanText.

(** A scan only ever emits characters of the input or of the replacement. *)
Lemma scan_sub_chars m new c (s : string) : forall skip,
    mem_char c (scan_sub m new skip s) = true ->
    mem_char c new = true \/ mem_char c s = true.
  Proof.
    induction s as [|d s IH]; intros skip; simpl; [by auto|].
    destruct skip as [|k].
    - destruct (m (String d s)) as [n|].
      + rewrite mem_char_append. intros [H|H]%orb_true_iff; [by left|].
        apply IH in H as [H|H]; [by left|right]. by rewrite H, orb_true_r.
      + simpl. intros [H|H]%orb_true_iff; [right; by rewrite H|].
        apply IH in H as [H|H]; [by left|right]. by rewrite H, orb_true_r.
    - intros H. apply IH in H as [H|H]; [by left|right].
      by rewrite H, orb_true_r.
  Qed.

(** After a one-character class has been replaced, no character of the
    class is left, provided the replacement has none. *)
Lemma scan_class_clears p new c (s : string) :
    (forall d, mem_char d new = true -> p d = false) ->
    mem_char c (scan_sub (char_class p) new 0 s) = true -> p c = false.
  Proof.
    intros Hnew. induction s as [|d s IH]; simpl; [done|].
    destruct (p d) eqn:Hd; simpl.
    - rewrite mem_char_append. intros [H|H]%orb_true_iff; auto.
    - intros [H|H]%orb_true_iff; auto.
      apply Ascii.eqb_eq in H. by subst.
  Qed.

(** No control character of [CONTROL_RE], and so no NUL, survives. *)
Lemma clean_text_no_control (s : string) (c : ascii) :
    mem_char c (clean_text s) = true -> is_control c = false.
  Proof.
    unfold clean_text. apply scan_class_clears.
    intros d. simpl. rewrite orb_false_r. intros ->%Ascii.eqb_eq. done.
  Qed.

Lemma clean_text_no_NUL (s : string) : mem_char NUL (clean_text s) = false.
  Proof.
    destruct (mem_char NUL (clean_text s)) eqn:H; [|done].
    by apply clean_text_no_control in H.
  Qed.

(** Unfolding [replace] for the two newline literals. *)
Lemma replace_crlf_cons c (s : string) :
    replace s_CRLF s_LF (String c s) =
    if Ascii.eqb c CR then
      match s with
      | String d s' =>
          if Ascii.eqb d LF then String LF (replace s_CRLF s_LF s')
          else String c (replace s_CRLF s_LF s)
      | EmptyString => String c EmptyString
      end
    else String c (replace s_CRLF s_LF s).
  Proof.
    unfold replace, lit, s_CRLF. cbn [scan_sub startswith].
    rewrite (Ascii.eqb_sym CR c).
    destruct (Ascii.eqb c CR); [|done].
    destruct s as [|d s']; [done|].
    cbn [startswith andb]. rewrite (Ascii.eqb_sym LF d).
    destruct (Ascii.eqb d LF); [|done].
    simpl. by destruct s'.
  Qed.

Lemma replace_char_cons a new c (s : string) :
    replace (String a EmptyString) new (String c s) =
    if Ascii.eqb a c then new +:+ replace (String a EmptyString) new s
    else String c (replace (String a EmptyString) new s).
  Proof.
    unfold replace, lit. simpl.
    destruct (Ascii.eqb a c); [|done]. by destruct s.
  Qed.

Lemma marks_crlf_pass (s : string) :
    marks_mid (replace s_CRLF s_LF s) = marks_in s /\
    forall c, marks_mid (replace s_CRLF s_LF (String c s)) = marks_in (String c s).
  Proof.
    induction s as [|d s [IH1 IH2]].
    - split; [done|]. intros c. rewrite replace_crlf_cons. simpl.
      destruct (Ascii.eqb c CR) eqn:Hc; simpl; rewrite ?Hc; [done|].
      by destruct (Ascii.eqb c LF), (Ascii.eqb c TAB).
    - split; [apply IH2|]. intros c. rewrite replace_crlf_cons.
      assert (Hin : marks_in (String c (String d s)) =
                    if Ascii.eqb c CR then
                      if Ascii.eqb d LF then Break :: marks_in s
                      else Break :: marks_in (String d s)
                    else if Ascii.eqb c LF then Break :: marks_in (String d s)
                    else if Ascii.eqb c TAB then Tab :: marks_in (String d s)
                    else marks_in (String d s)) by reflexivity.
      rewrite Hin. clear Hin.
      destruct (Ascii.eqb c CR) eqn:Hc.
      + destruct (Ascii.eqb d LF) eqn:Hd; cbn [marks_mid].
        * by rewrite IH1.
        * by rewrite Hc, IH2.
      + cbn [marks_mid]. rewrite Hc, IH2. done.
  Qed.

Lemma marks_cr_pass (s : string) :
    marks_out (replace s_CR s_LF s) = marks_mid s /\
    mem_char CR (replace s_CR s_LF s) = false.
  Proof.
    unfold s_CR, s_LF.
    induction s as [|d s [IH1 IH2]]; [done|].
    rewrite replace_char_cons.
    destruct (Ascii.eqb_spec CR d) as [<-|Hd].
    - rewrite append_cons, append_empty_l. simpl.
      by rewrite IH1, IH2.
    - cbn [marks_out marks_mid mem_char]. rewrite IH1, IH2.
      rewrite (proj2 (Ascii.eqb_neq CR d)) by done.
      rewrite (proj2 (Ascii.eqb_neq d CR)) by congruence. done.
  Qed.

Lemma marks_out_plain c (s : string) :
    plain c = true -> marks_out (String c s) = marks_out s.
  Proof.
    unfold plain. intros [H1 H2]%negb_true_iff%orb_false_iff.
    simpl. by rewrite H1, H2.
  Qed.

(** Deleting pieces made of plain characters leaves the marks alone. *)
Lemma marks_delete_plain m (s : string) : forall skip,
    (forall t n, m t = Some n -> plain_prefix (S (Nat.pred n)) t = true) ->
    plain_prefix skip s = true ->
    marks_out (scan_sub m EmptyString skip s) = marks_out s.
  Proof.
    intros skip Hm. revert skip.
    induction s as [|d s IH]; intros skip Hskip; [done|].
    cbn [scan_sub]. destruct skip as [|k].
    - destruct (m (String d s)) as [n|] eqn:Hn.
      + apply Hm in Hn. cbn [plain_prefix] in Hn.
        apply andb_true_iff in Hn as [Hd Hrest].
        rewrite append_empty_l, IH, marks_out_plain by done. done.
      + simpl. by rewrite IH.
    - cbn [plain_prefix] in Hskip. apply andb_true_iff in Hskip as [Hd Hrest].
      rewrite IH, marks_out_plain by done. done.
  Qed.

Lemma lower_char_plain c d :
    lower_char c = d -> plain d = true -> plain c = true.
  Proof.
    intros <-.
    destruct c as [[] [] [] [] [] [] [] []]; vm_compute; congruence.
  Qed.

Lemma lowered_prefix_plain (p : string) : forall t : string,
    startswith (lower t) p = true ->
    plain_prefix (String.length p) p = true ->
    plain_prefix (String.length p) t = true.
  Proof.
    induction p as [|a p IH]; intros t Hp Hplain; [done|].
    destruct t as [|c t]; [done|].
    cbn [lower startswith String.length plain_prefix] in *.
    apply andb_true_iff in Hp as [Ha Hp].
    apply andb_true_iff in Hplain as [Hpa Hplain].
    apply Ascii.eqb_eq in Ha. subst a.
    rewrite (lower_char_plain c _ eq_refl Hpa). by apply IH.
  Qed.

Lemma esc_nul_plain t n :
    lit_nocase esc_nul t = Some n -> plain_prefix (S (Nat.pred n)) t = true.
  Proof.
    unfold lit_nocase.
    destruct (startswith _ _) eqn:Hp; [|done]. intros [= <-].
    by apply (lowered_prefix_plain (lower esc_nul)).
  Qed.

Lemma nul_plain t n :
    lit s_NUL t = Some n -> plain_prefix (S (Nat.pred n)) t = true.
  Proof.
    unfold lit, s_NUL. destruct t as [|c t]; [done|]. cbn [startswith].
    destruct (Ascii.eqb_spec NUL c) as [<-|]; [|done].
    intros [= <-]. done.
  Qed.

Lemma startswith_nil (t : string) : startswith t EmptyString = true.
  Proof. by destruct t.
  Qed.

Lemma marks_control_pass (s : string) :
    marks_out (scan_sub (char_class is_control) " " 0 s) = marks_out s.
  Proof.
    induction s as [|d s IH]; [done|]. simpl.
    destruct (is_control d) eqn:Hd.
    - rewrite append_cons, append_empty_l. simpl. rewrite IH.
      destruct (Ascii.eqb_spec d LF) as [->|_]; [done|].
      destruct (Ascii.eqb_spec d TAB) as [->|_]; [done|]. done.
    - simpl. by rewrite IH.
  Qed.

(** Every line break of the input ("\r\n", a lone "\r" or "\n") is a
    single "\n" of the output, tabs stay tabs, and their order is kept. *)
Lemma clean_text_marks (s : string) :
    marks_out (clean_text s) = marks_in s.
  Proof.
    unfold clean_text.
    rewrite marks_control_pass.
    rewrite (marks_delete_plain _ _ 0 esc_nul_plain) by done.
    unfold replace at 1.
    rewrite (marks_delete_plain _ _ 0 nul_plain) by done.
    destruct (marks_cr_pass (replace s_CRLF s_LF s)) as [-> _].
    apply marks_crlf_pass.
  Qed.

(** No carriage return is left in the output. *)
Lemma clean_text_no_CR (s : string) : mem_char CR (clean_text s) = false.
  Proof.
    destruct (mem_char CR (clean_text s)) eqn:H; [|done].
    unfold clean_text in H.
    apply scan_sub_chars in H as [H|H]; [done|].
    apply scan_sub_chars in H as [H|H]; [done|].
    apply scan_sub_chars in H as [H|H]; [done|].
    destruct (marks_cr_pass (replace s_CRLF s_LF s)) as [_ Hcr].
    congruence.
  Qed.

End CleanTextFacts.

(** C10 (the escape-sequence part): [clean_text] deletes the occurrences of
    the literal backslash-u-0000 in one left-to-right pass, and the pieces
    left and right of a deleted occurrence can join into a new one.  On the
    input below the output is a backslash followed by that very sequence,
    while it has no NUL, no carriage return and no control character. *)
Theorem clean_text_leaves_escaped_nul :
  let input := "\\u0\u0000000" in
  CleanText.clean_text input = "\\u0000" /\
  PyStr.contains "\u0000" (CleanText.clean_text input) = true /\
  PyStr.contains "\\u0000" (CleanText.clean_text input) = true.
Proof. repeat split; vm_compute; reflexivity. Qed.

(** ** Facts about the PDF link extractors *)

Section ExtractFacts.
Import PyStr Html Extract.
Variable urljoin : string -> string -> string.












End ExtractFacts.



(** ** Facts about the two download functions *)

Section HttpFacts.
Import Http.

Lemma write_chunks_concat (chunks : list bytes) (written : bytes) :
    write_chunks chunks written = written ++ concat chunks.
  Proof.
    revert written. induction chunks as [|c chunks IH]; intros written; simpl.
    - by rewrite app_nil_r.
    - destruct c as [|b c]; [apply IH|].
      rewrite IH. by rewrite <- app_assoc.
  Qed.

End HttpFacts.

(** C7 as stated fails for the backend retriever: a 404 response makes
    [download_pdf] raise instead of returning a flag, and a 204 response is
    written to the file although its status is not 200. *)
Lemma download_pdf_raises_on_404 :
  Http.download_pdf (Ok (Http.Response 404 [])) "downloads/x.pdf" ∅
    = Raise Http.http_error /\
  Http.download_pdf (Ok (Http.Response 204 [])) "downloads/x.pdf" ∅
    = Ok (<["downloads/x.pdf" := []]> ∅).
Proof. split; reflexivity. Qed.

(** C7, amended: [download_file] (tools variant) answers any response whose
    status is not 200 with [False], without raising and without writing,
    and writes the body and answers [True] on status 200; [download_pdf]
    (backend variant) raises for a status from 400 to 599 and writes the
    body for every other status. *)
Theorem download_status_policy (r : Http.response) (path : string)
        (fs : gmap string Http.bytes) :
  Http.download_file (Ok r) path fs =
    (if Http.status_code r =? 200
     then Ok (true, <[path := Http.content r]> fs)
     else Ok (false, fs)) /\
  Http.download_pdf (Ok r) path fs =
    (if (400 <=? Http.status_code r) && (Http.status_code r <? 600)
     then Raise Http.http_error
     else Ok (<[path := Http.content r]> fs)).
Proof.
  split.
  - unfold Http.download_file.
    destruct (Http.status_code r =? 200); simpl; [|done].
    by rewrite write_chunks_concat.
  - reflexivity.
Qed.

(** ** Facts about archive discovery *)

Section DiscoverFacts.
Import PyStr Html Discover.
Variable urljoin : string -> string -> string.
Variable page_param : string -> option Z.
Variable fetch : string -> result page.


Lemma drop_str_append (p b : string) : drop_str (String.length p) (p +:+ b) = b.
Proof. induction p as [|c p IH]; [done|]. by rewrite append_cons. Qed.

Lemma span_spec p (s a b : string) :
  span p s = (a, b) -> s = a +:+ b /\ all_chars p a = true.
Proof.
  revert a b. induction s as [|c s IH]; intros a b; simpl.
  - by intros [= <- <-].
  - destruct (p c) eqn:Hc.
    + destruct (span p s) as [a' b'] eqn:Hs. intros [= <- <-].
      destruct (IH _ _ eq_refl) as [-> Ha]. simpl. by rewrite Hc, Ha.
    + by intros [= <- <-].
Qed.










Lemma years_of_cons (u : string) (links : list string) :
  years_of (u :: links) =
  match parse_year_month_from_english_url u with
  | Some (y, _) => y :: years_of links
  | None => years_of links
  end.
Proof.
  unfold years_of. simpl.
  by destruct (parse_year_month_from_english_url u) as [[y m]|].
Qed.

Lemma scan_links_years min_year links : forall years pages,
  (scan_links min_year links years pages).1 = years ++ years_of links.
Proof.
  induction links as [|u links IH]; intros years pages; cbn [scan_links].
  - unfold years_of. simpl. by rewrite app_nil_r.
  - rewrite years_of_cons.
    destruct (parse_year_month_from_english_url u) as [[y m]|]; [|apply IH].
    rewrite IH. by rewrite <- app_assoc.
Qed.

Lemma scan_links_old min_year links : forall years pages,
  Forall (fun y => y < min_year) (years_of links) ->
  (scan_links min_year links years pages).2 = pages.
Proof.
  induction links as [|u links IH]; intros years pages; cbn [scan_links];
    [done|].
  rewrite years_of_cons.
  destruct (parse_year_month_from_english_url u) as [[y m]|]; [|apply IH].
  intros [Hy Hrest]%Forall_cons. rewrite IH by done.
  destruct (Z.leb_spec min_year y); [lia|done].
Qed.


Lemma max_list_lt (l : list Z) (b : Z) :
  l <> [] -> Forall (fun y => y < b) l -> max_list l < b.
Proof.
  destruct l as [|x l]; [done|]. intros _ [Hx Hl]%Forall_cons. simpl.
  revert x Hx. induction Hl as [|y l Hy _ IH]; intros x Hx; simpl; [done|].
  apply IH. lia.
Qed.

(** C5, amended: when the listing page just fetched yields no issue link,
    or yields at least one link that can be parsed and every parsed year is
    below the cutoff, the loop ends there: the page is the last one fetched,
    none of the remaining indices is visited and no page is added. *)
Theorem discovery_stops_early min_year page rest st pg :
  fetch (page_url page) = Ok pg ->
  let links := extract_english_links_from_archive_page urljoin pg in
  links = [] \/
  (years_of links <> [] /\ Forall (fun y => y < min_year) (years_of links)) ->
  exists e,
    discover_loop urljoin fetch min_year (page :: rest) st =
      Ok (DState (d_pages st) (d_fetched st ++ [page_url page]), e) /\
    e <> Exhausted.
Proof.
  intros Hfetch links Hstop. cbn [discover_loop]. rewrite Hfetch.
  fold links. clearbody links.
  destruct Hstop as [->|[Hne Hold]]; [by exists NoLinks|].
  cbn [d_pages d_fetched].
  pose proof (scan_links_years min_year links [] (d_pages st)) as Hy.
  pose proof (scan_links_old min_year links [] (d_pages st) Hold) as Hp.
  pose proof (max_list_lt _ _ Hne Hold) as Hlt.
  destruct (scan_links min_year links [] (d_pages st)) as [years pages].
  simpl in Hy, Hp. subst years pages.
  destruct links as [|u links']; [done|].
  destruct (years_of (u :: links')) as [|y ys]; [done|].
  destruct (Z.ltb_spec (max_list (y :: ys)) min_year) as [_|Hge]; [|lia].
  by exists TooOld.
Qed.

Hypothesis urljoin_no_lf :
  forall base ref, mem_char "010" (urljoin base ref) = false.



Lemma key_le_trans a b c :
  key_le a b = true -> key_le b c = true -> key_le a c = true.
Proof.
  unfold key_le. destruct a as [a1 a2], b as [b1 b2], c as [c1 c2]. simpl.
  rewrite !orb_true_iff, !andb_true_iff, !Z.ltb_lt, !Z.eqb_eq, !Z.leb_le. lia.
Qed.

Lemma key_le_total a b : key_le a b = true \/ key_le b a = true.
Proof.
  unfold key_le. destruct a as [a1 a2], b as [b1 b2]. simpl.
  rewrite !orb_true_iff, !andb_true_iff, !Z.ltb_lt, !Z.eqb_eq, !Z.leb_le. lia.
Qed.

#[local] Instance newer_first_trans : Transitive newer_first.
Proof. intros u v w Huv Hvw. unfold newer_first in *. by eapply key_le_trans. Qed.

#[local] Instance newer_first_total : Total newer_first.
Proof. intros u v. unfold newer_first. apply key_le_total. Qed.



End DiscoverFacts.

Lemma discovery_stops_early_witness :
  exists e,
    Discover.discover_loop UrlModel.urljoin Examples.web_unparsable 2021 [1; 2; 3]
      (Discover.DState ∅ []) =
      Ok (Discover.DState ∅ [Discover.page_url 1], e) /\
    e <> Discover.Exhausted.
Proof.
  apply (discovery_stops_early UrlModel.urljoin Examples.web_unparsable
           2021 1 [2; 3] (Discover.DState ∅ [])
           (Html.Page [Html.Anchor (Examples.archive_path +:+ "/2019/may/english/")
                                   "May 2019"] None)).
  - reflexivity.
  - right. split; [vm_compute; congruence|].
    vm_compute. repeat constructor.
Defined.

(** C5 as stated fails when a page has links but none that can be parsed:
    every parsable link's year is then below the cutoff (there is none),
    yet the next listing page is fetched. *)
Lemma discovery_goes_on_without_parsable_links :
  let first :=
    Html.Page [Html.Anchor "?page=1" "next";
               Html.Anchor (Examples.archive_path +:+ "/2020/foo/english")
                           "Foo 2020"] None in
  let links :=
    Discover.extract_english_links_from_archive_page UrlModel.urljoin first in
  Examples.web_unparsable Discover.ARCHIVES_ROOT = Ok first /\
  links <> [] /\
  Forall (fun y => y < 2021) (Discover.years_of links) /\
  exists st e,
    Discover.discover_run UrlModel.urljoin UrlModel.page_param
                          Examples.web_unparsable 2021 None = Ok (st, e) /\
    Discover.d_fetched st =
      [Discover.ARCHIVES_ROOT; Discover.ARCHIVES_ROOT;
       Discover.ARCHIVES_ROOT +:+ "?page=1"].
Proof.
  split; [reflexivity|]. split; [vm_compute; congruence|].
  split; [vm_compute; constructor|].
  eexists _, _. split; vm_compute; reflexivity.
Qed.

(** The modelled [urljoin] never produces a line feed. *)
Section UrlModelFacts.
Import PyStr UrlModel.







End UrlModelFacts.


(** ** Facts about the harvest loop of the backend *)

Section HarvestFacts.
Import PyStr Html Http Discover PdfText Harvest.
Variable urljoin : string -> string -> string.
Variable fetch : string -> result page.
Variable http_get : string -> result response.
Variable read_pdf : bytes -> result (list (option string)).
Variable upload_fails : string -> string -> bytes -> option string.
Variable upsert_fails : string -> payload -> option string.
Variable a : args.

Local Abbreviation try_body := (try_body urljoin fetch http_get read_pdf upload_fails upsert_fails a).
Local Abbreviation step := (step urljoin fetch http_get read_pdf upload_fails upsert_fails a).
Local Abbreviation harvest := (harvest urljoin fetch http_get read_pdf upload_fails upsert_fails a).

Local Abbreviation body_result := (body_result upsert_fails a).

Lemma try_body_result u year month st :
  body_result u st (try_body u year month st).1 (try_body u year month st).2.
Proof.
  unfold Harvest.try_body.
  destruct (fetch u) as [html|msg]; cbn [fst snd].
  2:{ apply body_failed; cbn; try done; [set_solver|].
      intros row [H|H%list_elem_of_singleton]%elem_of_app; [by right|done]. }
  destruct (Extract.extract_pdf_url urljoin html u) as [|c pdf] eqn:Hpdf;
    cbn [fst snd].
  { apply body_no_pdf; cbn; done. }
  destruct (download_pdf _ _ _) as [fs|msg]; cbn [fst snd].
  2:{ apply body_failed; cbn; try done; [set_solver|].
      intros row H. right. set_solver. }
  destruct (extract_pdf_text _ _) as [text w]. cbn [fst snd].
  destruct (upload_fails _ _ _) as [msg|]; cbn [fst snd].
  { apply body_failed; cbn; try done; [set_solver|].
    intros row H. right. set_solver. }
  destruct (upsert_fails _ _) as [msg|] eqn:Hup; cbn [fst snd].
  { apply body_failed; cbn; try done.
    - intros k Hk. destruct (decide ((arg_bucket a, object_path_of year month) = k))
        as [<-|Hne]; [by rewrite lookup_insert_eq|by rewrite lookup_insert_ne].
    - set_solver.
    - intros row H. rewrite !elem_of_app in H.
      destruct H as [[[[H|H]|H]|H]|H]; [by right|set_solver..|].
      apply list_elem_of_singleton in H. injection H as ->. left. congruence. }
  eapply body_stored; cbn; try done; set_solver.
Qed.

(** The three ways an iteration of the loop can go. *)
Lemma step_cases u st :
  (arg_force a = false /\ u ∈ h_processed st /\ step u st = (st, true)) \/
  ((arg_force a = true \/ u ∉ h_processed st) /\
   parse_year_month_from_english_url u = None /\
   step u st = (skip (Skip u "bad_ym" None) st, true)) \/
  ((arg_force a = true \/ u ∉ h_processed st) /\
   exists y m, parse_year_month_from_english_url u = Some (y, m) /\
     (step u st).1 =
       match (try_body u y m st).2 with
       | Failed msg => skip (Skip u "exception" (Some msg)) (try_body u y m st).1
       | _ => (try_body u y m st).1
       end).
Proof.
  unfold Harvest.step.
  destruct (arg_force a) eqn:Hf; cbn [negb andb].
  - right. destruct (parse_year_month_from_english_url u) as [[y m]|].
    + right. split; [by left|]. exists y, m. split; [done|].
      destruct (try_body u y m st) as [st1 [| |msg]]; cbn [fst snd]; try done.
      by destruct (arg_limit a).
    + left. split; [by left|done].
  - destruct (bool_decide_reflect (u ∈ h_processed st)) as [Hin|Hnin].
    + left. done.
    + right. destruct (parse_year_month_from_english_url u) as [[y m]|].
      * right. split; [by right|]. exists y, m. split; [done|].
        destruct (try_body u y m st) as [st1 [| |msg]]; cbn [fst snd]; try done.
        by destruct (arg_limit a).
      * left. split; [by right|done].
Qed.






Lemma step_persisted u st : persisted st -> persisted (step u st).1.
Proof.
  unfold persisted. intros Hst.
  destruct (step_cases u st) as [(_ & _ & ->)|[(_ & _ & ->)|(_ & y & m & _ & ->)]];
    [done..|].
  pose proof (try_body_result u y m st) as Hb.
  destruct (try_body u y m st) as [st1 o]. cbn [fst snd] in *.
  destruct Hb as [st' row' data Hp Hf|st' Hp Hf|st' msg Hp Hf]; cbn; try done.
  by rewrite Hf, Hp.
Qed.

Lemma harvest_cons u pages st :
  harvest (u :: pages) st = (step u st).1 \/
  harvest (u :: pages) st = harvest pages (step u st).1.
Proof. cbn [Harvest.harvest]. destruct (step u st) as [st' []]; auto. Qed.


Lemma harvest_persisted pages : forall st,
  persisted st -> persisted (harvest pages st).
Proof.
  induction pages as [|u pages IH]; intros st Hst; [done|].
  destruct (harvest_cons u pages st) as [-> | ->].
  - by apply step_persisted.
  - by apply IH, step_persisted.
Qed.





Lemma step_table u st x :
  x <> u -> h_table (step u st).1 !! x = h_table st !! x.
Proof.
  intros Hne.
  destruct (step_cases u st) as [(_ & _ & ->)|[(_ & _ & ->)|(_ & y & m & _ & ->)]];
    [done..|].
  pose proof (try_body_result u y m st) as Hb.
  destruct (try_body u y m st) as [st1 o]. cbn [fst snd] in *.
  destruct Hb as [st' row' data Hp Hf Hl Ht|st' Hp Hf Hl Ht|st' msg Hp Hf Hl Ht];
    cbn; rewrite Ht; [|done..].
  by rewrite lookup_insert_ne.
Qed.

(** A response with an error status makes [download_pdf] raise; the loop
    catches the exception and logs the item as skipped, with nothing
    written, uploaded or upserted. *)
Lemma step_http_error u st year month html r :
  (arg_force a = true \/ u ∉ h_processed st) ->
  parse_year_month_from_english_url u = Some (year, month) ->
  fetch u = Ok html ->
  Extract.extract_pdf_url urljoin html u <> EmptyString ->
  http_get (Extract.extract_pdf_url urljoin html u) = Ok r ->
  raises_for_status r = true ->
  step u st =
    (HState (h_processed st) (h_state_file st)
            (h_skipped_log st ++ [Skip u "exception" (Some http_error)])
            (h_files st) (h_storage st) (h_table st)
            (h_trace st ++
               [Ev u (Fetch u);
                Ev u (Download (Extract.extract_pdf_url urljoin html u))])
            (h_warnings st) (h_done st) (h_skipped st + 1),
     true).
Proof.
  intros Hgo Hparse Hfetch Hpdf Hget Hstatus.
  unfold Harvest.step.
  assert (negb (arg_force a) && bool_decide (u ∈ h_processed st) = false) as ->.
  { destruct Hgo as [-> | Hnin]; [done|].
    by rewrite bool_decide_eq_false_2, andb_false_r. }
  rewrite Hparse. unfold Harvest.try_body. rewrite Hfetch.
  destruct (Extract.extract_pdf_url urljoin html u) as [|c rest]; [done|].
  rewrite Hget. unfold download_pdf. rewrite Hstatus.
  unfold skip, add_event. cbn. by rewrite <- app_assoc.
Qed.


(** C4: when the PDF cannot be parsed, [extract_pdf_text] returns the empty
    text with a warning; the iteration goes on to upload the file, and when
    upload and upsert go through the issue is stored with no content, it is
    marked as processed and nothing is logged as skipped. *)
Theorem unreadable_pdf_is_stored u year month st html r msg :
  fetch u = Ok html ->
  Extract.extract_pdf_url urljoin html u <> EmptyString ->
  http_get (Extract.extract_pdf_url urljoin html u) = Ok r ->
  raises_for_status r = false ->
  read_pdf (Http.content r) = Raise msg ->
  let bucket := arg_bucket a in
  let path := object_path_of year month in
  let st' := (try_body u year month st).1 in
  let name := pdf_filename year month in
  extract_pdf_text name (read_pdf (Http.content r))
    = (EmptyString, Some (warning name msg)) /\
  Ev u (Upload bucket path) ∈ h_trace st' /\
  warning name msg ∈ h_warnings st' /\
  (upload_fails bucket path (Http.content r) = None ->
   (forall row, upsert_fails (arg_table a) row = None) ->
   (try_body u year month st).2 = Stored /\
   (exists row, h_table st' !! u = Some row /\ content row = None /\
                source_page_url row = u /\ pdf_path row = path) /\
   h_storage st' !! (bucket, path) = Some (Http.content r) /\
   u ∈ h_processed st' /\
   h_skipped_log st' = h_skipped_log st).
Proof.
  intros Hfetch Hpdf Hget Hstatus Hread bucket path st' name.
  split; [by rewrite Hread|].
  subst st'. unfold Harvest.try_body. rewrite Hfetch.
  destruct (Extract.extract_pdf_url urljoin html u) as [|c pdf] eqn:Hurl; [done|].
  rewrite Hget. unfold download_pdf. rewrite Hstatus.
  cbn [h_files add_event set_files].
  rewrite !lookup_insert_eq. cbn [from_option]. unfold id. rewrite Hread.
  cbn [extract_pdf_text]. fold bucket path.
  destruct (upload_fails bucket path (Http.content r)) as [e|] eqn:Hup.
  { cbn. split; [set_solver|]. split; [set_solver|done]. }
  match goal with
  | |- context [upsert_fails (arg_table a) ?row] => set (the_row := row)
  end.
  destruct (upsert_fails (arg_table a) the_row) as [e|] eqn:Hups.
  { cbn. split; [set_solver|]. split; [set_solver|].
    intros _ Hall. by rewrite Hall in Hups. }
  cbn. split; [set_solver|]. split; [set_solver|]. intros _ _.
  split; [done|]. split; [|split; [|split]].
  - exists the_row. by rewrite lookup_insert_eq.
  - by rewrite lookup_insert_eq.
  - set_solver.
  - done.
Qed.

End HarvestFacts.




Lemma unreadable_pdf_is_stored_witness :
  let u := HarvestExamples.issue_url in
  let a := HarvestExamples.args_plain in
  let r := Http.Response 200 [HarvestExamples.pdf_bytes] in
  let msg := "EOF marker not found" in
  let bucket := Harvest.arg_bucket a in
  let path := Harvest.object_path_of 2020 5 in
  let body :=
    Harvest.try_body UrlModel.urljoin HarvestExamples.fetch_issue
      HarvestExamples.get_ok HarvestExamples.pdf_broken
      HarvestExamples.upload_ok HarvestExamples.upsert_ok a u 2020 5
      HarvestExamples.fresh in
  let name := Harvest.pdf_filename 2020 5 in
  PdfText.extract_pdf_text name (HarvestExamples.pdf_broken (Http.content r))
    = (EmptyString, Some (PdfText.warning name msg)) /\
  Harvest.Ev u (Harvest.Upload bucket path) ∈ Harvest.h_trace body.1 /\
  PdfText.warning name msg ∈ Harvest.h_warnings body.1 /\
  (HarvestExamples.upload_ok bucket path (Http.content r) = None ->
   (forall row, HarvestExamples.upsert_ok (Harvest.arg_table a) row = None) ->
   body.2 = Harvest.Stored /\
   (exists row, Harvest.h_table body.1 !! u = Some row /\
                Harvest.content row = None /\
                Harvest.source_page_url row = u /\ Harvest.pdf_path row = path) /\
   Harvest.h_storage body.1 !! (bucket, path) = Some (Http.content r) /\
   u ∈ Harvest.h_processed body.1 /\
   Harvest.h_skipped_log body.1 = Harvest.h_skipped_log HarvestExamples.fresh).
Proof.
  apply (unreadable_pdf_is_stored UrlModel.urljoin HarvestExamples.fetch_issue
           HarvestExamples.get_ok HarvestExamples.pdf_broken
           HarvestExamples.upload_ok HarvestExamples.upsert_ok
           HarvestExamples.args_plain HarvestExamples.issue_url 2020 5
           HarvestExamples.fresh HarvestExamples.issue_page
           (Http.Response 200 [HarvestExamples.pdf_bytes])
           "EOF marker not found").
  - reflexivity.
  - vm_compute. discriminate.
  - reflexivity.
  - reflexivity.
  - reflexivity.
Defined.

(** ** Facts about the keyword-mapping pass *)

Section KeywordFacts.
Import PyStr KeywordMap.
Variable post_keywords : list string -> option string.
Variable get_keywords : list string -> result (list keyword_row).
Variable get_articles : Z -> Z -> result (list article_row).
Variable post_joins : join_post -> option string.

Lemma truthy_nonzero (m : gmap string Z) (k : string) :
  ids_nonzero m -> truthy (m !! k) = m !! k.
Proof.
  intros Hm. unfold truthy. destruct (m !! k) as [i|] eqn:Hk; [|done].
  destruct (Z.eqb_spec i 0) as [->|_]; [|done]. by apply Hm in Hk.
Qed.

Lemma rows_for_spec name2id article_id keywords :
  ids_nonzero name2id ->
  rows_for name2id article_id keywords =
  keywords ≫= fun k =>
    match name2id !! k with
    | None => []
    | Some kid => [JoinRow article_id kid]
    end.
Proof.
  intros Hm. induction keywords as [|k rest IH]; [done|].
  cbn [rows_for]. rewrite truthy_nonzero by done. rewrite IH, bind_cons.
  by destruct (name2id !! k).
Qed.

Lemma build_join_rows_spec i2k url2id name2id issues :
  ids_nonzero url2id -> ids_nonzero name2id ->
  forall join_rows missing,
  build_join_rows i2k url2id name2id issues join_rows missing =
  (join_rows ++ resolvable_pairs i2k url2id name2id issues,
   missing + Z.of_nat (length (List.filter (unresolved url2id) issues))).
Proof.
  intros Hu Hn. induction issues as [|isu rest IH]; intros join_rows missing.
  - cbn. by rewrite app_nil_r, Z.add_0_r.
  - cbn [build_join_rows List.filter]. rewrite truthy_nonzero by done.
    unfold unresolved at 1. unfold resolvable_pairs. rewrite bind_cons.
    fold (resolvable_pairs i2k url2id name2id rest).
    destruct (url2id !! rstrip_slash isu) as [article_id|] eqn:Hisu.
    + rewrite IH, rows_for_spec by done.
      rewrite bool_decide_eq_false_2 by done. by rewrite <- app_assoc.
    + rewrite IH. rewrite bool_decide_eq_true_2 by done.
      cbn [length]. f_equal. lia.
Qed.

(** A row is built exactly for the pairs that resolve on both sides. *)
Lemma resolvable_pairs_elem i2k url2id name2id issues article kid :
  JoinRow article kid ∈ resolvable_pairs i2k url2id name2id issues <->
  exists isu k,
    isu ∈ issues /\ k ∈ default [] (i2k !! isu) /\
    url2id !! rstrip_slash isu = Some article /\ name2id !! k = Some kid.
Proof.
  unfold resolvable_pairs. rewrite list_elem_of_bind. split.
  - intros (isu & Hrow & Hisu).
    destruct (url2id !! rstrip_slash isu) as [art|] eqn:Hart;
      [|by apply elem_of_nil in Hrow].
    apply list_elem_of_bind in Hrow as (k & Hrow & Hk).
    destruct (name2id !! k) as [i|] eqn:Hi; [|by apply elem_of_nil in Hrow].
    apply list_elem_of_singleton in Hrow. injection Hrow as -> ->.
    by exists isu, k.
  - intros (isu & k & Hisu & Hk & Hart & Hi). exists isu. split; [|done].
    rewrite Hart. apply list_elem_of_bind. exists k. split; [|done].
    rewrite Hi. by apply list_elem_of_singleton.
Qed.

Lemma chunked_bounded {A} (lst : list A) (n : Z) :
  0 < n ->
  exists cs, Chunk.chunked lst n = Some cs /\ concat cs = lst /\
             Forall (fun c => (0 < length c)%nat /\ Z.of_nat (length c) <= n) cs.
Proof.
  intros Hn. set (m := Z.to_nat n). assert (Hm : (0 < m)%nat) by lia.
  replace n with (Z.of_nat m) by lia.
  eexists. split; [by apply chunked_windows|]. split.
  - rewrite windows_concat. by apply take_ge, chunk_count_covers.
  - apply Forall_lookup_2. intros i c Hc.
    apply windows_lookup in Hc as [Hi ->].
    apply (chunk_count_tight _ m) in Hi; [|done].
    rewrite length_take, length_drop. lia.
Qed.

Lemma post_batches_all batches :
  (forall p, post_joins p = None) ->
  post_batches post_joins batches = (JoinPost JOIN_CONFLICT <$> batches, None).
Proof.
  intros Hok. induction batches as [|b rest IH]; [done|].
  cbn [post_batches]. by rewrite Hok, IH.
Qed.

Lemma add_articles_app rows1 rows2 out :
  add_articles (rows1 ++ rows2) out = add_articles rows2 (add_articles rows1 out).
Proof. unfold add_articles. by rewrite foldl_app. Qed.

(** Against a table-backed server the article listing ends, and one more
    request than there are rows is always enough. *)
Lemma load_all_articles_table rows : forall fuel offset out,
  (length (drop offset rows) < fuel)%nat ->
  load_all_articles (table_page rows) fuel (Z.of_nat offset) out =
  Some (Ok (add_articles (drop offset rows) out)).
Proof.
  induction fuel as [|fuel IH]; intros offset out Hfuel; [lia|].
  cbn [load_all_articles]. unfold table_page at 1, ARTICLE_LIMIT.
  assert (Hslice : Py.slice rows (Z.of_nat offset) (Z.of_nat offset + 1000)
                   = take 1000 (drop offset rows)).
  { unfold Py.slice, Py.slice_bound.
    destruct (Z.ltb_spec (Z.of_nat offset) 0) as [?|_]; [lia|].
    destruct (Z.ltb_spec (Z.of_nat offset + 1000) 0) as [?|_]; [lia|].
    destruct (Nat.le_gt_cases (length rows) offset) as [Hbig|Hsmall].
    - rewrite (drop_ge rows offset) by done.
      rewrite (drop_ge rows) by lia. by rewrite !take_nil.
    - rewrite (Z.min_l (Z.of_nat offset)) by lia. rewrite Nat2Z.id.
      destruct (Z.min_spec (Z.of_nat offset + 1000) (Z.of_nat (length rows)))
        as [[_ ->]|[Hle ->]].
      + by replace (Z.of_nat offset + 1000 - Z.of_nat offset) with 1000 by lia.
      + assert (length rows - offset <= 1000)%nat as Hshort.
        { apply Nat2Z.inj_le. rewrite Nat2Z.inj_sub by lia.
          change (Z.of_nat 1000) with 1000. lia. }
        rewrite !take_ge; [done| |]; rewrite length_drop; [done|lia]. }
  rewrite Hslice.
  destruct (take 1000 (drop offset rows)) as [|r page] eqn:Hpage.
  - destruct (drop offset rows) as [|r rest]; [done|]. done.
  - rewrite <- Hpage.
    replace (Z.of_nat offset + 1000) with (Z.of_nat (offset + 1000)) by lia.
    rewrite IH.
    + rewrite <- add_articles_app. do 3 f_equal.
      rewrite <- drop_drop. apply take_drop.
    + rewrite <- drop_drop, length_drop.
      assert (0 < length (drop offset rows))%nat; [|lia].
      destruct (drop offset rows); [done|]. simpl. lia.
Qed.

(** C8, amended: once the keyword names are upserted and both lookups are
    loaded, the pass builds one join row for exactly the (issue, keyword)
    pairs that resolve on both sides (the issue with its trailing slash
    stripped), sends them as [chunked(join_rows, 1000)] with the conflict
    target "article_id,keyword_id", and ends normally whatever the number
    of unresolved issues; that number is printed in the closing line when
    at least one row was built, and otherwise only the warning is. *)
Theorem keyword_join_pass fuel i2k limit_issues batches name2id url2id :
  i2k <> ∅ ->
  let issues := issues_of i2k limit_issues in
  let keyword_names := keyword_names_of i2k issues in
  post_keywords keyword_names = None ->
  Chunk.chunked keyword_names KEYWORD_BATCH = Some batches ->
  load_name2id get_keywords batches ∅ = Ok name2id ->
  load_all_articles get_articles fuel 0 ∅ = Some (Ok url2id) ->
  (forall p, post_joins p = None) ->
  ids_nonzero url2id -> ids_nonzero name2id ->
  let pairs := resolvable_pairs i2k url2id name2id issues in
  let missing := Z.of_nat (length (List.filter (unresolved url2id) issues)) in
  (forall article kid,
     JoinRow article kid ∈ pairs <->
     exists isu k, isu ∈ issues /\ k ∈ default [] (i2k !! isu) /\
       url2id !! rstrip_slash isu = Some article /\ name2id !! k = Some kid) /\
  match pairs with
  | [] =>
      main post_keywords get_keywords get_articles post_joins
           fuel i2k false limit_issues = Some (Run [] (Ok NoJoinRows))
  | _ =>
      exists cs,
        Chunk.chunked pairs JOIN_BATCH = Some cs /\
        main post_keywords get_keywords get_articles post_joins
             fuel i2k false limit_issues =
          Some (Run (JoinPost JOIN_CONFLICT <$> cs)
                    (Ok (Merged (Z.of_nat (length pairs)) missing)))
  end.
Proof.
  intros Hne issues keyword_names Hpost Hbatches Hnames Harticles Hjoins
         Hu Hn pairs missing.
  split; [intros article kid; apply resolvable_pairs_elem|].
  unfold main. rewrite bool_decide_eq_false_2 by done.
  fold issues. fold keyword_names.
  rewrite Hpost, Hbatches, Hnames, Harticles.
  rewrite build_join_rows_spec by done.
  rewrite app_nil_l, Z.add_0_l. fold pairs. fold missing.
  destruct pairs as [|p ps] eqn:Hpairs; [done|]. rewrite <- Hpairs.
  destruct (chunked_bounded pairs JOIN_BATCH) as (cs & Hcs & _); [done|].
  exists cs. split; [done|].
  rewrite Hcs, post_batches_all by done. done.
Qed.

End KeywordFacts.

Lemma keyword_join_pass_witness :
  let i2k := KeywordExamples.map_ab in
  let name2id : gmap string Z := {[ "hot work" := 7; "permits" := 9 ]} in
  let url2id : gmap string Z :=
    {[ "https://ccps.aiche.org/resources/process-safety-beacon/archives/2020/may/english" := 41 ]} in
  let issues := KeywordMap.issues_of i2k 0 in
  let pairs := KeywordMap.resolvable_pairs i2k url2id name2id issues in
  let missing :=
    Z.of_nat (length (List.filter (KeywordMap.unresolved url2id) issues)) in
  (forall article kid,
     KeywordMap.JoinRow article kid ∈ pairs <->
     exists isu k, isu ∈ issues /\ k ∈ default [] (i2k !! isu) /\
       url2id !! PyStr.rstrip_slash isu = Some article /\
       name2id !! k = Some kid) /\
  match pairs with
  | [] =>
      KeywordMap.main KeywordMap.accept_keywords
        (KeywordMap.keyword_page KeywordExamples.keywords_db)
        (KeywordMap.table_page KeywordExamples.articles_db)
        KeywordMap.accept_joins 3 i2k false 0
      = Some (KeywordMap.Run [] (Ok KeywordMap.NoJoinRows))
  | _ =>
      exists cs,
        Chunk.chunked pairs KeywordMap.JOIN_BATCH = Some cs /\
        KeywordMap.main KeywordMap.accept_keywords
          (KeywordMap.keyword_page KeywordExamples.keywords_db)
          (KeywordMap.table_page KeywordExamples.articles_db)
          KeywordMap.accept_joins 3 i2k false 0
        = Some (KeywordMap.Run
                  (KeywordMap.JoinPost KeywordMap.JOIN_CONFLICT <$> cs)
                  (Ok (KeywordMap.Merged (Z.of_nat (length pairs)) missing)))
  end.
Proof.
  apply (keyword_join_pass KeywordMap.accept_keywords
           (KeywordMap.keyword_page KeywordExamples.keywords_db)
           (KeywordMap.table_page KeywordExamples.articles_db)
           KeywordMap.accept_joins 3 KeywordExamples.map_ab 0
           [["hot work"; "permits"; "unknown"]]).
  - intros H. vm_compute in H. discriminate H.
  - reflexivity.
  - vm_compute. reflexivity.
  - vm_compute. reflexivity.
  - vm_compute. reflexivity.
  - reflexivity.
  - apply (bool_decide_unpack (map_Forall (fun _ i => i <> 0) _)).
    vm_compute. exact I.
  - apply (bool_decide_unpack (map_Forall (fun _ i => i <> 0) _)).
    vm_compute. exact I.
Defined.

(** C8 as stated fails when no issue of the map has been harvested: both
    issues are unresolved and counted, but the pass returns after the
    warning and their number is never printed. *)
Lemma unresolved_count_not_reported :
  let issues := KeywordMap.issues_of KeywordExamples.map_ab 0 in
  length (List.filter (KeywordMap.unresolved ∅) issues) = 2%nat /\
  KeywordMap.build_join_rows KeywordExamples.map_ab ∅
    {[ "hot work" := 7; "permits" := 9 ]} issues [] 0 = ([], 2) /\
  KeywordMap.main KeywordMap.accept_keywords
    (KeywordMap.keyword_page KeywordExamples.keywords_db)
    (KeywordMap.table_page []) KeywordMap.accept_joins 3
    KeywordExamples.map_ab false 0
  = Some (KeywordMap.Run [] (Ok KeywordMap.NoJoinRows)).
Proof. repeat split; vm_compute; reflexivity. Qed.

(** An id of zero counts as missing ([if not article_id]). *)
Example zero_id_counts_as_missing :
  KeywordMap.build_join_rows KeywordExamples.map_ab
    {[ "https://ccps.aiche.org/resources/process-safety-beacon/archives/2020/may/english" := 0 ]}
    {[ "hot work" := 7; "permits" := 9 ]}
    [KeywordExamples.issue_a] [] 0 = ([], 1).
Proof. vm_compute. reflexivity. Qed.

(** ** Facts about the harvest loop of the tools variant *)

Section BackfillFacts.
Import Html Http Backfill.
Variable urljoin : string -> string -> string.
Variable get_page : string -> fetched.
Variable http_get : string -> result response.
Variable read_pdf : bytes -> result (list (option string)).

Local Abbreviation step := (Backfill.step urljoin get_page http_get read_pdf).
Local Abbreviation backfill := (Backfill.backfill urljoin get_page http_get read_pdf).

(** An iteration either leaves the set and the state file alone, or adds
    the PDF URL it has just downloaded and written, and saves the set. *)
Lemma step_t_effect ep st :
  (b_processed (step ep st).1 = b_processed st /\
   b_state_file (step ep st).1 = b_state_file st) \/
  (exists p, b_processed (step ep st).1 = {[p]} ∪ b_processed st /\
             written (step ep st).1 p /\ persisted (step ep st).1).
Proof.
  unfold Backfill.step.
  repeat (case_match; cbn [fst snd]); try (by left).
  right. eexists. split; [reflexivity|]. split; [|reflexivity].
  eexists _, _, _. cbn. rewrite !elem_of_app, !list_elem_of_singleton.
  split; [left; right; reflexivity|right; reflexivity].
Qed.

Lemma step_t_trace ep st e : e ∈ b_trace st -> e ∈ b_trace (step ep st).1.
Proof.
  unfold Backfill.step.
  repeat (case_match; cbn [fst snd]); cbn; rewrite ?elem_of_app; auto.
Qed.



Lemma backfill_cons ep pages st :
  (backfill (ep :: pages) st).1 = (step ep st).1 \/
  (backfill (ep :: pages) st).1 = (backfill pages (step ep st).1).1.
Proof. cbn [Backfill.backfill]. destruct (step ep st) as [st' [msg|]]; auto. Qed.




(** A response whose status is not 200 turns the item into a skip with
    reason "pdf_not_found"; nothing is written and the set is unchanged. *)
Lemma step_t_pdf_not_found ep st pg pdf_url r :
  get_page ep = Got pg ->
  Extract.extract_pdf_url_t urljoin pg ep = Some pdf_url ->
  pdf_url <> EmptyString ->
  pdf_url ∉ b_processed st ->
  http_get pdf_url = Ok r ->
  status_code r <> 200%Z ->
  step ep st =
    (BState (b_processed st) (b_state_file st)
            (b_skipped_pages st ++ [Skip ep (Some pdf_url) "pdf_not_found"])
            (b_files st) (b_json st)
            (b_trace st ++ [Ev ep (FetchPage ep); Ev ep (Download pdf_url)]),
     None).
Proof.
  intros Hpage Hurl Hne Hnew Hget Hstatus.
  unfold Backfill.step. rewrite Hpage. cbn [fetch_html]. rewrite Hurl.
  destruct pdf_url as [|c rest]; [done|].
  rewrite bool_decide_eq_false_2 by done.
  rewrite Hget. unfold download_file.
  destruct (Z.eqb_spec (status_code r) 200) as [?|_]; [done|].
  unfold Backfill.skip, Backfill.add_event. cbn. by rewrite <- app_assoc.
Qed.

End BackfillFacts.



(** * Further properties of the scripts *)

(** ** Decimal rendering and parsing *)

Section DecimalFacts.
Import PyStr Discover PdfText Decimal.

Lemma digit_char_code r : 0 <= r < 10 -> code (digit_char r) = (48 + Z.to_N r)%N.
Proof.
  intros Hr. unfold code, digit_char. apply N_ascii_embedding. lia.
Qed.

Lemma digit_char_is_digit r : 0 <= r < 10 -> is_digit (digit_char r) = true.
Proof.
  intros Hr. unfold is_digit, in_range. rewrite digit_char_code by done.
  apply andb_true_iff. split; apply N.leb_le; lia.
Qed.

Lemma int_digits_app (s t : string) : forall acc,
  int_digits acc (s +:+ t) = int_digits (int_digits acc s) t.
Proof.
  induction s as [|c s IH]; intros acc; [done|].
  rewrite append_cons. cbn [int_digits]. apply IH.
Qed.

Lemma all_chars_app p (s t : string) :
  all_chars p (s +:+ t) = all_chars p s && all_chars p t.
Proof.
  induction s as [|c s IH]; [done|].
  rewrite append_cons. cbn [all_chars]. by rewrite IH, andb_assoc.
Qed.

Lemma dec_go_acc fuel : forall n acc,
  dec_go fuel n acc = dec_go fuel n EmptyString +:+ acc.
Proof.
  induction fuel as [|fuel IH]; intros n acc; [done|].
  cbn [dec_go]. destruct (n / 10 =? 0); [done|].
  rewrite (IH _ (String _ acc)), (IH _ (String _ EmptyString)).
  by rewrite append_assoc.
Qed.

Lemma dec_go_step fuel n :
  dec_go (S fuel) n EmptyString =
  (if n / 10 =? 0 then EmptyString else dec_go fuel (n / 10) EmptyString)
  +:+ String (digit_char (n mod 10)) EmptyString.
Proof.
  cbn [dec_go]. fold (digit_char (n mod 10)).
  destruct (n / 10 =? 0); [done|]. apply dec_go_acc.
Qed.

Lemma dec_go_value fuel : forall n,
  0 <= n < 2 ^ Z.of_nat fuel ->
  int_digits 0 (dec_go fuel n EmptyString) = n /\
  all_chars is_digit (dec_go fuel n EmptyString) = true.
Proof.
  induction fuel as [|fuel IH]; intros n Hn.
  - change (2 ^ Z.of_nat 0) with 1 in Hn. assert (n = 0) as -> by lia. done.
  - rewrite dec_go_step.
    assert (Hr : 0 <= n mod 10 < 10) by (apply Z.mod_pos_bound; lia).
    assert (Hq : 0 <= n / 10) by (apply Z.div_pos; lia).
    rewrite Nat2Z.inj_succ, Z.pow_succ_r in Hn by lia.
    destruct (Z.eqb_spec (n / 10) 0) as [H0|Hne].
    + rewrite append_empty_l. cbn [int_digits all_chars].
      rewrite digit_char_code, digit_char_is_digit by done. split; [|done].
      pose proof (Z.div_mod n 10). lia.
    + destruct (IH (n / 10)) as [Hv Hd].
      { split; [done|]. apply Z.div_lt_upper_bound; lia. }
      split.
      * rewrite int_digits_app, Hv. cbn [int_digits].
        rewrite digit_char_code by done. pose proof (Z.div_mod n 10). lia.
      * rewrite all_chars_app, Hd. cbn [all_chars].
        by rewrite digit_char_is_digit.
Qed.

Lemma str_of_Z_nonneg n : 0 <= n ->
  int_digits 0 (str_of_Z n) = n /\ all_chars is_digit (str_of_Z n) = true.
Proof.
  intros Hn. unfold str_of_Z.
  destruct (Z.ltb_spec n 0) as [?|_]; [lia|].
  apply dec_go_value. split; [done|].
  rewrite Nat2Z.inj_succ, Z2Nat.id by apply Z.log2_nonneg.
  destruct (Z.eq_dec n 0) as [->|Hne]; [done|].
  apply Z.log2_spec. lia.
Qed.

Lemma length_append (s t : string) :
  String.length (s +:+ t) = (String.length s + String.length t)%nat.
Proof. induction s as [|c s IH]; [done|]. rewrite append_cons. cbn. by rewrite IH. Qed.

Lemma dec_go_length fuel : forall n (k : nat),
  (0 < fuel)%nat ->
  0 <= n < 2 ^ Z.of_nat fuel ->
  n < 10 ^ Z.of_nat (S k) ->
  (k = 0%nat \/ 10 ^ Z.of_nat k <= n) ->
  String.length (dec_go fuel n EmptyString) = S k.
Proof.
  induction fuel as [|fuel IH]; intros n k Hfuel Hn Hlt Hge; [lia|].
  rewrite dec_go_step, length_append. cbn [String.length].
  rewrite Nat2Z.inj_succ, Z.pow_succ_r in Hn by lia.
  rewrite Nat2Z.inj_succ, Z.pow_succ_r in Hlt by lia.
  destruct (Z.eqb_spec (n / 10) 0) as [H0|Hne].
  - assert (n < 10) by (pose proof (Z.div_mod n 10); pose proof (Z.mod_pos_bound n 10); lia).
    destruct k as [|k]; [done|].
    destruct Hge as [?|Hge]; [done|].
    rewrite Nat2Z.inj_succ, Z.pow_succ_r in Hge by lia.
    assert (0 < 10 ^ Z.of_nat k) by (apply Z.pow_pos_nonneg; lia). lia.
  - assert (Hq : 0 < n / 10).
    { assert (0 <= n / 10) by (apply Z.div_pos; lia). lia. }
    assert (10 <= n).
    { destruct (Z.le_gt_cases 10 n); [done|]. rewrite Z.div_small in Hq; lia. }
    destruct k as [|k].
    { change (10 ^ Z.of_nat 0) with 1 in Hlt. lia. }
    rewrite (IH (n / 10) k); [lia| | | |].
    + destruct fuel; [|lia]. change (2 ^ Z.of_nat 0) with 1 in Hn.
      assert (n / 10 < 1); [apply Z.div_lt_upper_bound; lia|lia].
    + split; [lia|]. apply Z.div_lt_upper_bound; lia.
    + apply Z.div_lt_upper_bound; lia.
    + destruct Hge as [?|Hge]; [done|]. right.
      rewrite Nat2Z.inj_succ, Z.pow_succ_r in Hge by lia.
      apply Z.div_le_lower_bound; lia.
Qed.

Lemma str_of_Z_length n (k : nat) :
  0 <= n -> n < 10 ^ Z.of_nat (S k) -> (k = 0%nat \/ 10 ^ Z.of_nat k <= n) ->
  String.length (str_of_Z n) = S k.
Proof.
  intros Hn Hlt Hge. unfold str_of_Z.
  destruct (Z.ltb_spec n 0) as [?|_]; [lia|].
  apply dec_go_length; [lia| |done|done].
  split; [done|].
  rewrite Nat2Z.inj_succ, Z2Nat.id by apply Z.log2_nonneg.
  destruct (Z.eq_dec n 0) as [->|Hne]; [done|].
  apply Z.log2_spec. lia.
Qed.

End DecimalFacts.

(** ** Dates in file names and URLs *)

Section DateFacts.
Import PyStr Discover PdfText Decimal.

Lemma fmt_02d_value m : 0 <= m ->
  int_digits 0 (fmt_02d m) = m /\ all_chars is_digit (fmt_02d m) = true.
Proof.
  intros Hm. destruct (str_of_Z_nonneg m Hm) as [Hv Hd]. unfold fmt_02d.
  destruct (String.length (str_of_Z m) <? 2)%nat; [|done].
  rewrite int_digits_app, all_chars_app, Hd. by split.
Qed.

Lemma fmt_02d_length m : 0 <= m <= 99 -> String.length (fmt_02d m) = 2%nat.
Proof.
  intros Hm. unfold fmt_02d.
  destruct (Z.le_gt_cases 10 m) as [Hbig|Hsmall].
  - assert (String.length (str_of_Z m) = 2%nat) as Hlen.
    { apply (str_of_Z_length m 1); [lia| |].
      + change (10 ^ Z.of_nat 2) with 100. lia.
      + right. change (10 ^ Z.of_nat 1) with 10. lia. }
    by rewrite Hlen.
  - assert (String.length (str_of_Z m) = 1%nat) as Hlen.
    { apply (str_of_Z_length m 0); [lia| |by left].
      change (10 ^ Z.of_nat 1) with 10. lia. }
    rewrite Hlen. cbn [Nat.ltb Nat.leb]. rewrite length_append, Hlen. done.
Qed.

Lemma year_length y : 1000 <= y <= 9999 -> String.length (str_of_Z y) = 4%nat.
Proof.
  intros Hy. apply (str_of_Z_length y 3); [lia| |].
  - change (10 ^ Z.of_nat 4) with 10000. lia.
  - right. change (10 ^ Z.of_nat 3) with 1000. lia.
Qed.

Lemma take_str_append (a b : string) : take_str (String.length a) (a +:+ b) = a.
Proof. induction a as [|c a IH]; [by destruct b|]. rewrite append_cons. cbn. by rewrite IH. Qed.

Lemma take_str_exact n (a b : string) :
  String.length a = n -> take_str n (a +:+ b) = a.
Proof. intros <-. apply take_str_append. Qed.

Lemma drop_str_exact n (a b : string) :
  String.length a = n -> drop_str n (a +:+ b) = b.
Proof. intros <-. apply drop_str_append. Qed.

Lemma span_append p (a b : string) :
  all_chars p a = true ->
  match b with String c _ => p c = false | EmptyString => True end ->
  span p (a +:+ b) = (a, b).
Proof.
  intros Ha Hb. induction a as [|c a IH].
  - rewrite append_empty_l. destruct b as [|c b]; [done|]. cbn. by rewrite Hb.
  - rewrite append_cons. cbn in *. apply andb_true_iff in Ha as [-> Ha].
    by rewrite IH.
Qed.

Lemma match_english_here_intro (yyyy mon : string) :
  String.length yyyy = 4%nat -> all_chars is_digit yyyy = true ->
  mon <> EmptyString -> all_chars is_az mon = true ->
  match_english_here ("/archives/" +:+ yyyy +:+ "/" +:+ mon +:+ "/english")
    = Some (yyyy, mon).
Proof.
  intros Hlen Hdig Hne Haz. unfold match_english_here.
  rewrite (proj2 (startswith_spec _ _)) by eauto.
  rewrite (drop_str_exact 10 "/archives/") by done.
  rewrite (take_str_exact 4 yyyy), (drop_str_exact 4 yyyy) by done.
  rewrite Hlen, Hdig. cbn [Nat.eqb andb].
  rewrite append_cons, append_empty_l.
  rewrite (span_append is_az mon "/english") by done.
  destruct mon as [|c mon]; [done|]. done.
Qed.

Lemma search_english_hit (s : string) g :
  match_english_here s = Some g -> search_english s = Some g.
Proof. intros H. destruct s; cbn [search_english]; by rewrite H. Qed.

Lemma search_english_cons c (s : string) :
  match_english_here (String c s) = None ->
  search_english (String c s) = search_english s.
Proof. intros H. cbn [search_english]. by rewrite H. Qed.

Lemma search_append (here : string -> bool) (p s : string) :
  here s = true -> IssuePattern.search here (p +:+ s) = true.
Proof.
  intros H. induction p as [|c p IH].
  - rewrite append_empty_l. destruct s; cbn; by rewrite H.
  - rewrite append_cons. cbn. by rewrite IH, orb_true_r.
Qed.

Lemma match_issue_here_intro (yyyy seg : string) :
  String.length yyyy = 4%nat -> all_chars is_digit yyyy = true ->
  seg <> EmptyString -> all_chars IssuePattern.not_slash seg = true ->
  IssuePattern.match_issue_here
    (IssuePattern.ARCHIVES_PATH +:+ yyyy +:+ "/" +:+ seg +:+ "/english") = true.
Proof.
  intros Hlen Hdig Hne Hseg. unfold IssuePattern.match_issue_here.
  rewrite (proj2 (startswith_spec _ _)) by eauto.
  rewrite drop_str_append.
  rewrite (take_str_exact 4 yyyy), (drop_str_exact 4 yyyy) by done.
  rewrite Hlen, Hdig. cbn [Nat.eqb andb].
  rewrite append_cons, append_empty_l.
  rewrite (span_append IssuePattern.not_slash seg "/english") by done.
  destruct seg as [|c seg]; [done|]. done.
Qed.

End DateFacts.

(** ** Months and article URLs (tools/collecter_past.py) *)

(** X1.  [month_to_name]: on the calendar months the name is the one that
    the backend's [MONTHS] table maps back to the number; the indices from
    -11 to 0 wrap around to the end of the list, as Python's negative
    indices do, so that month 0 is "december"; every other number raises. *)
Theorem month_to_name_range (month : Z) :
  (1 <= month <= 12 ->
   exists name, PastArticles.month_to_name month = Some name /\
                Discover.MONTHS !! name = Some month) /\
  (-11 <= month <= 0 ->
   PastArticles.month_to_name month = PastArticles.month_to_name (month + 12)) /\
  (month < -11 \/ 12 < month -> PastArticles.month_to_name month = None).
Proof.
  split; [|split].
  - intros Hm.
    assert (month = 1 \/ month = 2 \/ month = 3 \/ month = 4 \/ month = 5 \/
            month = 6 \/ month = 7 \/ month = 8 \/ month = 9 \/ month = 10 \/
            month = 11 \/ month = 12) as Hcases by lia.
    repeat (destruct Hcases as [->|Hcases]; [eexists; split; [reflexivity|done]|]).
    subst. eexists; split; [reflexivity|done].
  - intros Hm.
    assert (month = -11 \/ month = -10 \/ month = -9 \/ month = -8 \/
            month = -7 \/ month = -6 \/ month = -5 \/ month = -4 \/
            month = -3 \/ month = -2 \/ month = -1 \/ month = 0) as Hcases by lia.
    repeat (destruct Hcases as [->|Hcases]; [reflexivity|]). by subst.
  - intros Hm. unfold PastArticles.month_to_name, PySeq.index.
    change (Z.of_nat (length PastArticles.month_names)) with 12.
    destruct (Z.ltb_spec (month - 1) 0) as [Hneg|Hpos].
    + destruct (Z.ltb_spec (month - 1 + 12) 0) as [_|?]; [done|lia].
    + apply lookup_ge_None_2.
      change (length PastArticles.month_names) with 12%nat. lia.
Qed.

Lemma month_to_name_range_witness :
  (exists name, PastArticles.month_to_name 5 = Some name /\
                Discover.MONTHS !! name = Some 5) /\
  PastArticles.month_to_name 0 = PastArticles.month_to_name 12 /\
  PastArticles.month_to_name 13 = None.
Proof.
  destruct (month_to_name_range 5) as [H5 _].
  destruct (month_to_name_range 0) as [_ [H0 _]].
  destruct (month_to_name_range 13) as [_ [_ H13]].
  split; [apply H5; lia|]. split; [apply H0; lia|apply H13; lia].
Defined.

(** X2.  The URL that [process_article] builds for a year of four digits and
    a calendar month is an issue URL for both harvesters: the backend's
    [parse_year_month_from_english_url] reads the same year and month back
    from it, and the issue pattern of the tools variant matches it. *)
Theorem article_url_round_trip (year month : Z) :
  1000 <= year <= 9999 -> 1 <= month <= 12 ->
  exists name,
    PastArticles.month_to_name month = Some name /\
    Discover.parse_year_month_from_english_url
      (PastArticles.article_url year name) = Some (year, month) /\
    IssuePattern.search_issue (PastArticles.article_url year name) = true.
Proof.
  intros Hy Hm.
  destruct (str_of_Z_nonneg year) as [Hval Hdig]; [lia|].
  pose proof (year_length year Hy) as Hlen.
  assert (Hname : exists name,
            PastArticles.month_to_name month = Some name /\
            Discover.MONTHS !! PyStr.lower name = Some month /\
            name <> EmptyString /\
            Discover.all_chars Discover.is_az name = true /\
            Discover.all_chars IssuePattern.not_slash name = true).
  { assert (month = 1 \/ month = 2 \/ month = 3 \/ month = 4 \/ month = 5 \/
            month = 6 \/ month = 7 \/ month = 8 \/ month = 9 \/ month = 10 \/
            month = 11 \/ month = 12) as Hcases by lia.
    repeat (destruct Hcases as [->|Hcases];
            [eexists; split; [reflexivity|by vm_compute]|]).
    subst. eexists; split; [reflexivity|by vm_compute]. }
  destruct Hname as (name & Hname & Hmon & Hne & Haz & Hseg).
  exists name. split; [done|]. split.
  - unfold Discover.parse_year_month_from_english_url.
    assert (Discover.search_english (PastArticles.article_url year name)
            = Some (Discover.str_of_Z year, name)) as ->.
    { unfold PastArticles.article_url, PastArticles.ARCHIVES_ROOT.
      pose proof (match_english_here_intro _ _ Hlen Hdig Hne Haz) as Hhit.
      revert Hhit.
      generalize (Discover.str_of_Z year +:+ "/" +:+ name +:+ "/english").
      intros t Hhit.
      repeat rewrite append_cons. rewrite append_empty_l.
      repeat (rewrite search_english_cons by reflexivity).
      by apply search_english_hit. }
    rewrite Hval, Hmon.
    destruct (Z.eqb_spec month 0) as [?|_]; [lia|done].
  - unfold IssuePattern.search_issue, PastArticles.article_url.
    change PastArticles.ARCHIVES_ROOT
      with ("https://ccps.aiche.org" +:+ IssuePattern.ARCHIVES_PATH).
    rewrite append_assoc. apply search_append.
    by apply match_issue_here_intro.
Qed.

Lemma article_url_round_trip_witness :
  exists name,
    PastArticles.month_to_name 11 = Some name /\
    Discover.parse_year_month_from_english_url
      (PastArticles.article_url 2001 name) = Some (2001, 11) /\
    IssuePattern.search_issue (PastArticles.article_url 2001 name) = true.
Proof. apply article_url_round_trip; lia. Defined.

(** ** The month-by-month pass *)

Section MonthLoopFacts.
Import PastArticles.

Lemma month_range_nil sy sm ey em :
  12 * (ey - sy) + em - sm + 1 <= 0 -> month_range sy sm ey em = [].
Proof.
  intros H. unfold month_range.
  by replace (Z.to_nat (12 * (ey - sy) + em - sm + 1)) with 0%nat by lia.
Qed.

Lemma month_range_cons sy sm ey em :
  1 <= sm <= 12 -> 1 <= 12 * (ey - sy) + em - sm + 1 ->
  month_range sy sm ey em =
  (sy, sm) :: (if sm =? 12 then month_range (sy + 1) 1 ey em
               else month_range sy (sm + 1) ey em).
Proof.
  intros Hsm Hn. unfold month_range.
  set (n := 12 * (ey - sy) + em - sm + 1) in *.
  replace (Z.to_nat n) with (S (Z.to_nat (n - 1))) by lia.
  cbn [seq fmap list_fmap]. f_equal.
  - rewrite Z.add_0_r. f_equal.
    + symmetry. apply (Z.div_unique _ _ _ (sm - 1)); lia.
    + assert ((12 * sy + (sm - 1)) mod 12 = sm - 1); [|lia].
      symmetry. apply (Z.mod_unique _ _ sy); lia.
  - rewrite <- fmap_S_seq, <- list_fmap_compose.
    destruct (Z.eqb_spec sm 12) as [->|Hne].
    + replace (Z.to_nat (12 * (ey - (sy + 1)) + em - 1 + 1))
        with (Z.to_nat (n - 1)) by lia.
      apply list_fmap_ext. intros i k _. cbn.
      replace (12 * (sy + 1) + (1 - 1) + Z.of_nat k)
        with (12 * sy + (12 - 1) + Z.of_nat (S k)) by lia. done.
    + replace (Z.to_nat (12 * (ey - sy) + em - (sm + 1) + 1))
        with (Z.to_nat (n - 1)) by lia.
      apply list_fmap_ext. intros i k _. cbn.
      replace (12 * sy + (sm + 1 - 1) + Z.of_nat k)
        with (12 * sy + (sm - 1) + Z.of_nat (S k)) by lia. done.
Qed.

Lemma month_loop_range {St} (body : Z -> Z -> St -> St * option string)
      ey em : 1 <= em <= 12 ->
  forall fuel sy sm st,
    1 <= sm <= 12 ->
    (length (month_range sy sm ey em) < fuel)%nat ->
    month_loop body fuel sy sm ey em st =
    Some (run_months body (month_range sy sm ey em) st).
Proof.
  intros Hem. induction fuel as [|fuel IH]; intros sy sm st Hsm Hfuel; [lia|].
  cbn [month_loop].
  destruct ((sy <? ey) || ((sy =? ey) && (sm <=? em))) eqn:Hcond.
  - assert (1 <= 12 * (ey - sy) + em - sm + 1) as Hn.
    { apply orb_true_iff in Hcond as [H|[H1 H2]%andb_true_iff]; lia. }
    rewrite (month_range_cons sy sm ey em) in * by done.
    cbn [run_months]. cbn [length] in Hfuel.
    destruct (body sy sm st) as [st' [msg|]]; [done|].
    destruct (Z.eqb_spec sm 12) as [->|Hne]; apply IH; lia.
  - rewrite month_range_nil; [done|].
    apply orb_false_iff in Hcond as [H1 [H2|H2]%andb_false_iff]; lia.
Qed.

End MonthLoopFacts.

(** X3.  [process_past_articles] ends for every start and end taken among
    the calendar months: it runs [process_article] once for each month from
    the start to the end, in calendar order, that is [12 * (end_year -
    start_year) + end_month - start_month + 1] times when this number is
    positive and not at all otherwise, and it stops at the first month whose
    processing raises. *)
Theorem process_past_articles_visits
        (urljoin : string -> string -> string)
        (get_page : string -> Backfill.fetched)
        (http_get : string -> result Http.response)
        (read_pdf : Http.bytes -> result (list (option string)))
        (fuel : nat) (sy sm ey em : Z) (st : Backfill.bstate) :
  1 <= sm <= 12 -> 1 <= em <= 12 ->
  (Z.to_nat (12 * (ey - sy) + em - sm + 1) < fuel)%nat ->
  length (PastArticles.month_range sy sm ey em)
    = Z.to_nat (12 * (ey - sy) + em - sm + 1) /\
  PastArticles.process_past_articles urljoin get_page http_get read_pdf
    fuel sy sm ey em st =
  Some (PastArticles.run_months
          (PastArticles.process_article urljoin get_page http_get read_pdf)
          (PastArticles.month_range sy sm ey em) st).
Proof.
  intros Hsm Hem Hfuel.
  assert (Hlen : length (PastArticles.month_range sy sm ey em)
                 = Z.to_nat (12 * (ey - sy) + em - sm + 1)).
  { unfold PastArticles.month_range. by rewrite length_fmap, length_seq. }
  split; [done|].
  unfold PastArticles.process_past_articles.
  apply month_loop_range; [done|done|]. by rewrite Hlen.
Qed.

(** ** Titles from file names (tools/prep_ccps_supabase_csv.py) *)

Lemma process_past_articles_visits_witness :
  length (PastArticles.month_range 2020 4 2020 6) = 3%nat /\
  PastArticles.process_past_articles UrlModel.urljoin BackfillExamples.get_issue
    HarvestExamples.get_ok HarvestExamples.pdf_readable
    10 2020 4 2020 6 BackfillExamples.fresh =
  Some (PastArticles.run_months
          (PastArticles.process_article UrlModel.urljoin
             BackfillExamples.get_issue HarvestExamples.get_ok
             HarvestExamples.pdf_readable)
          (PastArticles.month_range 2020 4 2020 6) BackfillExamples.fresh).
Proof.
  apply (process_past_articles_visits UrlModel.urljoin BackfillExamples.get_issue
           HarvestExamples.get_ok HarvestExamples.pdf_readable
           10 2020 4 2020 6 BackfillExamples.fresh); [lia|lia|simpl; lia].
Defined.

(** X4.  [derive_title]: a JSON title that is not blank wins and is returned
    stripped. Without one, a file name that starts with a year of four
    digits, a hyphen and two digits of month, as the harvester writes them,
    is read back: the title names that year and, for a calendar month, the
    English name of the month, followed by the file name. *)
Theorem derive_title_reads_file_name (y m : Z) (rest : string)
        (title : option string) :
  1000 <= y <= 9999 -> 0 <= m <= 99 ->
  let stem := Discover.str_of_Z y +:+ "-" +:+ PdfText.fmt_02d m +:+ rest in
  (PyStr.strip (default EmptyString title) = EmptyString ->
   Prep.derive_title stem title =
     "Process Safety Beacon (English) - " +:+ Prep.month_name m +:+ " " +:+
     Discover.str_of_Z y +:+ " [" +:+ stem +:+ "]") /\
  (PyStr.strip (default EmptyString title) <> EmptyString ->
   Prep.derive_title stem title = PyStr.strip (default EmptyString title)) /\
  (1 <= m <= 12 ->
   PastArticles.month_to_name m = Some (PyStr.lower (Prep.month_name m))).
Proof.
  intros Hy Hm stem. split; [|split].
  - intros Hblank. unfold Prep.derive_title. rewrite Hblank.
    destruct (str_of_Z_nonneg y) as [Hyv Hyd]; [lia|].
    destruct (fmt_02d_value m) as [Hmv Hmd]; [lia|].
    pose proof (year_length y Hy) as Hylen.
    pose proof (fmt_02d_length m Hm) as Hmlen.
    assert (Prep.match_year_month stem
            = Some (Discover.str_of_Z y, PdfText.fmt_02d m)) as ->.
    { unfold Prep.match_year_month, stem.
      rewrite (take_str_exact 4), (drop_str_exact 4) by done.
      rewrite Hylen, Hyd. cbn [Nat.eqb andb].
      rewrite append_cons, append_empty_l.
      rewrite (take_str_exact 2) by done. by rewrite Hmlen, Hmd. }
    by rewrite Hyv, Hmv.
  - intros Husable. unfold Prep.derive_title.
    by destruct (PyStr.strip (default EmptyString title)).
  - intros Hcal.
    assert (m = 1 \/ m = 2 \/ m = 3 \/ m = 4 \/ m = 5 \/ m = 6 \/ m = 7 \/
            m = 8 \/ m = 9 \/ m = 10 \/ m = 11 \/ m = 12) as Hcases by lia.
    repeat (destruct Hcases as [->|Hcases]; [reflexivity|]). by subst.
Qed.

Lemma derive_title_reads_file_name_witness :
  Prep.derive_title (Harvest.pdf_filename 2001 11) (Some "  ")
    = "Process Safety Beacon (English) - November 2001 [2001-11-Beacon-English.pdf]" /\
  Prep.derive_title (Harvest.pdf_filename 2001 11) (Some " Hot Work ")
    = "Hot Work" /\
  PastArticles.month_to_name 11 = Some "november".
Proof.
  destruct (derive_title_reads_file_name 2001 11 "-Beacon-English.pdf" (Some "  "))
    as [Hname _]; [lia|lia|].
  destruct (derive_title_reads_file_name 2001 11 "-Beacon-English.pdf"
              (Some " Hot Work ")) as [_ [Htitle Hmonth]]; [lia|lia|].
  split; [apply Hname; reflexivity|].
  split; [apply Htitle; discriminate|apply Hmonth; lia].
Defined.

(** ** File names of the tools harvester *)

Section FileNameFacts.
Import PyStr Discover Backfill.

Lemma unsafe_run_none c (s : string) :
  unsafe_run (String c s) = None -> is_safe c = true.
Proof.
  unfold unsafe_run. cbn [span].
  destruct (is_safe c); [done|]. cbn [negb].
  by destruct (span (fun c0 => negb (is_safe c0)) s).
Qed.

Lemma unsafe_run_safe c (s : string) :
  is_safe c = true -> unsafe_run (String c s) = None.
Proof. intros H. unfold unsafe_run. cbn [span]. by rewrite H. Qed.

Lemma scan_unsafe_chars c (s : string) : forall skip,
  mem_char c (scan_sub unsafe_run "_" skip s) = true -> is_safe c = true.
Proof.
  induction s as [|d s IH]; intros skip; [done|].
  cbn [scan_sub]. destruct skip as [|k]; [|apply IH].
  destruct (unsafe_run (String d s)) as [n|] eqn:Hrun.
  - rewrite append_cons, append_empty_l. cbn [mem_char].
    intros [->%Ascii.eqb_eq|H]%orb_true_iff; [done|]. by apply IH in H.
  - cbn [mem_char]. intros [->%Ascii.eqb_eq|H]%orb_true_iff.
    + by apply unsafe_run_none in Hrun.
    + by apply IH in H.
Qed.

Lemma scan_unsafe_id (s : string) :
  all_chars is_safe s = true -> scan_sub unsafe_run "_" 0 s = s.
Proof.
  induction s as [|d s IH]; [done|]. cbn [all_chars scan_sub].
  intros [Hd Hs]%andb_true_iff. rewrite (unsafe_run_safe _ _ Hd).
  by rewrite IH.
Qed.

Lemma last_segment_id (s : string) :
  mem_char "/" s = false -> last_segment s = s.
Proof.
  destruct s as [|c s]; [done|]. cbn [mem_char last_segment].
  intros [Hc Hs]%orb_false_iff. rewrite Hs.
  rewrite Ascii.eqb_sym in Hc. by rewrite Hc.
Qed.

Lemma all_chars_mem p (s : string) :
  (forall c, mem_char c s = true -> p c = true) -> all_chars p s = true.
Proof.
  induction s as [|d s IH]; [done|]. intros H. cbn [all_chars].
  rewrite IH, andb_true_r.
  - apply H. cbn. by rewrite Ascii.eqb_refl.
  - intros c Hc. apply H. cbn. by rewrite Hc, orb_true_r.
Qed.

Lemma replace_absent old new (s : string) :
  contains old s = false -> replace old new s = s.
Proof.
  unfold replace, lit. induction s as [|c s IH]; [done|].
  cbn [contains scan_sub]. intros [Hp Hs]%orb_false_iff.
  rewrite Hp. by rewrite IH.
Qed.

Lemma scan_lit_cons old new c (s : string) :
  scan_sub (lit old) new 0 (String c s) =
  if startswith (String c s) old
  then new +:+ scan_sub (lit old) new (Nat.pred (String.length old)) s
  else String c (scan_sub (lit old) new 0 s).
Proof.
  cbn [scan_sub]. unfold lit at 1.
  by destruct (startswith (String c s) old).
Qed.

Lemma replace_pdf_grows (s : string) : forall k,
  (String.length s <= String.length (scan_sub (lit ".pdf") ".json" k s) + k)%nat /\
  (contains ".pdf" (drop_str k s) = true ->
   String.length s < String.length (scan_sub (lit ".pdf") ".json" k s) + k)%nat.
Proof.
  induction s as [|c s IH]; intros k.
  - split; [cbn; lia|]. by destruct k.
  - destruct k as [|k].
    + rewrite scan_lit_cons. cbn [drop_str].
      destruct (startswith (String c s) ".pdf") eqn:Hp.
      * destruct (IH 3%nat) as [Hle _].
        rewrite length_append.
        change (Nat.pred (String.length ".pdf")) with 3%nat.
        change (String.length ".json") with 5%nat.
        cbn [String.length]. split; lia.
      * destruct (IH 0%nat) as [Hle Hlt]. cbn [String.length drop_str] in *.
        split; [lia|]. cbn [contains]. rewrite Hp. cbn [orb].
        intros H. apply Hlt in H. lia.
    + cbn [scan_sub]. destruct (IH k) as [Hle Hlt]. cbn [String.length drop_str].
      split; [lia|]. intros H. apply Hlt in H. lia.
Qed.

End FileNameFacts.

(** X5.  [safe_filename_from_pdf_url] gives a name made only of letters,
    digits, dots, underscores and hyphens, so without any slash; a name that
    is already of this kind is left as it is, and applying the function
    twice changes nothing more. *)
Theorem safe_filename_is_safe (pdf_url : string) :
  let name := Backfill.safe_filename_from_pdf_url pdf_url in
  Discover.all_chars Backfill.is_safe name = true /\
  PyStr.mem_char "/" name = false /\
  Backfill.safe_filename_from_pdf_url name = name /\
  (Discover.all_chars Backfill.is_safe pdf_url = true -> name = pdf_url).
Proof.
  intros name.
  assert (Hsafe : Discover.all_chars Backfill.is_safe name = true).
  { apply all_chars_mem. intros c. apply scan_unsafe_chars. }
  assert (Hslash : forall s : string,
            Discover.all_chars Backfill.is_safe s = true ->
            PyStr.mem_char "/" s = false).
  { intros s. induction s as [|d s IH]; [done|]. cbn [Discover.all_chars PyStr.mem_char].
    intros [Hd Hs]%andb_true_iff. rewrite (IH Hs), orb_false_r.
    apply Ascii.eqb_neq. intros <-. by vm_compute in Hd. }
  assert (Hid : forall s : string,
            Discover.all_chars Backfill.is_safe s = true ->
            Backfill.safe_filename_from_pdf_url s = s).
  { intros s Hs. unfold Backfill.safe_filename_from_pdf_url.
    rewrite last_segment_id by auto. by apply scan_unsafe_id. }
  split; [done|]. split; [by apply Hslash|]. split; [by apply Hid|].
  apply Hid.
Qed.

Lemma safe_filename_is_safe_witness :
  Backfill.safe_filename_from_pdf_url "2020-05-Beacon-English.pdf"
    = "2020-05-Beacon-English.pdf".
Proof.
  destruct (safe_filename_is_safe "2020-05-Beacon-English.pdf")
    as (_ & _ & _ & Hid).
  apply Hid. reflexivity.
Defined.

(** X6.  The JSON sidecar of a download is written next to the PDF under
    [pdf_name.replace(".pdf", ".json")]: its path differs from the path of
    the PDF exactly when the file name contains ".pdf" in lower case. For
    any other name (an upper-case extension, a download link without
    extension) the two paths are the same. *)
Theorem sidecar_path_clash (pdf_url : string) :
  let pdf_name := Backfill.safe_filename_from_pdf_url pdf_url in
  let pdf_path := Backfill.DOWNLOAD_DIR +:+ pdf_name in
  let json_path :=
    Backfill.DOWNLOAD_DIR +:+ PyStr.replace ".pdf" ".json" pdf_name in
  json_path = pdf_path <-> PyStr.contains ".pdf" pdf_name = false.
Proof.
  intros pdf_name pdf_path json_path. subst pdf_path json_path. split.
  - intros Heq. destruct (PyStr.contains ".pdf" pdf_name) eqn:Hc; [|done].
    destruct (replace_pdf_grows pdf_name 0) as [_ Hlt].
    specialize (Hlt Hc). apply (f_equal String.length) in Heq.
    rewrite !length_append in Heq. unfold PyStr.replace in Heq. lia.
  - intros Hc. by rewrite replace_absent.
Qed.

(** ** Re-entry in the tools harvester *)

Section BackfillMoreFacts.
Import Html Http Backfill.
Variable urljoin : string -> string -> string.
Variable get_page : string -> fetched.
Variable http_get : string -> result response.
Variable read_pdf : bytes -> result (list (option string)).

Local Abbreviation step := (Backfill.step urljoin get_page http_get read_pdf).
Local Abbreviation backfill := (Backfill.backfill urljoin get_page http_get read_pdf).

Lemma step_t_subset ep st : b_processed st ⊆ b_processed (step ep st).1.
Proof.
  destruct (step_t_effect urljoin get_page http_get read_pdf ep st)
    as [[-> _]|(p & -> & _)]; set_solver.
Qed.

Lemma backfill_subset pages : forall st,
  b_processed st ⊆ b_processed (backfill pages st).1.
Proof.
  induction pages as [|ep pages IH]; intros st; [done|].
  destruct (backfill_cons urljoin get_page http_get read_pdf ep pages st)
    as [-> | ->].
  - apply step_t_subset.
  - etrans; [apply step_t_subset|apply IH].
Qed.

Lemma step_t_fetches ep st : Ev ep (FetchPage ep) ∈ b_trace (step ep st).1.
Proof.
  unfold Backfill.step.
  repeat (case_match; cbn [fst snd]); cbn;
    rewrite ?elem_of_app, ?list_elem_of_singleton; auto 10.
Qed.

(** What an iteration adds to the trace. *)
Lemma step_t_new_events ep st e :
  e ∈ b_trace (step ep st).1 ->
  e ∈ b_trace st \/
  match ev_op e with
  | FetchPage _ => True
  | Download p => p ∉ b_processed st
  | WriteJson _ sc => meta_pdf_url sc ∉ b_processed st
  end.
Proof.
  set (new := fun e : event =>
         match ev_op e with
         | FetchPage _ => True
         | Download p => p ∉ b_processed st
         | WriteJson _ sc => meta_pdf_url sc ∉ b_processed st
         end).
  change (e ∈ b_trace (step ep st).1 -> e ∈ b_trace st \/ new e).
  assert (HF : forall u, new (Ev ep (FetchPage u))) by done.
  assert (HD : forall p, p ∉ b_processed st -> new (Ev ep (Download p))) by done.
  assert (HW : forall p path u text, p ∉ b_processed st ->
                 new (Ev ep (WriteJson path (Sidecar u p text)))) by done.
  clearbody new.
  unfold Backfill.step.
  destruct (fetch_html (get_page ep)) as [pg|msg]; cbn [fst snd].
  2:{ cbn. rewrite elem_of_app, list_elem_of_singleton.
      intros [H| ->]; [by left|by right]. }
  destruct (Extract.extract_pdf_url_t urljoin pg ep) as [[|c p]|]; cbn [fst snd].
  1,3: cbn; rewrite elem_of_app, list_elem_of_singleton;
    intros [H| ->]; [by left|by right].
  cbn [b_processed add_event].
  destruct (bool_decide_reflect (String c p ∈ b_processed st)) as [Hin|Hnin];
    cbn [fst snd].
  { cbn. rewrite elem_of_app, list_elem_of_singleton.
    intros [H| ->]; [by left|by right]. }
  repeat (case_match; cbn [fst snd]); cbn;
    rewrite ?elem_of_app, ?list_elem_of_singleton;
    intuition (subst; auto).
Qed.

Lemma backfill_new_events pages : forall st e,
  e ∈ b_trace (backfill pages st).1 ->
  e ∈ b_trace st \/
  match ev_op e with
  | FetchPage _ => True
  | Download p => p ∉ b_processed st
  | WriteJson _ sc => meta_pdf_url sc ∉ b_processed st
  end.
Proof.
  induction pages as [|ep pages IH]; intros st e He; [by left|].
  destruct (backfill_cons urljoin get_page http_get read_pdf ep pages st)
    as [Hb|Hb]; rewrite Hb in He.
  - by apply (step_t_new_events ep st).
  - apply IH in He as [He|He]; [by apply (step_t_new_events ep st)|right].
    pose proof (step_t_subset ep st) as Hsub.
    destruct (ev_op e); [done|set_solver..].
Qed.

Lemma backfill_fetches pages : forall st,
  (backfill pages st).2 = None ->
  forall ep, ep ∈ pages -> Ev ep (FetchPage ep) ∈ b_trace (backfill pages st).1.
Proof.
  induction pages as [|p pages IH]; intros st Hok ep Hep.
  { by apply elem_of_nil in Hep. }
  cbn [Backfill.backfill] in *.
  pose proof (step_t_fetches p st) as Hp.
  destruct (step p st) as [st' [msg|]] eqn:Hstep; [done|]. cbn [fst] in Hp.
  apply elem_of_cons in Hep as [->|Hep].
  - clear Hok. revert Hp. generalize (Ev p (FetchPage p)). intros e He.
    clear IH Hstep. revert st' He.
    induction pages as [|q pages IH]; intros st' He; [done|].
    destruct (backfill_cons urljoin get_page http_get read_pdf q pages st')
      as [-> | ->].
    + by apply step_t_trace.
    + by apply IH, step_t_trace.
  - by apply IH.
Qed.

End BackfillMoreFacts.

(** X7.  The tools harvester asks for every discovered issue page on every
    run, whether processed or not, since its Progress Set holds PDF URLs
    that it only learns from the page; but a PDF whose URL is in the set
    when the run starts is neither downloaded nor written again. *)
Theorem backfill_fetches_pages_again
        (urljoin : string -> string -> string)
        (get_page : string -> Backfill.fetched)
        (http_get : string -> result Http.response)
        (read_pdf : Http.bytes -> result (list (option string)))
        (pages : list string) (st : Backfill.bstate) :
  let run := Backfill.backfill urljoin get_page http_get read_pdf pages st in
  (run.2 = None ->
   forall ep, ep ∈ pages ->
     Backfill.Ev ep (Backfill.FetchPage ep) ∈ Backfill.b_trace run.1) /\
  (forall ep p,
     Backfill.Ev ep (Backfill.Download p) ∈ Backfill.b_trace run.1 ->
     Backfill.Ev ep (Backfill.Download p) ∈ Backfill.b_trace st \/
     p ∉ Backfill.b_processed st) /\
  (forall ep path sc,
     Backfill.Ev ep (Backfill.WriteJson path sc) ∈ Backfill.b_trace run.1 ->
     Backfill.Ev ep (Backfill.WriteJson path sc) ∈ Backfill.b_trace st \/
     Backfill.meta_pdf_url sc ∉ Backfill.b_processed st).
Proof.
  intros run. split; [|split].
  - intros Hok ep Hep. by apply backfill_fetches.
  - intros ep p He. by apply backfill_new_events in He as [He|He]; auto.
  - intros ep path sc He. by apply backfill_new_events in He as [He|He]; auto.
Qed.

(** ** State file, counters and remote store of the backend harvester *)

Section HarvestMoreFacts.
Import PyStr Html Http Discover PdfText Harvest.
Variable urljoin : string -> string -> string.
Variable fetch : string -> result page.
Variable http_get : string -> result response.
Variable read_pdf : bytes -> result (list (option string)).
Variable upload_fails : string -> string -> bytes -> option string.
Variable upsert_fails : string -> payload -> option string.
Variable a : args.

Local Abbreviation try_body := (try_body urljoin fetch http_get read_pdf upload_fails upsert_fails a).
Local Abbreviation step := (step urljoin fetch http_get read_pdf upload_fails upsert_fails a).
Local Abbreviation harvest := (harvest urljoin fetch http_get read_pdf upload_fails upsert_fails a).

Lemma sorted_set_round_trip (s : gset string) :
  load_processed (Some (sorted_set s)) = s /\
  Sorted str_le (sorted_set s) /\ NoDup (sorted_set s).
Proof.
  unfold load_processed, sorted_set. cbn [from_option]. unfold id.
  split; [|split].
  - rewrite (list_to_set_perm_L _ _ (merge_sort_Permutation str_le (elements s))).
    apply list_to_set_elements_L.
  - apply Sorted_merge_sort. intros x y. apply String.leb_total.
  - rewrite merge_sort_Permutation. apply NoDup_elements.
Qed.

(** How an iteration moves the two counters and the skip log, and when it
    leaves the loop. *)
Lemma step_counters u st :
  ((step u st) = (st, true) /\ arg_force a = false /\ u ∈ h_processed st) \/
  (h_done (step u st).1 = h_done st /\
   h_skipped (step u st).1 = h_skipped st + 1 /\
   length (h_skipped_log (step u st).1) = S (length (h_skipped_log st)) /\
   (step u st).2 = true) \/
  (h_done (step u st).1 = h_done st + 1 /\
   h_skipped (step u st).1 = h_skipped st /\
   h_skipped_log (step u st).1 = h_skipped_log st /\
   (step u st).2 = match arg_limit a with
                   | Some limit => negb (limit <=? h_done (step u st).1)
                   | None => true
                   end).
Proof.
  unfold Harvest.step.
  destruct (negb (arg_force a) && bool_decide (u ∈ h_processed st)) eqn:Hskip.
  { left. apply andb_true_iff in Hskip as [Hf Hin].
    apply negb_true_iff in Hf. by apply bool_decide_eq_true_1 in Hin. }
  right.
  destruct (parse_year_month_from_english_url u) as [[y m]|].
  2:{ left. cbn. rewrite length_app. cbn. split; [done|]. split; [done|].
      split; [lia|done]. }
  pose proof (try_body_result urljoin fetch http_get read_pdf upload_fails
                upsert_fails a u y m st) as Hb.
  destruct (try_body u y m st) as [st1 o]. cbn [fst snd] in *.
  destruct Hb as [st' row data Hp Hf Hl Ht Hs Hst Hd Hk|
                  st' Hp Hf Hl Ht Hst Hd Hk|
                  st' msg Hp Hf Hl Ht Hst Hd Hk].
  - right. by destruct (arg_limit a).
  - left. cbn [fst snd]. rewrite Hl, length_app. cbn. split; [done|].
    split; [done|]. split; [lia|done].
  - left. cbn. rewrite Hl, Hd, Hk, length_app. cbn. split; [done|].
    split; [done|]. split; [lia|done].
Qed.

Lemma harvest_limit_bound pages limit : arg_limit a = Some limit ->
  forall st, h_done (harvest pages st) <= Z.max limit (h_done st + 1) /\
             h_done st <= h_done (harvest pages st).
Proof.
  intros Hlim. induction pages as [|u pages IH]; intros st; [cbn; lia|].
  cbn [Harvest.harvest].
  destruct (step_counters u st) as [(Hs & _)|[(Hd & _ & _ & Hgo)|(Hd & _ & _ & Hgo)]].
  - rewrite Hs. apply IH.
  - destruct (step u st) as [st' go]. cbn [fst snd] in *. subst go.
    specialize (IH st'). lia.
  - rewrite Hlim in Hgo.
    destruct (step u st) as [st' go]. cbn [fst snd] in *. subst go.
    destruct (Z.leb_spec limit (h_done st')); cbn [negb].
    + lia.
    + specialize (IH st'). lia.
Qed.

Lemma harvest_counts pages : forall st,
  let run := harvest pages st in
  h_skipped run - h_skipped st =
    Z.of_nat (length (h_skipped_log run)) - Z.of_nat (length (h_skipped_log st)) /\
  h_done st <= h_done run /\
  h_skipped st <= h_skipped run /\
  (h_done run - h_done st) + (h_skipped run - h_skipped st)
    <= Z.of_nat (length pages) /\
  (arg_force a = true -> arg_limit a = None ->
   (h_done run - h_done st) + (h_skipped run - h_skipped st)
     = Z.of_nat (length pages)).
Proof.
  induction pages as [|u pages IH]; intros st run; subst run.
  { cbn. repeat split; lia. }
  cbn [Harvest.harvest length].
  destruct (step_counters u st)
    as [(Hs & Hf & _)|[(Hd & Hk & Hl & Hgo)|(Hd & Hk & Hl & Hgo)]].
  - rewrite Hs. destruct (IH st) as (H1 & H2 & H3 & H4 & H5).
    repeat split; try lia. intros Hforce. congruence.
  - destruct (step u st) as [st' go]. cbn [fst snd] in *. subst go.
    destruct (IH st') as (H1 & H2 & H3 & H4 & H5).
    repeat split; try lia. intros Hforce Hnolim.
    specialize (H5 Hforce Hnolim). lia.
  - destruct (step u st) as [st' go]. cbn [fst snd] in *.
    destruct go.
    + destruct (IH st') as (H1 & H2 & H3 & H4 & H5). rewrite Hl in *.
      repeat split; try lia. intros Hforce Hnolim.
      specialize (H5 Hforce Hnolim). lia.
    + rewrite Hl. repeat split; try lia.
      intros _ Hnolim. by rewrite Hnolim in Hgo.
Qed.

Lemma step_state_file u st :
  (h_state_file (step u st).1 = h_state_file st /\
   h_processed (step u st).1 = h_processed st) \/
  persisted (step u st).1.
Proof.
  destruct (step_cases urljoin fetch http_get read_pdf upload_fails
              upsert_fails a u st)
    as [(_ & _ & ->)|[(_ & _ & ->)|(_ & y & m & _ & ->)]]; [by left..|].
  pose proof (try_body_result urljoin fetch http_get read_pdf upload_fails
                upsert_fails a u y m st) as Hb.
  destruct (try_body u y m st) as [st1 o]. cbn [fst snd] in *.
  destruct Hb as [st' row data Hp Hf|st' Hp Hf|st' msg Hp Hf]; cbn.
  - by right.
  - by right.
  - by left.
Qed.

Lemma harvest_state_file pages : forall st,
  (h_state_file (harvest pages st) = h_state_file st /\
   h_processed (harvest pages st) = h_processed st) \/
  persisted (harvest pages st).
Proof.
  induction pages as [|u pages IH]; intros st; [by left|].
  destruct (harvest_cons urljoin fetch http_get read_pdf upload_fails
              upsert_fails a u pages st) as [-> | ->].
  - apply step_state_file.
  - destruct (step_state_file u st) as [[Hf Hp]|Hper].
    + destruct (IH (step u st).1) as [[Hf' Hp']|Hper]; [left|by right].
      by rewrite Hf', Hp'.
    + right. by apply harvest_persisted.
Qed.

Lemma step_keeps u st :
  (forall x, is_Some (h_table st !! x) -> is_Some (h_table (step u st).1 !! x)) /\
  (forall k, is_Some (h_storage st !! k) ->
             is_Some (h_storage (step u st).1 !! k)).
Proof.
  destruct (step_cases urljoin fetch http_get read_pdf upload_fails
              upsert_fails a u st)
    as [(_ & _ & ->)|[(_ & _ & ->)|(_ & y & m & _ & ->)]]; [done..|].
  pose proof (try_body_result urljoin fetch http_get read_pdf upload_fails
                upsert_fails a u y m st) as Hb.
  destruct (try_body u y m st) as [st1 o]. cbn [fst snd] in *.
  destruct Hb as [st' row data Hp Hf Hl Ht Hs Hst|st' Hp Hf Hl Ht Hst|
                  st' msg Hp Hf Hl Ht Hst]; cbn; rewrite Ht.
  - split.
    + intros x Hx. destruct (decide (u = x)) as [->|Hne];
        [by rewrite lookup_insert_eq|by rewrite lookup_insert_ne].
    + intros k Hk. rewrite Hst.
      destruct (decide ((pdf_bucket row, pdf_path row) = k)) as [->|Hne];
        [by rewrite lookup_insert_eq|by rewrite lookup_insert_ne].
  - by rewrite Hst.
  - done.
Qed.

Lemma harvest_keeps pages : forall st,
  (forall x, is_Some (h_table st !! x) ->
             is_Some (h_table (harvest pages st) !! x)) /\
  (forall k, is_Some (h_storage st !! k) ->
             is_Some (h_storage (harvest pages st) !! k)) /\
  (forall x, x ∉ pages -> h_table (harvest pages st) !! x = h_table st !! x).
Proof.
  induction pages as [|u pages IH]; intros st; [done|].
  destruct (step_keeps u st) as [Ht Hs].
  assert (Hx : forall x, x ∉ u :: pages ->
            h_table (step u st).1 !! x = h_table st !! x).
  { intros x [Hne _]%not_elem_of_cons. by apply step_table. }
  destruct (harvest_cons urljoin fetch http_get read_pdf upload_fails
              upsert_fails a u pages st) as [-> | ->]; [done|].
  destruct (IH (step u st).1) as (Ht' & Hs' & Hx').
  split; [|split]; [by auto..|].
  intros x Hnx. pose proof Hnx as [_ Hrest]%not_elem_of_cons.
  by rewrite Hx', Hx.
Qed.

End HarvestMoreFacts.

(** X8.  The state file and the Progress Set go together: when a run has
    saved the state file, the list it holds is sorted and free of duplicates
    and a later run that loads it starts from exactly the set this run ended
    with; when a run has not saved it, the set is still the one that was
    loaded. *)
Theorem state_file_round_trip
        (urljoin : string -> string -> string)
        (fetch : string -> result Html.page)
        (http_get : string -> result Http.response)
        (read_pdf : Http.bytes -> result (list (option string)))
        (upload_fails : string -> string -> Http.bytes -> option string)
        (upsert_fails : string -> Harvest.payload -> option string)
        (a : Harvest.args) (pages : list string)
        (file : option (list string)) (files : gmap string Http.bytes)
        (storage : gmap (string * string) Http.bytes)
        (table : gmap string Harvest.payload) :
  let run :=
    Harvest.harvest urljoin fetch http_get read_pdf upload_fails upsert_fails
                    a pages (Harvest.initial file files storage table) in
  match Harvest.h_state_file run with
  | Some saved =>
      Harvest.load_processed (Some saved) = Harvest.h_processed run /\
      Sorted Harvest.str_le saved /\ NoDup saved
  | None => Harvest.h_processed run = Harvest.load_processed file
  end.
Proof.
  intros run.
  destruct (harvest_state_file urljoin fetch http_get read_pdf upload_fails
              upsert_fails a pages (Harvest.initial file files storage table))
    as [[Hf Hp]|Hper]; fold run in Hf, Hp || fold run in Hper.
  - rewrite Hf. done.
  - rewrite Hper. apply sorted_set_round_trip.
Qed.

(** X9.  With [--limit N] a run stores at most [N] issues, and at most one
    when [N] is zero or negative: the test that leaves the loop comes after
    an issue has been stored. *)
Theorem limit_bounds_stored_issues
        (urljoin : string -> string -> string)
        (fetch : string -> result Html.page)
        (http_get : string -> result Http.response)
        (read_pdf : Http.bytes -> result (list (option string)))
        (upload_fails : string -> string -> Http.bytes -> option string)
        (upsert_fails : string -> Harvest.payload -> option string)
        (a : Harvest.args) (pages : list string)
        (file : option (list string)) (files : gmap string Http.bytes)
        (storage : gmap (string * string) Http.bytes)
        (table : gmap string Harvest.payload) (limit : Z) :
  Harvest.arg_limit a = Some limit ->
  let run :=
    Harvest.harvest urljoin fetch http_get read_pdf upload_fails upsert_fails
                    a pages (Harvest.initial file files storage table) in
  0 <= Harvest.h_done run <= Z.max limit 1.
Proof.
  intros Hlim run.
  destruct (harvest_limit_bound urljoin fetch http_get read_pdf upload_fails
              upsert_fails a pages limit Hlim
              (Harvest.initial file files storage table)) as [Hle Hge].
  fold run in Hle, Hge. cbn in Hle, Hge. lia.
Qed.

Lemma limit_bounds_stored_issues_witness :
  0 <= Harvest.h_done
         (Harvest.harvest UrlModel.urljoin HarvestExamples.fetch_issue
            HarvestExamples.get_ok HarvestExamples.pdf_readable
            HarvestExamples.upload_ok HarvestExamples.upsert_ok
            (Harvest.Args "ccps_chaser_articles" "ccps-pdfs" true (Some 0))
            [HarvestExamples.issue_url; HarvestExamples.issue_url]
            (Harvest.initial None ∅ ∅ ∅))
    <= Z.max 0 1.
Proof.
  apply (limit_bounds_stored_issues UrlModel.urljoin HarvestExamples.fetch_issue
           HarvestExamples.get_ok HarvestExamples.pdf_readable
           HarvestExamples.upload_ok HarvestExamples.upsert_ok
           (Harvest.Args "ccps_chaser_articles" "ccps-pdfs" true (Some 0))
           [HarvestExamples.issue_url; HarvestExamples.issue_url]
           None ∅ ∅ ∅ 0).
  reflexivity.
Defined.

(** X10.  The two counters of the closing log line: [skipped] counts the
    entries that the run appended to the skip log, no page is counted twice,
    and with [--force] and no [--limit] every discovered page is counted, as
    stored or as skipped. *)
Theorem run_counters
        (urljoin : string -> string -> string)
        (fetch : string -> result Html.page)
        (http_get : string -> result Http.response)
        (read_pdf : Http.bytes -> result (list (option string)))
        (upload_fails : string -> string -> Http.bytes -> option string)
        (upsert_fails : string -> Harvest.payload -> option string)
        (a : Harvest.args) (pages : list string)
        (file : option (list string)) (files : gmap string Http.bytes)
        (storage : gmap (string * string) Http.bytes)
        (table : gmap string Harvest.payload) :
  let run :=
    Harvest.harvest urljoin fetch http_get read_pdf upload_fails upsert_fails
                    a pages (Harvest.initial file files storage table) in
  Harvest.h_skipped run = Z.of_nat (length (Harvest.h_skipped_log run)) /\
  0 <= Harvest.h_done run /\
  Harvest.h_done run + Harvest.h_skipped run <= Z.of_nat (length pages) /\
  (Harvest.arg_force a = true -> Harvest.arg_limit a = None ->
   Harvest.h_done run + Harvest.h_skipped run = Z.of_nat (length pages)).
Proof.
  intros run.
  destruct (harvest_counts urljoin fetch http_get read_pdf upload_fails
              upsert_fails a pages (Harvest.initial file files storage table))
    as (H1 & H2 & H3 & H4 & H5).
  fold run in H1, H2, H3, H4, H5. cbn in H1, H2, H3, H4, H5.
  repeat split; try lia. intros Hf Hl. specialize (H5 Hf Hl). lia.
Qed.

(** X11.  A run never deletes anything from the remote store: a row or an
    object that was there before is still there afterwards (a row may have
    been replaced), and the rows of pages that are not among the discovered
    ones are exactly as they were. *)
Theorem remote_store_only_grows
        (urljoin : string -> string -> string)
        (fetch : string -> result Html.page)
        (http_get : string -> result Http.response)
        (read_pdf : Http.bytes -> result (list (option string)))
        (upload_fails : string -> string -> Http.bytes -> option string)
        (upsert_fails : string -> Harvest.payload -> option string)
        (a : Harvest.args) (pages : list string) (st : Harvest.hstate) :
  let run :=
    Harvest.harvest urljoin fetch http_get read_pdf upload_fails upsert_fails
                    a pages st in
  (forall x, is_Some (Harvest.h_table st !! x) ->
             is_Some (Harvest.h_table run !! x)) /\
  (forall k, is_Some (Harvest.h_storage st !! k) ->
             is_Some (Harvest.h_storage run !! k)) /\
  (forall x, x ∉ pages -> Harvest.h_table run !! x = Harvest.h_table st !! x).
Proof. intros run. apply harvest_keeps. Qed.

(** ** Pagination of archive discovery *)

Section DiscoverMoreFacts.
Import PyStr Html Discover.
Variable urljoin : string -> string -> string.
Variable page_param : string -> option Z.
Variable fetch : string -> result page.

Lemma range_from_zero n :
  Py.range 0 n 1 = Some (Z.of_nat <$> seq 0 (Z.to_nat n)).
Proof.
  unfold Py.range. cbn [Z.eqb Z.ltb Z.compare].
  destruct (Z.ltb_spec 0 n) as [Hpos|Hneg].
  - rewrite Z.div_1_r. replace (n - 0 - 1 + 1) with n by lia.
    f_equal. apply list_fmap_ext. intros i k _. lia.
  - by replace (Z.to_nat n) with 0%nat by lia.
Qed.

Lemma discover_loop_fetched min_year idx : forall st st' e,
  discover_loop urljoin fetch min_year idx st = Ok (st', e) ->
  exists k, (k <= length idx)%nat /\
    d_fetched st' = d_fetched st ++ (page_url <$> take k idx) /\
    (e = Exhausted -> k = length idx).
Proof.
  induction idx as [|page rest IH]; intros st st' e; cbn [discover_loop].
  - intros [= <- <-]. exists 0%nat. by rewrite app_nil_r.
  - destruct (fetch (page_url page)) as [pg|msg]; [|done].
    destruct (extract_english_links_from_archive_page urljoin pg) as [|u0 links'].
    { intros [= <- <-]. exists 1%nat. cbn. rewrite take_0.
      split; [lia|]. split; [done|done]. }
    cbn [d_pages d_fetched].
    destruct (scan_links min_year _ [] (d_pages st)) as [years pages].
    assert (Hrec : forall st1, d_fetched st1 = d_fetched st ++ [page_url page] ->
              discover_loop urljoin fetch min_year rest st1 = Ok (st', e) ->
              exists k, (k <= length (page :: rest))%nat /\
                d_fetched st' = d_fetched st ++ (page_url <$> take k (page :: rest)) /\
                (e = Exhausted -> k = length (page :: rest))).
    { intros st1 Hst1 Hloop. apply IH in Hloop as (k & Hk & Hf & He).
      exists (S k). cbn. split; [lia|]. split; [|by intros ->%He].
      rewrite Hf, Hst1, <- app_assoc. done. }
    destruct years as [|y ys]; [by apply Hrec|].
    destruct (max_list (y :: ys) <? min_year); [|by apply Hrec].
    intros [= <- <-]. exists 1%nat. cbn. rewrite take_0.
    split; [lia|]. split; [done|done].
Qed.


End DiscoverMoreFacts.


(** X13.  Discovery asks for the root listing once to read the number of
    pages, and then for the listing pages 0, 1, 2, ... in this order and
    without a gap (page 0 being the root listing again); it asks for no more
    pages than the last page number allows, and for no more than [max_pages]
    when that option is given. *)
Theorem discovery_requests_in_order
        (urljoin : string -> string -> string)
        (page_param : string -> option Z)
        (fetch : string -> result Html.page)
        (min_year : Z) (max_pages : option Z)
        (st : Discover.dstate) (e : Discover.loop_exit) :
  Discover.discover_run urljoin page_param fetch min_year max_pages
    = Ok (st, e) ->
  exists first (k : nat),
    fetch Discover.ARCHIVES_ROOT = Ok first /\
    Discover.d_fetched st =
      Discover.ARCHIVES_ROOT ::
      ((fun i : nat => Discover.page_url (Z.of_nat i)) <$> seq 0 k) /\
    Z.of_nat k
      <= Z.max 0 (Discover.parse_last_page_num urljoin page_param first + 1) /\
    (forall mp, max_pages = Some mp -> Z.of_nat k <= Z.max 0 mp).
Proof.
  unfold Discover.discover_run.
  destruct (fetch Discover.ARCHIVES_ROOT) as [first|msg]; [|done].
  rewrite range_from_zero.
  set (last := match max_pages with
               | Some mp =>
                   Z.min (Discover.parse_last_page_num urljoin page_param first)
                         (mp - 1)
               | None => Discover.parse_last_page_num urljoin page_param first
               end).
  intros (k & Hk & Hf & _)%discover_loop_fetched.
  rewrite length_fmap, length_seq in Hk.
  exists first, k. split; [done|]. split; [|split].
  - rewrite Hf. cbn [Discover.d_fetched app]. f_equal.
    rewrite <- fmap_take, take_seq, <- list_fmap_compose.
    by rewrite Nat.min_l by done.
  - subst last. destruct max_pages; lia.
  - intros mp ->. subst last. lia.
Qed.

Lemma discovery_requests_in_order_witness :
  exists first (k : nat),
    Examples.web_two_pages Discover.ARCHIVES_ROOT = Ok first /\
    [Discover.ARCHIVES_ROOT; Discover.ARCHIVES_ROOT] =
      Discover.ARCHIVES_ROOT ::
      ((fun i : nat => Discover.page_url (Z.of_nat i)) <$> seq 0 k) /\
    Z.of_nat k
      <= Z.max 0 (Discover.parse_last_page_num UrlModel.urljoin
                    UrlModel.page_param first + 1) /\
    (forall mp, Some 1 = Some mp -> Z.of_nat k <= Z.max 0 mp).
Proof.
  apply (discovery_requests_in_order UrlModel.urljoin UrlModel.page_param
           Examples.web_two_pages 2020 (Some 1)
           (Discover.DState
              (list_to_set
                 ["https://ccps.aiche.org/resources/process-safety-beacon/archives/2021/june/english";
                  "https://ccps.aiche.org/resources/process-safety-beacon/archives/2022/may/english"])
              [Discover.ARCHIVES_ROOT; Discover.ARCHIVES_ROOT])
           Discover.Exhausted).
  vm_compute. reflexivity.
Defined.

(** ** The text of a PDF *)

Section PdfTextFacts.
Import PyStr Discover PdfText.

Lemma scan_sub_skip m new (s : string) : forall k,
  scan_sub m new k s = scan_sub m new 0 (drop_str k s).
Proof.
  induction s as [|c s IH]; intros k; [by destruct k|].
  destruct k as [|k]; [done|]. cbn [scan_sub drop_str]. apply IH.
Qed.

Lemma scan_sub_cons m new c (s : string) :
  scan_sub m new 0 (String c s) =
  match m (String c s) with
  | Some n => new +:+ scan_sub m new 0 (drop_str (Nat.pred n) s)
  | None => String c (scan_sub m new 0 s)
  end.
Proof. cbn [scan_sub]. destruct (m (String c s)); [|done]. by rewrite scan_sub_skip. Qed.

Lemma length_drop_str k (s : string) :
  (String.length (drop_str k s) <= String.length s)%nat.
Proof.
  revert s. induction k as [|k IH]; intros [|c s]; cbn; try lia.
  specialize (IH s). lia.
Qed.

Lemma contains_drop_str p k (s : string) :
  contains p s = false -> contains p (drop_str k s) = false.
Proof.
  revert s. induction k as [|k IH]; intros [|c s]; cbn [drop_str]; try done.
  cbn [contains]. intros [_ H]%orb_false_iff. by apply IH.
Qed.

Lemma contains_cons p c (s : string) :
  contains p (String c s) = startswith (String c s) p || contains p s.
Proof. done. Qed.

(** The first pass: blanks in front of a line feed. *)

Lemma blanks_then_lf_cons_blank c (s : string) :
  is_blank c = true -> blanks_then_lf (String c s) = None ->
  startswith s s_LF = false /\ blanks_then_lf s = None.
Proof.
  unfold blanks_then_lf, s_LF. cbn [span]. intros -> .
  destruct (span is_blank s) as [run after] eqn:Hspan.
  pose proof (span_spec _ _ _ _ Hspan) as [Hs Hrun].
  intros Hnone.
  assert (Hafter : match after with
                   | String e _ => Ascii.eqb e LF = false
                   | EmptyString => True
                   end).
  { destruct after as [|e after']; [done|]. by destruct (Ascii.eqb e LF). }
  split.
  - rewrite Hs. destruct run as [|r run'].
    + rewrite append_empty_l. destruct after as [|e after']; [done|].
      cbn [startswith]. by rewrite Ascii.eqb_sym, Hafter.
    + rewrite append_cons. cbn [startswith all_chars] in *.
      apply andb_true_iff in Hrun as [Hr _].
      destruct (Ascii.eqb_spec LF r) as [<-|]; [by vm_compute in Hr|done].
  - destruct run as [|r run']; [done|].
    destruct after as [|e after']; [done|]. by rewrite Hafter.
Qed.

Lemma pass1_head (s : string) :
  startswith (scan_sub blanks_then_lf s_LF 0 s) s_LF = true ->
  startswith s s_LF = true \/ blanks_then_lf s <> None.
Proof.
  destruct s as [|c s]; [done|]. rewrite scan_sub_cons.
  destruct (blanks_then_lf (String c s)); [by right|]. by left.
Qed.

Lemma pass1_clean b : is_blank b = true -> forall n (s : string),
  (String.length s <= n)%nat ->
  contains (String b s_LF) (scan_sub blanks_then_lf s_LF 0 s) = false.
Proof.
  intros Hb. induction n as [|n IH]; intros [|c s] Hlen; try done.
  { cbn in Hlen. lia. }
  cbn [String.length] in Hlen. rewrite scan_sub_cons.
  destruct (blanks_then_lf (String c s)) as [k|] eqn:Hm.
  - unfold s_LF at 2. rewrite append_cons, append_empty_l, contains_cons.
    rewrite IH by (pose proof (length_drop_str (Nat.pred k) s); lia).
    rewrite orb_false_r. cbn [startswith].
    destruct (Ascii.eqb_spec b LF) as [->|]; [by vm_compute in Hb|done].
  - rewrite contains_cons, IH by lia. rewrite orb_false_r. cbn [startswith].
    destruct (Ascii.eqb_spec b c) as [<-|]; [|done]. cbn [andb].
    destruct (blanks_then_lf_cons_blank b s Hb Hm) as [Hs Hn].
    destruct (startswith (scan_sub blanks_then_lf s_LF 0 s) s_LF) eqn:Hhead;
      [|done].
    apply pass1_head in Hhead as [?|?]; congruence.
Qed.

(** The second pass: runs of line feeds. *)

Local Abbreviation lf_run s := (String.length (span (Ascii.eqb LF) s).1).
Local Abbreviation pass2 := (scan_sub three_lf (s_LF +:+ s_LF) 0).

Lemma lf_run_cons c (s : string) :
  lf_run (String c s) = if Ascii.eqb LF c then S (lf_run s) else 0%nat.
Proof.
  cbn [span]. destruct (Ascii.eqb LF c); [|done].
  by destruct (span (Ascii.eqb LF) s).
Qed.

Lemma three_lf_spec (s : string) :
  three_lf s = if (3 <=? lf_run s)%nat then Some (lf_run s) else None.
Proof. unfold three_lf. by destruct (span (Ascii.eqb LF) s). Qed.

Lemma lf_run_drop (s : string) :
  lf_run (drop_str (lf_run s) s) = 0%nat.
Proof.
  induction s as [|c s IH]; [done|]. rewrite lf_run_cons.
  destruct (Ascii.eqb LF c) eqn:Hc; [done|].
  cbn [drop_str]. by rewrite lf_run_cons, Hc.
Qed.

Lemma startswith_lf_run (s : string) :
  startswith s s_LF = negb (lf_run s =? 0)%nat.
Proof.
  destruct s as [|c s]; [done|]. rewrite lf_run_cons. unfold s_LF.
  cbn [startswith]. by destruct (Ascii.eqb LF c).
Qed.

Lemma pass2_cons_hit c (s : string) :
  (3 <= lf_run (String c s))%nat ->
  pass2 (String c s) =
  String LF (String LF (pass2 (drop_str (lf_run (String c s)) (String c s)))).
Proof.
  intros H. rewrite scan_sub_cons, three_lf_spec.
  rewrite (proj2 (Nat.leb_le _ _)) by done.
  destruct (lf_run (String c s)) as [|k] eqn:Hk; [lia|]. done.
Qed.

Lemma pass2_cons_miss c (s : string) :
  (lf_run (String c s) < 3)%nat ->
  pass2 (String c s) = String c (pass2 s).
Proof.
  intros H. rewrite scan_sub_cons, three_lf_spec.
  rewrite (proj2 (Nat.leb_gt _ _)) by done. done.
Qed.

Lemma pass2_lf_run n : forall s : string,
  (String.length s <= n)%nat -> lf_run (pass2 s) = Nat.min (lf_run s) 2.
Proof.
  induction n as [|n IH]; intros [|c s] Hlen; try done.
  { cbn in Hlen. lia. }
  cbn [String.length] in Hlen.
  destruct (Nat.le_gt_cases 3 (lf_run (String c s))) as [Hhit|Hmiss].
  - rewrite pass2_cons_hit by done.
    pose proof (lf_run_drop (String c s)) as Hzero.
    assert (Hrest : (String.length (drop_str (lf_run (String c s)) (String c s))
                     <= n)%nat).
    { destruct (lf_run (String c s)) as [|k]; [lia|].
      cbn [drop_str]. pose proof (length_drop_str k s). lia. }
    revert Hzero Hrest.
    generalize (drop_str (lf_run (String c s)) (String c s)). intros rest Hzero Hrest.
    rewrite (lf_run_cons LF), (lf_run_cons LF), !Ascii.eqb_refl.
    rewrite IH, Hzero by done. lia.
  - rewrite pass2_cons_miss by done. rewrite !lf_run_cons in *.
    destruct (Ascii.eqb LF c); [|done]. rewrite IH by lia. lia.
Qed.

Lemma pass2_no_triple n : forall s : string,
  (String.length s <= n)%nat ->
  contains (String LF (String LF s_LF)) (pass2 s) = false.
Proof.
  induction n as [|n IH]; intros [|c s] Hlen; try done.
  { cbn in Hlen. lia. }
  cbn [String.length] in Hlen.
  destruct (Nat.le_gt_cases 3 (lf_run (String c s))) as [Hhit|Hmiss].
  - rewrite pass2_cons_hit by done.
    set (rest := drop_str (lf_run (String c s)) (String c s)).
    assert (Hrest : (String.length rest <= n)%nat).
    { subst rest. destruct (lf_run (String c s)) as [|k]; [lia|].
      cbn [drop_str]. pose proof (length_drop_str k s). lia. }
    assert (Hhead : startswith (pass2 rest) s_LF = false).
    { rewrite startswith_lf_run, (pass2_lf_run n) by done.
      subst rest. by rewrite lf_run_drop. }
    rewrite !contains_cons, IH by done. rewrite orb_false_r.
    cbn [startswith]. rewrite !Ascii.eqb_refl. cbn [andb].
    change (startswith (pass2 rest) (String LF EmptyString))
      with (startswith (pass2 rest) s_LF).
    rewrite Hhead. cbn [orb].
    destruct (pass2 rest) as [|d r]; [done|]. unfold s_LF in Hhead.
    cbn [startswith] in Hhead. by destruct (Ascii.eqb LF d).
  - rewrite pass2_cons_miss by done.
    rewrite contains_cons, IH by lia. rewrite orb_false_r.
    cbn [startswith]. destruct (Ascii.eqb LF c) eqn:Hc; [|done]. cbn [andb].
    rewrite lf_run_cons, Hc in Hmiss.
    pose proof (pass2_lf_run n s ltac:(lia)) as Hrun.
    destruct (pass2 s) as [|d1 [|d2 r]]; [done|by rewrite andb_false_r|].
    cbn [startswith]. rewrite !lf_run_cons in Hrun. unfold s_LF.
    cbn [startswith].
    destruct (Ascii.eqb LF d1); [|done]. destruct (Ascii.eqb LF d2); [|done].
    lia.
Qed.

Lemma pass2_keeps_clean b : is_blank b = true -> forall n (s : string),
  (String.length s <= n)%nat ->
  contains (String b s_LF) s = false ->
  contains (String b s_LF) (pass2 s) = false.
Proof.
  intros Hb. induction n as [|n IH]; intros [|c s] Hlen Hs; try done.
  { cbn in Hlen. lia. }
  cbn [String.length] in Hlen.
  assert (Hbl : Ascii.eqb b LF = false).
  { destruct (Ascii.eqb_spec b LF) as [->|]; [by vm_compute in Hb|done]. }
  destruct (Nat.le_gt_cases 3 (lf_run (String c s))) as [Hhit|Hmiss].
  - rewrite pass2_cons_hit by done.
    set (rest := drop_str (lf_run (String c s)) (String c s)).
    assert (Hrest : (String.length rest <= n)%nat).
    { subst rest. destruct (lf_run (String c s)) as [|k]; [lia|].
      cbn [drop_str]. pose proof (length_drop_str k s). lia. }
    rewrite !contains_cons, IH; [|done|by apply contains_drop_str].
    cbn [startswith]. by rewrite Hbl.
  - rewrite pass2_cons_miss by done.
    rewrite contains_cons in Hs. apply orb_false_iff in Hs as [Hhead Hs].
    rewrite contains_cons, IH by (done || lia). rewrite orb_false_r.
    cbn [startswith] in *.
    destruct (Ascii.eqb b c); [|done]. cbn [andb] in *.
    change (startswith (pass2 s) (String LF EmptyString))
      with (startswith (pass2 s) s_LF).
    change (startswith s (String LF EmptyString))
      with (startswith s s_LF) in Hhead.
    rewrite startswith_lf_run in *. rewrite (pass2_lf_run n) by lia.
    destruct (lf_run s); [done|]. done.
Qed.

End PdfTextFacts.

(** X14.  The text that [extract_pdf_text] returns for a readable PDF is
    tidy: no line ends in a blank or a tab, and there are never more than
    two line feeds in a row. *)
Theorem extracted_text_is_tidy (name : string) (pages : list (option string)) :
  let text := (PdfText.extract_pdf_text name (Ok pages)).1 in
  PyStr.contains (String PdfText.LF (String PdfText.LF PdfText.s_LF)) text = false /\
  PyStr.contains (String " " PdfText.s_LF) text = false /\
  PyStr.contains (String "009" PdfText.s_LF) text = false /\
  (PdfText.extract_pdf_text name (Ok pages)).2 = None.
Proof.
  cbn [PdfText.extract_pdf_text fst snd]. split; [|split; [|split]].
  - by eapply pass2_no_triple.
  - eapply (pass2_keeps_clean " "); [done|done|]. by eapply pass1_clean.
  - eapply (pass2_keeps_clean "009"); [done|done|]. by eapply pass1_clean.
  - done.
Qed.

(** ** File names and object paths of the backend harvester *)

Section PathFacts.
Import PyStr Discover PdfText Harvest.

Lemma append_inv_head (p a b : string) : p +:+ a = p +:+ b -> a = b.
Proof.
  induction p as [|c p IH]; [done|]. rewrite !append_cons.
  intros [= H]. by apply IH.
Qed.

(** Two texts that start with digits and go on with the same character,
    which is not a digit, have the same digits and the same rest. *)
Lemma digits_split c (a a' r r' : string) :
  is_digit c = false ->
  all_chars is_digit a = true -> all_chars is_digit a' = true ->
  a +:+ String c r = a' +:+ String c r' -> a = a' /\ r = r'.
Proof.
  intros Hc. revert a'. induction a as [|d a IH]; intros [|d' a'] Ha Ha'.
  - rewrite !append_empty_l. by intros [= ->].
  - rewrite append_empty_l, append_cons. intros [= <- _].
    cbn in Ha'. by rewrite Hc in Ha'.
  - rewrite append_empty_l, append_cons. intros [= -> _].
    cbn in Ha. by rewrite Hc in Ha.
  - rewrite !append_cons. intros [= -> Hrest].
    cbn in Ha, Ha'. apply andb_true_iff in Ha as [_ Ha].
    apply andb_true_iff in Ha' as [_ Ha'].
    destruct (IH a' Ha Ha' Hrest) as [-> ->]. done.
Qed.

Lemma year_month_split c (y m y' m' : Z) (r r' : string) :
  is_digit c = false ->
  0 <= y -> 0 <= m -> 0 <= y' -> 0 <= m' ->
  str_of_Z y +:+ String c (fmt_02d m +:+ String c r) =
  str_of_Z y' +:+ String c (fmt_02d m' +:+ String c r') ->
  y = y' /\ m = m' /\ r = r'.
Proof.
  intros Hc Hy Hm Hy' Hm' Heq.
  destruct (str_of_Z_nonneg y Hy) as [Hyv Hyd].
  destruct (str_of_Z_nonneg y' Hy') as [Hyv' Hyd'].
  destruct (fmt_02d_value m Hm) as [Hmv Hmd].
  destruct (fmt_02d_value m' Hm') as [Hmv' Hmd'].
  apply digits_split in Heq as [Hyy Heq]; [|done..].
  apply digits_split in Heq as [Hmm Heq]; [|done..].
  split; [congruence|]. split; [congruence|done].
Qed.

End PathFacts.

(** X15.  Two issues of different year or month never share a local file
    name or an object path in the bucket, so the PDF of one issue is never
    written over the PDF of another. *)
Theorem object_paths_distinct (y m y' m' : Z) :
  0 <= y -> 0 <= m -> 0 <= y' -> 0 <= m' ->
  (Harvest.pdf_filename y m = Harvest.pdf_filename y' m' -> y = y' /\ m = m') /\
  (Harvest.object_path_of y m = Harvest.object_path_of y' m' ->
   y = y' /\ m = m').
Proof.
  intros Hy Hm Hy' Hm'. split.
  - unfold Harvest.pdf_filename. intros Heq.
    apply (year_month_split "-" y m y' m' "Beacon-English.pdf"
             "Beacon-English.pdf") in Heq as (? & ? & _); done.
  - unfold Harvest.object_path_of. intros Heq.
    apply (append_inv_head "beacon/") in Heq.
    apply (year_month_split "/" y m y' m') in Heq as (? & ? & _); done.
Qed.

Lemma object_paths_distinct_witness :
  Harvest.pdf_filename 2020 5 <> Harvest.pdf_filename 2020 6 /\
  Harvest.object_path_of 2020 5 <> Harvest.object_path_of 2021 5.
Proof.
  split; intros Heq.
  - destruct (object_paths_distinct 2020 5 2020 6) as [Hname _]; [lia..|].
    destruct (Hname Heq) as [_ Hm]. discriminate Hm.
  - destruct (object_paths_distinct 2020 5 2021 5) as [_ Hpath]; [lia..|].
    destruct (Hpath Heq) as [Hy _]. discriminate Hy.
Defined.

(** ** Loading articles and posting join rows *)

Section KeywordMoreFacts.
Import PyStr KeywordMap.

Local Abbreviation key r :=
  (rstrip_slash (default EmptyString (ar_source_page_url r))).

Lemma add_articles_cons r rows out :
  add_articles (r :: rows) out =
  add_articles rows (match key r with
                     | EmptyString => out
                     | u => <[u := ar_id r]> out
                     end).
Proof. done. Qed.

Lemma add_articles_other rows : forall out u,
  (forall r, r ∈ rows -> key r <> u) ->
  add_articles rows out !! u = out !! u.
Proof.
  induction rows as [|r rows IH]; intros out u Hne; [done|].
  rewrite add_articles_cons, IH.
  - destruct (key r) as [|c k] eqn:Hk; [done|].
    apply lookup_insert_ne. rewrite <- Hk. apply Hne. by left.
  - intros r' Hr'. apply Hne. by right.
Qed.

Lemma add_articles_from rows : forall out u i,
  add_articles rows out !! u = Some i ->
  out !! u = Some i \/
  (u <> EmptyString /\ exists r, r ∈ rows /\ key r = u /\ ar_id r = i).
Proof.
  induction rows as [|r rows IH]; intros out u i; [by left|].
  rewrite add_articles_cons. intros [H|(Hu & r' & Hr' & Hk & Hi)]%IH.
  - destruct (key r) as [|c k] eqn:Hk; [by left|].
    destruct (decide (String c k = u)) as [<-|Hne].
    + rewrite lookup_insert_eq in H. injection H as <-.
      right. split; [done|]. exists r. split; [by left|done].
    + rewrite lookup_insert_ne in H by done. by left.
  - right. split; [done|]. exists r'. split; [by right|done].
Qed.

End KeywordMoreFacts.

(** X16.  [load_all_articles] against a server that pages through a fixed
    table ends and returns the map of the whole table: every row with a URL
    is found under its URL without trailing slashes, a later row taking the
    place of an earlier one with the same URL; rows without URL are left
    out, and nothing else is in the map. *)
Theorem load_all_articles_complete (rows : list KeywordMap.article_row)
        (fuel : nat) :
  (length rows < fuel)%nat ->
  let key r :=
    PyStr.rstrip_slash (default EmptyString (KeywordMap.ar_source_page_url r)) in
  exists url2id,
    KeywordMap.load_all_articles (KeywordMap.table_page rows) fuel 0 ∅
      = Some (Ok url2id) /\
    (forall pre r post,
       rows = pre ++ r :: post -> key r <> EmptyString ->
       (forall r', r' ∈ post -> key r' <> key r) ->
       url2id !! key r = Some (KeywordMap.ar_id r)) /\
    (forall u i,
       url2id !! u = Some i ->
       u <> EmptyString /\
       exists r, r ∈ rows /\ key r = u /\ KeywordMap.ar_id r = i).
Proof.
  intros Hfuel key. exists (KeywordMap.add_articles rows ∅).
  split; [|split].
  - apply (load_all_articles_table rows fuel 0 ∅). by rewrite drop_0.
  - intros pre r post -> Hkey Hpost.
    rewrite add_articles_app, add_articles_cons, add_articles_other by done.
    fold (key r). destruct (key r) as [|c k]; [done|].
    apply lookup_insert_eq.
  - intros u i [H|H]%add_articles_from; [|done].
    by rewrite lookup_empty in H.
Qed.

Lemma load_all_articles_complete_witness :
  exists url2id,
    KeywordMap.load_all_articles
      (KeywordMap.table_page KeywordExamples.articles_db) 3 0 ∅
      = Some (Ok url2id) /\
    url2id !! "https://ccps.aiche.org/resources/process-safety-beacon/archives/2020/may/english"
      = Some 41.
Proof.
  destruct (load_all_articles_complete KeywordExamples.articles_db 3)
    as (url2id & Hload & Hin & _); [simpl; lia|].
  exists url2id. split; [done|].
  apply (Hin [] (KeywordMap.ArticleRow 41 (Some "https://ccps.aiche.org/resources/process-safety-beacon/archives/2020/may/english"))
             [KeywordMap.ArticleRow 42 None]); [reflexivity|discriminate|].
  intros r' ->%list_elem_of_singleton. discriminate.
Defined.

(** X17.  [load_all_articles] has no bound on the number of pages: it
    returns only when a request raises or brings an empty page. Against a
    server that answers every offset with rows it is still asking after any
    number of requests. *)
Theorem load_all_articles_needs_an_empty_page
        (get_articles : Z -> Z -> result (list KeywordMap.article_row)) :
  (forall offset, exists r rows,
     get_articles KeywordMap.ARTICLE_LIMIT offset = Ok (r :: rows)) ->
  forall fuel offset out,
    KeywordMap.load_all_articles get_articles fuel offset out = None.
Proof.
  intros Hrows. induction fuel as [|fuel IH]; intros offset out; [done|].
  cbn [KeywordMap.load_all_articles].
  destruct (Hrows offset) as (r & rows & ->). apply IH.
Qed.

Lemma load_all_articles_needs_an_empty_page_witness :
  KeywordMap.load_all_articles
    (fun _ _ => Ok [KeywordMap.ArticleRow 41 None]) 50 0 ∅ = None.
Proof.
  apply (load_all_articles_needs_an_empty_page
           (fun _ _ => Ok [KeywordMap.ArticleRow 41 None])).
  intros offset. by exists (KeywordMap.ArticleRow 41 None), [].
Defined.

(** X18.  The join rows are posted batch by batch with no rollback: when the
    post of a batch raises, the batches before it have been written, the
    failing one is the last request made, and the later ones are never sent;
    without a failure every batch is posted, in order. *)
Theorem join_posts_stop_at_first_failure
        (post_joins : KeywordMap.join_post -> option string)
        (batches : list (list KeywordMap.join_row)) :
  let post b := KeywordMap.JoinPost KeywordMap.JOIN_CONFLICT b in
  match KeywordMap.post_batches post_joins batches with
  | (posts, None) =>
      posts = post <$> batches /\
      forall b, b ∈ batches -> post_joins (post b) = None
  | (posts, Some msg) =>
      exists pre b rest,
        batches = pre ++ b :: rest /\
        (forall b', b' ∈ pre -> post_joins (post b') = None) /\
        post_joins (post b) = Some msg /\
        posts = post <$> (pre ++ [b])
  end.
Proof.
  intros post. induction batches as [|b rest IH]; cbn [KeywordMap.post_batches].
  { split; [done|]. intros b Hb. by apply elem_of_nil in Hb. }
  fold (post b). destruct (post_joins (post b)) as [msg|] eqn:Hb.
  - exists [], b, rest. split; [done|]. split; [|done].
    intros b' Hb'. by apply elem_of_nil in Hb'.
  - destruct (KeywordMap.post_batches post_joins rest) as [ps [msg|]].
    + destruct IH as (pre & b0 & rest0 & -> & Hpre & Hb0 & ->).
      exists (b :: pre), b0, rest0. split; [done|]. split; [|done].
      intros b' [->|Hb']%elem_of_cons; auto.
    + destruct IH as [-> Hall]. split; [done|].
      intros b' [->|Hb']%elem_of_cons; auto.
Qed.

(** ** tools/fetch_ccps_keyword_map.py *)

Section KeywordFetchFacts.
Import PyStr Discover KeywordFetch.

Local Abbreviation member acc isu k :=
  (k ∈ default (∅ : gset string) (acc !! isu)).

Lemma add_keyword_member kn (acc : gmap string (gset string)) x isu k :
  member (add_keyword kn acc x) isu k <->
  member acc isu k \/ (isu = x /\ k = kn).
Proof.
  unfold add_keyword. destruct (decide (x = isu)) as [->|Hne].
  - rewrite lookup_insert_eq. cbn [from_option]. unfold id. set_solver.
  - rewrite lookup_insert_ne by done. naive_solver.
Qed.

Lemma add_keywords_member kn (l : list string) :
  forall (acc : gmap string (gset string)) isu k,
  member (foldl (add_keyword kn) acc l) isu k <->
  member acc isu k \/ (isu ∈ l /\ k = kn).
Proof.
  induction l as [|x l IH]; intros acc isu k; cbn [foldl].
  - split; [by left|]. intros [H|[H _]]; [done|]. by apply elem_of_nil in H.
  - rewrite IH, add_keyword_member, elem_of_cons. naive_solver.
Qed.

Lemma invert_sets_member keyword_map (items : list (string * gset string)) :
  forall (acc : gmap string (gset string)) isu k,
  member (foldl (fun acc item =>
                   foldl (add_keyword (keyword_name keyword_map item.1)) acc
                         (elements item.2)) acc items) isu k <->
  member acc isu k \/
  exists kid issues, (kid, issues) ∈ items /\ isu ∈ issues /\
                     k = keyword_name keyword_map kid.
Proof.
  induction items as [|[kid issues] items IH]; intros acc isu k; cbn [foldl].
  - split; [by left|]. intros [H|(? & ? & H & _)]; [done|].
    by apply elem_of_nil in H.
  - rewrite IH, add_keywords_member, elem_of_elements. cbn [fst snd]. split.
    + intros [[H|[H ->]]|(kid' & issues' & H & H2)].
      * by left.
      * right. exists kid, issues. split; [by left|done].
      * right. exists kid', issues'. split; [by right|done].
    + intros [H|(kid' & issues' & [[= -> ->]|H]%elem_of_cons & H2 & ->)].
      * by left; left.
      * by left; right.
      * right. by exists kid', issues'.
Qed.

Lemma invert_sets_nonempty keyword_map (items : list (string * gset string)) :
  forall (acc : gmap string (gset string)),
  (forall isu s, acc !! isu = Some s -> s <> ∅) ->
  forall isu s,
    foldl (fun acc item =>
             foldl (add_keyword (keyword_name keyword_map item.1)) acc
                   (elements item.2)) acc items !! isu = Some s ->
    s <> ∅.
Proof.
  induction items as [|[kid issues] items IH]; intros acc Hacc; [done|].
  cbn [foldl fst snd]. apply IH. clear IH.
  generalize (elements issues). intros l. revert acc Hacc.
  induction l as [|x l IHl]; intros acc Hacc; [done|].
  cbn [foldl]. apply IHl. intros isu s. unfold add_keyword.
  destruct (decide (x = isu)) as [->|Hne].
  - rewrite lookup_insert_eq. intros [= <-]. set_solver.
  - rewrite lookup_insert_ne by done. apply Hacc.
Qed.

Lemma sorted_set_elem (s : gset string) k : k ∈ Harvest.sorted_set s <-> k ∈ s.
Proof.
  unfold Harvest.sorted_set. rewrite merge_sort_Permutation.
  apply elem_of_elements.
Qed.

Section WithWeb.
Variable urljoin : string -> string -> string.
Variable fetch : string -> result kpage.

Lemma keyword_pages_bounded kid : forall fuel page issues requested,
  0 <= page <= 50 -> (Z.to_nat (51 - page) <= fuel)%nat ->
  exists r (k : nat),
    keyword_pages urljoin fetch fuel kid page issues requested =
      Some (r, requested ++
               ((fun i : nat => keyword_url kid (page + Z.of_nat i)) <$> seq 0 k)) /\
    (1 <= k)%nat /\ Z.of_nat k <= 51 - page.
Proof.
  induction fuel as [|fuel IH]; intros page issues requested Hpage Hfuel; [lia|].
  cbn [keyword_pages].
  assert (Hone : requested ++ [keyword_url kid page] =
                 requested ++
                 ((fun i : nat => keyword_url kid (page + Z.of_nat i)) <$> seq 0 1)).
  { cbn. by rewrite Z.add_0_r. }
  destruct (fetch (keyword_url kid page)) as [html|msg].
  2:{ exists (Raise msg), 1%nat. rewrite Hone. split; [done|lia]. }
  destruct (has_next_page html); cbn [negb].
  2:{ eexists _, 1%nat. rewrite Hone. split; [done|lia]. }
  destruct (Z.ltb_spec 50 (page + 1)) as [Hlast|Hmore].
  { eexists _, 1%nat. rewrite Hone. split; [done|lia]. }
  destruct (IH (page + 1) (issues ∪ extract_issue_english_urls urljoin html)
               (requested ++ [keyword_url kid page])) as (r & k & Hrun & Hk1 & Hk2);
    [lia|lia|].
  exists r, (S k). rewrite Hrun. split; [|lia]. do 2 f_equal.
  rewrite <- app_assoc. f_equal. cbn [seq fmap list_fmap app].
  rewrite Z.add_0_r. f_equal.
  rewrite <- fmap_S_seq, <- list_fmap_compose.
  apply list_fmap_ext. intros i j _. cbn. f_equal. lia.
Qed.

Lemma build_bounded keyword_ids : forall kid2issues requested,
  exists r urls,
    build_keyword_to_issues urljoin fetch 51 keyword_ids kid2issues requested =
      Some (r, requested ++ urls) /\
    (length urls <= 51 * length keyword_ids)%nat.
Proof.
  induction keyword_ids as [|kid rest IH]; intros kid2issues requested.
  { exists (Ok kid2issues), []. by rewrite app_nil_r. }
  cbn [build_keyword_to_issues].
  destruct (keyword_pages_bounded kid 51 0 ∅ []) as (r & k & -> & Hk1 & Hk2);
    [lia|lia|].
  rewrite app_nil_l.
  set (urls := (fun i : nat => keyword_url kid (0 + Z.of_nat i)) <$> seq 0 k).
  assert (Hlen : length urls = k).
  { subst urls. by rewrite length_fmap, length_seq. }
  destruct r as [issues|msg].
  - destruct (IH (dict_set kid issues kid2issues) (requested ++ urls))
      as (r' & urls' & -> & Hlen').
    exists r', (urls ++ urls'). rewrite app_assoc. split; [done|].
    rewrite length_app. cbn [length]. lia.
  - exists (Raise msg), urls. split; [done|]. cbn [length]. lia.
Qed.

End WithWeb.

End KeywordFetchFacts.

(** X19.  [invert_to_issue_keywords] turns the map around without losing or
    inventing anything: a name is listed under an issue exactly when the
    issue is among the issues of a keyword with that name (the name being
    "keyword_" followed by the id when the id has none); every issue of the
    result has at least one name, and its names are sorted and free of
    duplicates. *)
Theorem invert_lists_the_keywords_of_each_issue
        (keyword_map : gmap string string)
        (kid2issues : list (string * gset string)) :
  let result := KeywordFetch.invert_to_issue_keywords keyword_map kid2issues in
  (forall isu k,
     k ∈ default [] (result !! isu) <->
     exists kid issues,
       (kid, issues) ∈ kid2issues /\ isu ∈ issues /\
       k = KeywordFetch.keyword_name keyword_map kid) /\
  (forall isu names,
     result !! isu = Some names ->
     names <> [] /\ Sorted Harvest.str_le names /\ NoDup names).
Proof.
  intros result. subst result. unfold KeywordFetch.invert_to_issue_keywords.
  split.
  - intros isu k. rewrite lookup_fmap.
    pose proof (invert_sets_member keyword_map kid2issues ∅ isu k) as Hm.
    fold (KeywordFetch.invert_sets keyword_map kid2issues) in Hm.
    rewrite lookup_empty in Hm. cbn [from_option] in Hm.
    destruct (KeywordFetch.invert_sets keyword_map kid2issues !! isu) as [s|];
      cbn [fmap option_fmap option_map from_option] in *; unfold id in *.
    + rewrite sorted_set_elem, Hm. split; [|by right].
      intros [H|H]; [|done]. by apply not_elem_of_empty in H.
    + split; [intros H; by apply elem_of_nil in H|].
      intros H. assert (k ∈ (∅ : gset string)) as H0 by (apply Hm; by right).
      by apply not_elem_of_empty in H0.
  - intros isu names. rewrite lookup_fmap.
    destruct (KeywordFetch.invert_sets keyword_map kid2issues !! isu) as [s|] eqn:Hs;
      [|done].
    cbn. intros [= <-].
    destruct (sorted_set_round_trip s) as (_ & Hsorted & Hnd).
    split; [|done]. intros Hnil.
    apply (invert_sets_nonempty keyword_map kid2issues ∅) in Hs; [|done].
    apply Hs. apply set_eq. intros k. rewrite <- sorted_set_elem, Hnil.
    split; [intros H; by apply elem_of_nil in H|].
    intros H. by apply not_elem_of_empty in H.
Qed.

(** X20.  [build_keyword_to_issues] always comes to an end: for each keyword
    it asks for the result pages 0, 1, 2, ... in this order, stops at the
    first page without a link to a next page, and asks for no more than 51
    pages whatever the site answers. *)
Theorem keyword_pages_are_capped
        (urljoin : string -> string -> string)
        (fetch : string -> result KeywordFetch.kpage)
        (kid : string) (keyword_ids : list string) :
  (exists r (k : nat),
     KeywordFetch.keyword_pages urljoin fetch 51 kid 0 ∅ [] =
       Some (r, (fun i : nat => KeywordFetch.keyword_url kid (Z.of_nat i))
                  <$> seq 0 k) /\
     (1 <= k <= 51)%nat) /\
  (exists r urls,
     KeywordFetch.build_keyword_to_issues urljoin fetch 51 keyword_ids [] [] =
       Some (r, urls) /\
     (length urls <= 51 * length keyword_ids)%nat).
Proof.
  split.
  - destruct (keyword_pages_bounded urljoin fetch kid 51 0 ∅ [])
      as (r & k & Hrun & Hk1 & Hk2); [lia|lia|].
    exists r, k. rewrite Hrun. split; [|lia]. by rewrite app_nil_l.
  - destruct (build_bounded urljoin fetch keyword_ids [] [])
      as (r & urls & Hrun & Hlen).
    exists r, urls. by rewrite Hrun, app_nil_l.
Qed.

(** ** Discovery in the tools harvester *)

Section ToolsDiscoverFacts.
Import PyStr Html Backfill IssuePattern ToolsDiscover.
Variable urljoin : string -> string -> string.
Variable get_page : string -> fetched.



End ToolsDiscoverFacts.


(** ** What [clean_text] guarantees *)

(** X22.  What [clean_text] does guarantee: its result holds no NUL, no
    carriage return and no other control character of [CONTROL_RE]; and
    every line break of the input, be it "\r\n", a lone "\r" or "\n", is one
    "\n" of the result, every tab is still a tab, and breaks and tabs come
    in the same order as before. *)
Theorem clean_text_normalises (s : string) :
  (forall c, PyStr.mem_char c (CleanText.clean_text s) = true ->
             CleanText.is_control c = false) /\
  PyStr.mem_char CleanText.NUL (CleanText.clean_text s) = false /\
  PyStr.mem_char CleanText.CR (CleanText.clean_text s) = false /\
  CleanText.marks_out (CleanText.clean_text s) = CleanText.marks_in s.
Proof.
  split; [intros c; apply clean_text_no_control|].
  split; [apply clean_text_no_NUL|].
  split; [apply clean_text_no_CR|apply clean_text_marks].
Qed.

(** ** Rows sent to the articles table *)

Section RowFacts.
Import PyStr Html Http Discover PdfText Harvest.
Variable urljoin : string -> string -> string.
Variable fetch : string -> result page.
Variable http_get : string -> result response.
Variable read_pdf : bytes -> result (list (option string)).
Variable upload_fails : string -> string -> bytes -> option string.
Variable upsert_fails : string -> payload -> option string.
Variable a : args.

Local Abbreviation try_body := (try_body urljoin fetch http_get read_pdf upload_fails upsert_fails a).
Local Abbreviation step := (step urljoin fetch http_get read_pdf upload_fails upsert_fails a).
Local Abbreviation harvest := (harvest urljoin fetch http_get read_pdf upload_fails upsert_fails a).

(** What the loop sends to the table for the page [u]. *)
Local Abbreviation well_formed u row :=
  (title row <> EmptyString /\
   content row <> Some EmptyString /\
   source_page_url row = u%string /\
   parse_year_month_from_english_url u
     = Some (published_year row, published_month row) /\
   pdf_bucket row = arg_bucket a /\
   pdf_path row = object_path_of (published_year row) (published_month row) /\
   source_pdf_url row <> EmptyString).

Lemma try_body_rows u y m st e :
  parse_year_month_from_english_url u = Some (y, m) ->
  e ∈ h_trace (try_body u y m st).1 ->
  e ∈ h_trace st \/
  match ev_op e with
  | Upsert table row =>
      ev_item e = u /\ table = arg_table a /\ well_formed u row
  | _ => True
  end.
Proof.
  intros Hparse.
  set (ok := fun e : event =>
         match ev_op e with
         | Upsert table row =>
             ev_item e = u /\ table = arg_table a /\ well_formed u row
         | _ => True
         end).
  change (e ∈ h_trace (try_body u y m st).1 -> e ∈ h_trace st \/ ok e).
  assert (HF : forall x, ok (Ev u (Fetch x))) by done.
  assert (HD : forall x, ok (Ev u (Download x))) by done.
  assert (HU : forall b p, ok (Ev u (Upload b p))) by done.
  assert (HR : forall t c pdf,
            t <> EmptyString -> c <> Some EmptyString -> pdf <> EmptyString ->
            ok (Ev u (Upsert (arg_table a)
                        (Payload t c u pdf y m (arg_bucket a)
                                 (object_path_of y m))))).
  { intros t c pdf Ht Hc Hpdf. unfold ok. cbn. by rewrite Hparse. }
  clearbody ok.
  assert (Htitle : forall html,
            match extract_title_from_english_page html with
            | EmptyString => fallback_title y m
            | t => t
            end <> EmptyString).
  { intros html. by destruct (extract_title_from_english_page html). }
  assert (Hcontent : forall text : string,
            match text with EmptyString => None | _ => Some text end
            <> Some EmptyString).
  { by intros [|c t]. }
  unfold Harvest.try_body.
  destruct (fetch u) as [html|msg]; cbn [fst snd].
  2:{ cbn. rewrite elem_of_app, list_elem_of_singleton.
      intros [H| ->]; [by left|by right]. }
  destruct (Extract.extract_pdf_url urljoin html u) as [|c pdf] eqn:Hpdf;
    cbn [fst snd].
  { cbn. rewrite elem_of_app, list_elem_of_singleton.
    intros [H| ->]; [by left|by right]. }
  destruct (download_pdf _ _ _) as [fs|msg]; cbn [fst snd].
  2:{ cbn. rewrite !elem_of_app, !list_elem_of_singleton.
      intros [[H| ->]| ->]; [by left|by right..]. }
  destruct (extract_pdf_text _ _) as [text w]. cbn [fst snd].
  destruct (upload_fails _ _ _) as [msg|]; cbn [fst snd].
  { cbn. rewrite !elem_of_app, !list_elem_of_singleton.
    intros [[[H| ->]| ->]| ->]; [by left|by right..]. }
  destruct (upsert_fails _ _) as [msg|]; cbn [fst snd]; cbn;
    rewrite !elem_of_app, !list_elem_of_singleton;
    (intros [[[[H| ->]| ->]| ->]| ->]; [by left|right; auto..]).
Qed.

Lemma step_rows u st e :
  e ∈ h_trace (step u st).1 ->
  e ∈ h_trace st \/
  match ev_op e with
  | Upsert table row =>
      table = arg_table a /\ well_formed (ev_item e) row
  | _ => True
  end.
Proof.
  destruct (step_cases urljoin fetch http_get read_pdf upload_fails
              upsert_fails a u st)
    as [(_ & _ & ->)|[(_ & _ & ->)|(_ & y & m & Hparse & ->)]];
    [by left..|].
  intros He.
  assert (e ∈ h_trace (try_body u y m st).1) as Hin.
  { by destruct ((try_body u y m st).2). }
  apply (try_body_rows u y m st e Hparse) in Hin as [H|H]; [by left|right].
  destruct (ev_op e); try done. by destruct H as (-> & -> & H).
Qed.

Lemma harvest_rows pages : forall st e,
  e ∈ h_trace (harvest pages st) ->
  e ∈ h_trace st \/
  match ev_op e with
  | Upsert table row =>
      table = arg_table a /\ well_formed (ev_item e) row
  | _ => True
  end.
Proof.
  induction pages as [|u pages IH]; intros st e He; [by left|].
  destruct (harvest_cons urljoin fetch http_get read_pdf upload_fails
              upsert_fails a u pages st) as [Hh|Hh]; rewrite Hh in He.
  - by apply (step_rows u).
  - apply IH in He as [He|He]; [by apply (step_rows u)|by right].
Qed.

End RowFacts.

(** X23.  Every row that a run sends to the articles table is well formed:
    its title is not empty (the fallback title stands in for a page without
    heading), its content is absent rather than empty, its source URL is the
    page being processed, its year and month are those read from that URL,
    and its bucket and object path are the ones the PDF was uploaded to. *)
Theorem upserted_rows_are_well_formed
        (urljoin : string -> string -> string)
        (fetch : string -> result Html.page)
        (http_get : string -> result Http.response)
        (read_pdf : Http.bytes -> result (list (option string)))
        (upload_fails : string -> string -> Http.bytes -> option string)
        (upsert_fails : string -> Harvest.payload -> option string)
        (a : Harvest.args) (pages : list string) (st : Harvest.hstate)
        (u table : string) (row : Harvest.payload) :
  let run :=
    Harvest.harvest urljoin fetch http_get read_pdf upload_fails upsert_fails
                    a pages st in
  Harvest.Ev u (Harvest.Upsert table row) ∈ Harvest.h_trace run ->
  Harvest.Ev u (Harvest.Upsert table row) ∈ Harvest.h_trace st \/
  (table = Harvest.arg_table a /\
   Harvest.title row <> EmptyString /\
   Harvest.content row <> Some EmptyString /\
   Harvest.source_page_url row = u /\
   Discover.parse_year_month_from_english_url u
     = Some (Harvest.published_year row, Harvest.published_month row) /\
   Harvest.pdf_bucket row = Harvest.arg_bucket a /\
   Harvest.pdf_path row
     = Harvest.object_path_of (Harvest.published_year row)
                              (Harvest.published_month row) /\
   Harvest.source_pdf_url row <> EmptyString).
Proof.
  intros run He.
  apply (harvest_rows urljoin fetch http_get read_pdf upload_fails
           upsert_fails a pages st) in He as [He|He]; [by left|by right].
Qed.

Lemma upserted_rows_are_well_formed_witness :
  let row :=
    Harvest.Payload "Hot Work Hazards" (Some "Hot work permits")
      HarvestExamples.issue_url HarvestExamples.pdf_link 2020 5
      "ccps-pdfs" (Harvest.object_path_of 2020 5) in
  Harvest.Ev HarvestExamples.issue_url (Harvest.Upsert "ccps_chaser_articles" row)
    ∈ Harvest.h_trace HarvestExamples.fresh \/
  ("ccps_chaser_articles" = Harvest.arg_table HarvestExamples.args_plain /\
   Harvest.title row <> EmptyString /\
   Harvest.content row <> Some EmptyString /\
   Harvest.source_page_url row = HarvestExamples.issue_url /\
   Discover.parse_year_month_from_english_url HarvestExamples.issue_url
     = Some (Harvest.published_year row, Harvest.published_month row) /\
   Harvest.pdf_bucket row = Harvest.arg_bucket HarvestExamples.args_plain /\
   Harvest.pdf_path row
     = Harvest.object_path_of (Harvest.published_year row)
                              (Harvest.published_month row) /\
   Harvest.source_pdf_url row <> EmptyString).
Proof.
  apply (upserted_rows_are_well_formed UrlModel.urljoin
           HarvestExamples.fetch_issue HarvestExamples.get_ok
           HarvestExamples.pdf_readable HarvestExamples.upload_ok
           HarvestExamples.upsert_ok HarvestExamples.args_plain
           [HarvestExamples.issue_url] HarvestExamples.fresh).
  vm_compute. do 3 apply list_elem_of_further. apply list_elem_of_here.
Defined.

(** ** Titles of issue pages *)

Section TitleFacts.
Import PyStr Discover PdfText.

Lemma rstrip_by_empty p (s : string) :
  rstrip_by p s = EmptyString <-> all_chars p s = true.
Proof.
  induction s as [|c s IH]; [done|]. cbn [rstrip_by all_chars].
  destruct (rstrip_by p s) as [|d r] eqn:Hr.
  - rewrite (proj1 IH eq_refl), andb_true_r. by destruct (p c).
  - split; [done|]. intros [_ Hs]%andb_true_iff. by apply IH in Hs.
Qed.

Lemma rstrip_by_idemp p (s : string) :
  rstrip_by p (rstrip_by p s) = rstrip_by p s.
Proof.
  induction s as [|c s IH]; [done|]. cbn [rstrip_by].
  destruct (rstrip_by p s) as [|d r] eqn:Hr.
  - destruct (p c) eqn:Hc; [done|]. cbn. by rewrite Hc.
  - cbn [rstrip_by] in *. by rewrite IH.
Qed.

Lemma lstrip_rstrip p (s : string) :
  lstrip_by p (rstrip_by p s) = rstrip_by p (lstrip_by p s).
Proof.
  induction s as [|c s IH]; [done|]. cbn [rstrip_by lstrip_by].
  destruct (p c) eqn:Hc.
  - rewrite <- IH. destruct (rstrip_by p s) as [|d r]; [done|].
    cbn [lstrip_by]. by rewrite Hc.
  - cbn [rstrip_by].
    destruct (rstrip_by p s) as [|d r]; cbn [lstrip_by]; by rewrite Hc.
Qed.

Lemma strip_rstrip (s : string) : strip (rstrip_by isspace s) = strip s.
Proof. unfold strip. by rewrite lstrip_rstrip, rstrip_by_idemp. Qed.

Lemma length_lower (s : string) : String.length (lower s) = String.length s.
Proof. induction s as [|c s IH]; [done|]. cbn. by rewrite IH. Qed.

Lemma lstrip_by_append_all p (t s : string) :
  all_chars p t = true -> lstrip_by p (t +:+ s) = lstrip_by p s.
Proof.
  induction t as [|c t IH]; [done|]. rewrite append_cons. cbn.
  intros [-> Ht]%andb_true_iff. by apply IH.
Qed.

Lemma lstrip_english (e : string) :
  lower e = "english" -> lstrip_by isspace e = e.
Proof.
  intros He. destruct e as [|c e]; [done|]. cbn [lower] in He.
  injection He as Hc _. cbn [lstrip_by].
  destruct (isspace c) eqn:Hs; [|done]. exfalso. revert Hc Hs. clear.
  destruct c as [[] [] [] [] [] [] [] []]; vm_compute; congruence.
Qed.

Lemma english_suffix_here_hit (e : string) :
  lower e = "english" ->
  english_suffix_here (String " " (String "-" (String " " e))) = true.
Proof.
  intros He.
  assert (Hlen : String.length e = 7%nat) by (by rewrite <- length_lower, He).
  unfold english_suffix_here.
  assert (H1 : forall s, lstrip_by isspace (String " " s) = lstrip_by isspace s)
    by done.
  assert (H2 : forall s, lstrip_by isspace (String "-" s) = String "-" s)
    by done.
  rewrite H1, H2, H1, (lstrip_english e He), He.
  change (startswith "english" "english") with true. cbn [andb].
  rewrite <- (append_empty_r e).
  by rewrite (drop_str_exact 7 e EmptyString Hlen).
Qed.

Lemma english_suffix_here_miss c (s : string) :
  isspace c = false -> c <> "-"%char ->
  english_suffix_here (String c s) = false.
Proof.
  intros Hs Hne. unfold english_suffix_here. cbn [lstrip_by]. rewrite Hs.
  clear Hs. revert Hne. generalize (lstrip_by isspace s). intros r Hne.
  destruct c as [[] [] [] [] [] [] [] []]; try done.
Qed.

Lemma english_suffix_here_space c (s : string) :
  isspace c = true ->
  english_suffix_here (String c s) = english_suffix_here s.
Proof. intros Hs. unfold english_suffix_here. cbn [lstrip_by]. by rewrite Hs. Qed.

Lemma english_suffix_here_tail (t e : string) :
  mem_char "-" t = false -> lower e = "english" ->
  english_suffix_here (t +:+ " - " +:+ e) = all_chars isspace t.
Proof.
  intros Ht He. induction t as [|c t IH].
  - rewrite append_empty_l, !append_cons, append_empty_l.
    by apply english_suffix_here_hit.
  - rewrite append_cons. cbn [all_chars mem_char] in *.
    apply orb_false_iff in Ht as [Hc Ht].
    destruct (isspace c) eqn:Hs.
    + rewrite english_suffix_here_space by done. by apply IH.
    + apply english_suffix_here_miss; [done|].
      intros ->. by rewrite Ascii.eqb_refl in Hc.
Qed.

Lemma cut_english_suffix_tail (t e : string) :
  mem_char "-" t = false -> lower e = "english" ->
  cut_english_suffix (t +:+ " - " +:+ e) = rstrip_by isspace t.
Proof.
  intros Ht He.
  assert (Hhere : forall t' : string, mem_char "-" t' = false ->
            english_suffix_here (t' +:+ " - " +:+ e) = all_chars isspace t').
  { intros t' Ht'. by apply english_suffix_here_tail. }
  revert Hhere. generalize (" - " +:+ e). intros suf Hhere.
  induction t as [|c t IH].
  - rewrite append_empty_l. specialize (Hhere EmptyString eq_refl).
    rewrite append_empty_l in Hhere.
    destruct suf as [|d s]; cbn [cut_english_suffix]; by rewrite Hhere.
  - specialize (Hhere (String c t) Ht) as Hc.
    rewrite append_cons in Hc |- *. cbn [cut_english_suffix]. rewrite Hc.
    cbn [mem_char] in Ht. apply orb_false_iff in Ht as [_ Ht].
    rewrite (IH Ht). cbn [rstrip_by all_chars].
    destruct (isspace c) eqn:Hs; cbn [andb].
    + destruct (all_chars isspace t) eqn:Hall.
      * by rewrite (proj2 (rstrip_by_empty isspace t) Hall).
      * destruct (rstrip_by isspace t) as [|d r] eqn:Hr; [|done].
        apply rstrip_by_empty in Hr. congruence.
    + by destruct (rstrip_by isspace t).
Qed.

End TitleFacts.

(** X24.  [extract_title_from_english_page] takes the heading of the page
    without its language suffix: for a heading that ends in " - English", in
    any mix of upper and lower case, and has no other hyphen, the title is
    the rest of the heading, stripped. *)
Theorem title_drops_english_suffix (anchors : list Html.anchor) (t e : string) :
  PyStr.mem_char "-" t = false -> PyStr.lower e = "english" ->
  PdfText.extract_title_from_english_page
    (Html.Page anchors (Some (t +:+ " - " +:+ e))) = PyStr.strip t.
Proof.
  intros Ht He. unfold PdfText.extract_title_from_english_page.
  cbn [Html.pg_h1 from_option]. unfold id.
  by rewrite cut_english_suffix_tail, strip_rstrip.
Qed.

Lemma title_drops_english_suffix_witness :
  PdfText.extract_title_from_english_page
    (Html.Page [] (Some ("Hot Work Hazards " +:+ " - " +:+ "ENGLISH")))
    = PyStr.strip "Hot Work Hazards ".
Proof. apply title_drops_english_suffix; reflexivity. Defined.

(** ** Exceptions in the loop of the tools harvester *)

Section BackfillErrorFacts.
Import Html Http Backfill.
Variable urljoin : string -> string -> string.
Variable get_page : string -> fetched.
Variable http_get : string -> result response.
Variable read_pdf : bytes -> result (list (option string)).

Local Abbreviation step := (Backfill.step urljoin get_page http_get read_pdf).
Local Abbreviation backfill := (Backfill.backfill urljoin get_page http_get read_pdf).



End BackfillErrorFacts.

